(** * applespi: the SPI keyboard/touchpad protocol engine of
      drivers/applespi/applespi.c

    A shallow embedding of the message framing, reassembly and command
    queueing code of the driver, and the properties of it that the
    specification states.

    Conventions.  A [__u8] is a [Z] in [0, 256); a buffer is a [list Z] of
    bytes; an [unsigned int] is a [Z] with its wrap-around modulo [2^32]
    written out.  The driver state [struct applespi_data] is a record that
    is passed explicitly.  What the driver asks of its environment
    ([spi_async], [wake_up_all], the input handlers) is recorded as a list
    of [effect]s; what the environment answers (the status [spi_async]
    returns, the bytes a transfer brings) is an argument of the function
    that consumes it. *)

From Stdlib Require Import ZArith List Bool Lia QArith Qround.
Import ListNotations.
Local Open Scope Z_scope.

(** ** Constants (applespi.c, lines 74-97, 301) *)

Definition APPLESPI_PACKET_SIZE : Z := 256.
Definition APPLESPI_STATUS_SIZE : Z := 4.

Definition PACKET_TYPE_READ : Z := 0x20.
Definition PACKET_TYPE_WRITE : Z := 0x40.
Definition PACKET_DEV_KEYB : Z := 0x01.
Definition PACKET_DEV_TPAD : Z := 0x02.

Definition MAX_FINGERS : Z := 11.
Definition MAX_PKTS_PER_MSG : Z := 2.

Definition MIN_KBD_BL_LEVEL : Z := 32.
Definition MAX_KBD_BL_LEVEL : Z := 255.
Definition KBD_BL_LEVEL_SCALE : Z := 1000000.
Definition KBD_BL_LEVEL_ADJ : Z :=
  (MAX_KBD_BL_LEVEL - MIN_KBD_BL_LEVEL) * KBD_BL_LEVEL_SCALE / 255.

Definition DBG_CMD_TP_INI : Z := 1.
Definition DBG_CMD_BL : Z := 2.
Definition DBG_CMD_CL : Z := 4.

(** [MSG_HEADER_SIZE]: type + zero + counter + rsp_buf_len + length. *)
Definition MSG_HEADER_SIZE : Z := 8.

(** [sizeof(packet->data)] of [struct spi_packet]. *)
Definition PACKET_DATA_SIZE : Z := 246.

(** [sizeof(struct touchpad_protocol)] (1 + 1 + 28 + 1 + 1 + 16) and
    [sizeof(struct tp_finger)] (fifteen [__le16]). *)
Definition TOUCHPAD_PROTOCOL_SIZE : Z := 48.
Definition TP_FINGER_SIZE : Z := 30.

(** ** Machine integers and byte buffers *)

Definition u32 (x : Z) : Z := x mod 4294967296.

(** [cpu_to_le16]: the two bytes of a 16-bit value, low byte first. *)
Definition cpu_to_le16 (x : Z) : list Z := [x mod 256; (x / 256) mod 256].

(** [le16_to_cpu] of the [__le16] stored at byte offset [off] of [buf]. *)
Definition le16_at (buf : list Z) (off : nat) : Z :=
  nth off buf 0 + 256 * nth (S off) buf 0.

(** [memcpy(buf + off, src, length src)]. *)
Definition memcpy_at (buf : list Z) (off : nat) (src : list Z) : list Z :=
  firstn off buf ++ src ++ skipn (off + length src) buf.

(** [memcmp(a, b, n) == 0] on two buffers of [n] bytes. *)
Definition bytes_eqb (a b : list Z) : bool :=
  if list_eq_dec Z.eq_dec a b then true else false.

(** A zero-filled tail bringing [l] to [n] bytes (the bytes [memset] left). *)
Definition pad_to (n : nat) (l : list Z) : list Z :=
  l ++ repeat 0 (n - length l).

(** ** crc16 *)

(** Modelled from the spec: [crc16] is the kernel's lib/crc16.c, which is not
    among the driver's sources.  The spec names it the standard table-driven
    [crc16] routine, reflected, whose residue over a structure followed by
    its transmitted checksum is zero.  The table of that routine is the
    reflected polynomial 0xA001 applied bit by bit, which is what is written
    here. *)
Definition crc16_shift (crc : Z) : Z :=
  if Z.testbit crc 0 then Z.lxor (Z.shiftr crc 1) 0xA001 else Z.shiftr crc 1.

Definition crc16_byte (crc data : Z) : Z :=
  Nat.iter 8 crc16_shift (Z.lxor crc (Z.land data 255)).

Definition crc16 (crc : Z) (buffer : list Z) : Z :=
  fold_left crc16_byte buffer crc.

(** A structure followed by the crc over it, little-endian: what the sender
    of a message or packet puts on the wire (lines 955-958). *)
Definition with_crc (l : list Z) : list Z := l ++ cpu_to_le16 (crc16 0 l).

(** ** Driver state: [struct applespi_data] (lines 358-409)

    Only the fields the protocol engine reads or writes.  [rx_buffer] and
    [tx_status] are filled by the transfers and are given to the completion
    handlers as arguments. *)

Record applespi_data : Type := mk_applespi {
  tx_buffer : list Z;
  msg_buf : list Z;
  saved_msg_len : Z;
  want_init_cmd : bool;
  want_cl_led_on : bool;
  have_cl_led_on : bool;
  want_bl_level : Z;
  have_bl_level : Z;
  cmd_msg_cntr : Z;
  cmd_msg_queued : bool;
  cmd_log_mask : Z;
  drain : bool;
  read_active : bool;
  write_active : bool
}.

Definition set_tx_buffer (v : list Z) (a : applespi_data) : applespi_data :=
  mk_applespi v (msg_buf a) (saved_msg_len a) (want_init_cmd a)
    (want_cl_led_on a) (have_cl_led_on a) (want_bl_level a) (have_bl_level a)
    (cmd_msg_cntr a) (cmd_msg_queued a) (cmd_log_mask a) (drain a)
    (read_active a) (write_active a).

Definition set_msg_buf (v : list Z) (a : applespi_data) : applespi_data :=
  mk_applespi (tx_buffer a) v (saved_msg_len a) (want_init_cmd a)
    (want_cl_led_on a) (have_cl_led_on a) (want_bl_level a) (have_bl_level a)
    (cmd_msg_cntr a) (cmd_msg_queued a) (cmd_log_mask a) (drain a)
    (read_active a) (write_active a).

Definition set_saved_msg_len (v : Z) (a : applespi_data) : applespi_data :=
  mk_applespi (tx_buffer a) (msg_buf a) v (want_init_cmd a)
    (want_cl_led_on a) (have_cl_led_on a) (want_bl_level a) (have_bl_level a)
    (cmd_msg_cntr a) (cmd_msg_queued a) (cmd_log_mask a) (drain a)
    (read_active a) (write_active a).

Definition set_want_init_cmd (v : bool) (a : applespi_data) : applespi_data :=
  mk_applespi (tx_buffer a) (msg_buf a) (saved_msg_len a) v
    (want_cl_led_on a) (have_cl_led_on a) (want_bl_level a) (have_bl_level a)
    (cmd_msg_cntr a) (cmd_msg_queued a) (cmd_log_mask a) (drain a)
    (read_active a) (write_active a).

Definition set_want_cl_led_on (v : bool) (a : applespi_data) : applespi_data :=
  mk_applespi (tx_buffer a) (msg_buf a) (saved_msg_len a) (want_init_cmd a)
    v (have_cl_led_on a) (want_bl_level a) (have_bl_level a)
    (cmd_msg_cntr a) (cmd_msg_queued a) (cmd_log_mask a) (drain a)
    (read_active a) (write_active a).

Definition set_have_cl_led_on (v : bool) (a : applespi_data) : applespi_data :=
  mk_applespi (tx_buffer a) (msg_buf a) (saved_msg_len a) (want_init_cmd a)
    (want_cl_led_on a) v (want_bl_level a) (have_bl_level a)
    (cmd_msg_cntr a) (cmd_msg_queued a) (cmd_log_mask a) (drain a)
    (read_active a) (write_active a).

Definition set_want_bl_level (v : Z) (a : applespi_data) : applespi_data :=
  mk_applespi (tx_buffer a) (msg_buf a) (saved_msg_len a) (want_init_cmd a)
    (want_cl_led_on a) (have_cl_led_on a) v (have_bl_level a)
    (cmd_msg_cntr a) (cmd_msg_queued a) (cmd_log_mask a) (drain a)
    (read_active a) (write_active a).

Definition set_have_bl_level (v : Z) (a : applespi_data) : applespi_data :=
  mk_applespi (tx_buffer a) (msg_buf a) (saved_msg_len a) (want_init_cmd a)
    (want_cl_led_on a) (have_cl_led_on a) (want_bl_level a) v
    (cmd_msg_cntr a) (cmd_msg_queued a) (cmd_log_mask a) (drain a)
    (read_active a) (write_active a).

Definition set_cmd_msg_cntr (v : Z) (a : applespi_data) : applespi_data :=
  mk_applespi (tx_buffer a) (msg_buf a) (saved_msg_len a) (want_init_cmd a)
    (want_cl_led_on a) (have_cl_led_on a) (want_bl_level a) (have_bl_level a)
    v (cmd_msg_queued a) (cmd_log_mask a) (drain a)
    (read_active a) (write_active a).

Definition set_cmd_msg_queued (v : bool) (a : applespi_data) : applespi_data :=
  mk_applespi (tx_buffer a) (msg_buf a) (saved_msg_len a) (want_init_cmd a)
    (want_cl_led_on a) (have_cl_led_on a) (want_bl_level a) (have_bl_level a)
    (cmd_msg_cntr a) v (cmd_log_mask a) (drain a)
    (read_active a) (write_active a).

Definition set_cmd_log_mask (v : Z) (a : applespi_data) : applespi_data :=
  mk_applespi (tx_buffer a) (msg_buf a) (saved_msg_len a) (want_init_cmd a)
    (want_cl_led_on a) (have_cl_led_on a) (want_bl_level a) (have_bl_level a)
    (cmd_msg_cntr a) (cmd_msg_queued a) v (drain a)
    (read_active a) (write_active a).

Definition set_drain (v : bool) (a : applespi_data) : applespi_data :=
  mk_applespi (tx_buffer a) (msg_buf a) (saved_msg_len a) (want_init_cmd a)
    (want_cl_led_on a) (have_cl_led_on a) (want_bl_level a) (have_bl_level a)
    (cmd_msg_cntr a) (cmd_msg_queued a) (cmd_log_mask a) v
    (read_active a) (write_active a).

Definition set_read_active (v : bool) (a : applespi_data) : applespi_data :=
  mk_applespi (tx_buffer a) (msg_buf a) (saved_msg_len a) (want_init_cmd a)
    (want_cl_led_on a) (have_cl_led_on a) (want_bl_level a) (have_bl_level a)
    (cmd_msg_cntr a) (cmd_msg_queued a) (cmd_log_mask a) (drain a)
    v (write_active a).

Definition set_write_active (v : bool) (a : applespi_data) : applespi_data :=
  mk_applespi (tx_buffer a) (msg_buf a) (saved_msg_len a) (want_init_cmd a)
    (want_cl_led_on a) (have_cl_led_on a) (want_bl_level a) (have_bl_level a)
    (cmd_msg_cntr a) (cmd_msg_queued a) (cmd_log_mask a) (drain a)
    (read_active a) v.

(** ** What the driver asks of its environment *)

(** [SpiAsyncWrite p sts]: [applespi_async] was called on [wr_m] with
    [tx_buffer] holding [p], and [spi_async] answered [sts] (0: the message
    is queued on the bus).  [SpiAsyncRead sts]: the same on [rd_m].  The
    three handlers get the verified message. *)
Inductive effect : Type :=
| SpiAsyncWrite (packet : list Z) (sts : Z)
| SpiAsyncRead (sts : Z)
| WakeUpAll
| HandleKeyboardEvent (message : list Z)
| ReportTpState (message : list Z)
| HandleCmdResponse (message : list Z)
| AcpiFinishGpe.

(** A write, respectively a read, that the bus accepted. *)
Definition write_submitted (e : effect) : bool :=
  match e with SpiAsyncWrite _ sts => sts =? 0 | _ => false end.

Definition read_submitted (e : effect) : bool :=
  match e with SpiAsyncRead sts => sts =? 0 | _ => false end.

(** ** The command path: [applespi_send_cmd_msg] (lines 873-973) *)

(** What one arm of the if-chain of lines 894-943 leaves in its locals:
    [device], [message->type] and the bytes of the command struct before
    its [crc_16] ([msg_len] is their number plus two). *)
Record command : Type := mk_command {
  cmd_device : Z;
  cmd_type : Z;
  cmd_body : list Z
}.

Definition cmd_msg_len (c : command) : Z := Z.of_nat (length (cmd_body c)) + 2.

(** Lines 894-943: the pending change that is served, with the state as the
    chosen arm leaves it; [None] is the final [else] ("everything's
    up-to-date"). *)
Definition applespi_next_cmd (a : applespi_data)
  : option (applespi_data * command) :=
  if want_init_cmd a then
    let a1 := set_cmd_log_mask DBG_CMD_TP_INI (set_want_init_cmd false a) in
    Some (a1, mk_command PACKET_DEV_TPAD 0x0252 (cpu_to_le16 0x0102))
  else if negb (Bool.eqb (want_cl_led_on a) (have_cl_led_on a)) then
    let a1 := set_cmd_log_mask DBG_CMD_CL
                (set_have_cl_led_on (want_cl_led_on a) a) in
    Some (a1, mk_command PACKET_DEV_KEYB 0x0151
                [0x01; if have_cl_led_on a1 then 2 else 0])
  else if negb (want_bl_level a =? have_bl_level a) then
    let a1 := set_cmd_log_mask DBG_CMD_BL
                (set_have_bl_level (want_bl_level a) a) in
    Some (a1, mk_command PACKET_DEV_KEYB 0xB051
                (cpu_to_le16 0x01B0 ++ cpu_to_le16 (have_bl_level a1) ++
                 cpu_to_le16 (if have_bl_level a1 >? 0 then 0x01F4
                              else 0x0001)))
  else None.

(** Lines 950-955: the [struct message] header, the command struct and the
    message crc over all that precedes it. *)
Definition encode_message (c : command) (counter : Z) : list Z :=
  with_crc
    (cpu_to_le16 (cmd_type c) ++ [0; counter] ++
     cpu_to_le16 (cmd_msg_len c - 2) ++ cpu_to_le16 (cmd_msg_len c - 2) ++
     cmd_body c).

(** Lines 945-958 on the packet zeroed at line 891: flags, device, offset 0,
    remaining 0, length, the 246-byte data area and the packet crc over the
    254 bytes before it. *)
Definition encode_packet (c : command) (counter : Z) : list Z :=
  with_crc
    ([PACKET_TYPE_WRITE; cmd_device c] ++ cpu_to_le16 0 ++ cpu_to_le16 0 ++
     cpu_to_le16 (MSG_HEADER_SIZE + cmd_msg_len c) ++
     pad_to 246 (encode_message c counter)).

(** [sts] is what [spi_async] returns for this call, when it is reached.
    The result is the new state, the function's return value and what was
    asked of the bus. *)
Definition applespi_send_cmd_msg (a : applespi_data) (sts : Z)
  : applespi_data * Z * list effect :=
  if drain a then (a, 0, [])
  else if cmd_msg_queued a then (a, 0, [])
  else
    let a0 := set_tx_buffer (repeat 0 (Z.to_nat APPLESPI_PACKET_SIZE)) a in
    match applespi_next_cmd a0 with
    | None => (a0, 0, [])
    | Some (a1, c) =>
        let counter := Z.land (cmd_msg_cntr a1) 0xff in
        let a2 := set_cmd_msg_cntr (u32 (cmd_msg_cntr a1 + 1)) a1 in
        let packet := encode_packet c counter in
        let a3 := set_tx_buffer packet a2 in
        if sts =? 0
        then (set_write_active true (set_cmd_msg_queued true a3), sts,
              [SpiAsyncWrite packet sts])
        else (a3, sts, [SpiAsyncWrite packet sts])
    end.

(** [applespi_msg_complete] (lines 831-852). *)
Definition applespi_msg_complete (a : applespi_data)
    (is_write_msg is_read_compl : bool) (sts : Z)
  : applespi_data * list effect :=
  let a1 := if is_read_compl then set_read_active false a else a in
  let a2 := if is_write_msg then set_write_active false a1 else a1 in
  let wake := if drain a2 && negb (write_active a2) then [WakeUpAll] else [] in
  if is_write_msg then
    let '(a3, _, effs) := applespi_send_cmd_msg (set_cmd_msg_queued false a2) sts in
    (a3, wake ++ effs)
  else (a2, wake).

(** [applespi_check_write_status] (lines 624-642); [status] is
    [wr_m.status] and [tx_status] the four status bytes read back. *)
Definition sts_ok : list Z := [0xac; 0x27; 0x68; 0xd5].

Definition applespi_check_write_status (tx_status : list Z) (status : Z) : bool :=
  if status <? 0 then false
  else if negb (bytes_eqb
                  (firstn (Z.to_nat APPLESPI_STATUS_SIZE) tx_status) sts_ok)
  then false
  else true.

(** [applespi_async_write_complete] (lines 854-871). *)
Definition applespi_async_write_complete (a : applespi_data)
    (status : Z) (tx_status : list Z) (sts : Z)
  : applespi_data * list effect :=
  if negb (applespi_check_write_status tx_status status)
  then applespi_msg_complete a true false sts
  else (a, []).

(** [applespi_init] (lines 975-985). *)
Definition applespi_init (a : applespi_data) (sts : Z)
  : applespi_data * list effect :=
  let '(a1, _, effs) := applespi_send_cmd_msg (set_want_init_cmd true a) sts in
  (a1, effs).

(** [applespi_set_capsl_led] (lines 987-1001). *)
Definition applespi_set_capsl_led (a : applespi_data) (capslock_on : bool)
    (sts : Z) : applespi_data * Z * list effect :=
  applespi_send_cmd_msg (set_want_cl_led_on capslock_on a) sts.

(** Lines 1014-1024 of [applespi_set_bl_level]: the level asked of the
    device for the brightness [value] of the LED class ([enum
    led_brightness], an unsigned 32-bit integer; the arithmetic is
    unsigned and division truncates). *)
Definition device_level (value : Z) : Z :=
  if value =? 0 then value
  else u32 (u32 (value * KBD_BL_LEVEL_ADJ) / KBD_BL_LEVEL_SCALE
            + MIN_KBD_BL_LEVEL).

(** [applespi_set_bl_level] (lines 1003-1029). *)
Definition applespi_set_bl_level (a : applespi_data) (value : Z) (sts : Z)
  : applespi_data * list effect :=
  let '(a1, _, effs) :=
    applespi_send_cmd_msg (set_want_bl_level (device_level value) a) sts in
  (a1, effs).

(** ** The read path: [applespi_got_data] (lines 1307-1439) *)

(** [applespi_verify_crc] (lines 1266-1279). *)
Definition applespi_verify_crc (buffer : list Z) : bool :=
  crc16 0 buffer =? 0.

(** The fields of the [struct spi_packet] lying in a receive buffer. *)
Definition pkt_flags (rx : list Z) : Z := nth 0 rx 0.
Definition pkt_device (rx : list Z) : Z := nth 1 rx 0.
Definition pkt_offset (rx : list Z) : Z := le16_at rx 2.
Definition pkt_remaining (rx : list Z) : Z := le16_at rx 4.
Definition pkt_length (rx : list Z) : Z := le16_at rx 6.
Definition pkt_data (rx : list Z) : list Z :=
  firstn (Z.to_nat PACKET_DATA_SIZE) (skipn 8 rx).

(** [message->length] of the [struct message] at the start of [base]. *)
Definition msg_length (base : list Z) : Z := le16_at base 6.

(** [message->touchpad.number_of_fingers]: byte 30 of the touchpad struct,
    which follows the 8-byte header. *)
Definition tp_number_of_fingers (base : list Z) : Z := nth 38 base 0.

(** How the re-assembly of lines 1316-1395 ended for a packet: with one of
    its warnings, waiting for the next packet ([Incomplete], the [return] of
    line 1376), or with a message that passed the length and crc checks and
    goes to its handler ([Complete]). *)
Inductive rx_verdict : Type :=
| PacketCrcMismatch
| InvalidPacketLength
| UnexpectedOffset
| MessageTooLarge
| Incomplete
| InvalidMessageLength
| MessageCrcMismatch
| Complete (message : list Z).

(** Lines 1428-1438, the [cleanup] label. *)
Definition got_data_cleanup (a : applespi_data) (rx : list Z) (sts : Z)
    (v : rx_verdict) (handled : list effect)
  : applespi_data * rx_verdict * list effect :=
  let '(a1, effs) :=
    applespi_msg_complete a (pkt_flags rx =? PACKET_TYPE_WRITE) true sts in
  (a1, v, handled ++ effs).

(** Lines 1397-1426: the handler a verified message goes to.  [base] is
    where [message] points, [msg_len] its length, and [in_msg_buf] tells
    whether that is [msg_buf] (a re-assembled message) or the packet's data
    area; clamping [number_of_fingers] writes into the message where it
    lies.  A touchpad message whose length does not fit its number of
    fingers is dropped with a warning: no handler is called. *)
Definition got_data_handle (a : applespi_data) (rx : list Z) (sts : Z)
    (base : list Z) (msg_len : Z) (in_msg_buf : bool)
  : applespi_data * rx_verdict * list effect :=
  let message := firstn (Z.to_nat msg_len) base in
  if (pkt_flags rx =? PACKET_TYPE_READ) && (pkt_device rx =? PACKET_DEV_KEYB)
  then got_data_cleanup a rx sts (Complete message)
         [HandleKeyboardEvent message]
  else if (pkt_flags rx =? PACKET_TYPE_READ)
          && (pkt_device rx =? PACKET_DEV_TPAD)
  then
    let tp_len := TOUCHPAD_PROTOCOL_SIZE
                  + tp_number_of_fingers base * TP_FINGER_SIZE in
    if negb (msg_length base + 2 =? tp_len)
    then got_data_cleanup a rx sts (Complete message) []
    else if tp_number_of_fingers base >? MAX_FINGERS
    then
      let a1 := if in_msg_buf
                then set_msg_buf (memcpy_at (msg_buf a) 38 [MAX_FINGERS]) a
                else a in
      got_data_cleanup a1 rx sts (Complete message)
        [ReportTpState (memcpy_at message 38 [MAX_FINGERS])]
    else got_data_cleanup a rx sts (Complete message) [ReportTpState message]
  else if pkt_flags rx =? PACKET_TYPE_WRITE
  then got_data_cleanup a rx sts (Complete message)
         [HandleCmdResponse message]
  else got_data_cleanup a rx sts (Complete message) [].

(** Lines 1385-1395: the accumulation is reset, then the message is checked
    against its declared length (in [unsigned int] arithmetic) and its crc. *)
Definition got_data_verify (a : applespi_data) (rx : list Z) (sts : Z)
    (base : list Z) (msg_len : Z) (in_msg_buf : bool)
  : applespi_data * rx_verdict * list effect :=
  let a1 := set_saved_msg_len 0 a in
  if negb (msg_length base =? u32 (msg_len - MSG_HEADER_SIZE - 2))
  then got_data_cleanup a1 rx sts InvalidMessageLength []
  else if negb (applespi_verify_crc (firstn (Z.to_nat msg_len) base))
  then got_data_cleanup a1 rx sts MessageCrcMismatch []
  else got_data_handle a1 rx sts base msg_len in_msg_buf.

(** [rx] is [rx_buffer] as the read transfer filled it; [sts] is what
    [spi_async] answers if the completion goes on to send a command.  Sums
    of [off], [rem], [len] and [saved_msg_len] do not wrap: the first three
    are 16-bit and [saved_msg_len] equals [off] where it is added to. *)
Definition applespi_got_data (a : applespi_data) (rx : list Z) (sts : Z)
  : applespi_data * rx_verdict * list effect :=
  if negb (applespi_verify_crc (firstn (Z.to_nat APPLESPI_PACKET_SIZE) rx))
  then
    if drain a
    then (set_write_active false (set_read_active false a),
          PacketCrcMismatch, [WakeUpAll])
    else (a, PacketCrcMismatch, [])
  else
    let off := pkt_offset rx in
    let rem := pkt_remaining rx in
    let len := pkt_length rx in
    if len >? PACKET_DATA_SIZE
    then got_data_cleanup a rx sts InvalidPacketLength []
    else if (rem >? 0) || (off >? 0) then
      if negb (off =? saved_msg_len a)
      then got_data_cleanup a rx sts UnexpectedOffset []
      else if off + rem >? MAX_PKTS_PER_MSG * APPLESPI_PACKET_SIZE
      then got_data_cleanup a rx sts MessageTooLarge []
      else if off + len >? MAX_PKTS_PER_MSG * APPLESPI_PACKET_SIZE
      then got_data_cleanup a rx sts MessageTooLarge []
      else
        let a1 :=
          set_saved_msg_len (saved_msg_len a + len)
            (set_msg_buf
               (memcpy_at (msg_buf a) (Z.to_nat off)
                  (firstn (Z.to_nat len) (pkt_data rx))) a) in
        if rem >? 0 then (a1, Incomplete, [])
        else got_data_verify a1 rx sts (msg_buf a1) (saved_msg_len a1) true
    else got_data_verify a rx sts (pkt_data rx) len false.

(** [applespi_async_read_complete] (lines 1441-1452); [status] is
    [rd_m.status]. *)
Definition applespi_async_read_complete (a : applespi_data) (status : Z)
    (rx : list Z) (sts : Z) : applespi_data * list effect :=
  if status <? 0 then (a, [AcpiFinishGpe])
  else
    let '(a1, _, effs) := applespi_got_data a rx sts in
    (a1, effs ++ [AcpiFinishGpe]).

(** [applespi_notify] (lines 1454-1475), the handler of the device's GPE. *)
Definition applespi_notify (a : applespi_data) (sts : Z)
  : applespi_data * list effect :=
  if negb (sts =? 0) then (a, [SpiAsyncRead sts])
  else (set_read_active true a, [SpiAsyncRead sts]).

(** ** Suspend and resume *)

(** Line 1750 of [applespi_suspend] (and 1716 of [applespi_remove]); the
    caller then sleeps on [drain_complete] until [write_active] is false
    and, after the GPE is disabled, until [read_active] is false. *)
Definition applespi_begin_drain (a : applespi_data) : applespi_data :=
  set_drain true a.

(** Lines 1781-1787 of [applespi_resume]. *)
Definition resume_reset (a : applespi_data) : applespi_data :=
  set_write_active false
    (set_read_active false
       (set_cmd_msg_queued false
          (set_have_bl_level 0
             (set_have_cl_led_on false
                (set_drain false a))))).

(** [applespi_resume] (lines 1775-1805); enabling the GPE and the SPI
    interface touches nothing of this state. *)
Definition applespi_resume (a : applespi_data) (sts : Z)
  : applespi_data * list effect :=
  applespi_init (resume_reset a) sts.

(** ** The driver as a transition system

    The entry points that run while the device is in operation, each with
    what the environment supplies to it. *)
Inductive event : Type :=
| Notify (sts : Z)
| ReadComplete (status : Z) (rx : list Z) (sts : Z)
| WriteComplete (status : Z) (tx_status : list Z) (sts : Z)
| Init (sts : Z)
| SetCapslLed (capslock_on : bool) (sts : Z)
| SetBlLevel (value : Z) (sts : Z).

Definition step (a : applespi_data) (e : event)
  : applespi_data * list effect :=
  match e with
  | Notify sts => applespi_notify a sts
  | ReadComplete status rx sts => applespi_async_read_complete a status rx sts
  | WriteComplete status tx_status sts =>
      applespi_async_write_complete a status tx_status sts
  | Init sts => applespi_init a sts
  | SetCapslLed on sts =>
      let '(a1, _, effs) := applespi_set_capsl_led a on sts in (a1, effs)
  | SetBlLevel value sts => applespi_set_bl_level a value sts
  end.

Fixpoint run (a : applespi_data) (es : list event)
  : applespi_data * list effect :=
  match es with
  | [] => (a, [])
  | e :: es' =>
      let '(a1, effs1) := step a e in
      let '(a2, effs2) := run a1 es' in
      (a2, effs1 ++ effs2)
  end.

(** A state as [applespi_probe] leaves it before the first command: the
    fields zero ([devm_kzalloc]) and the buffers allocated, their contents
    (which [devm_kmalloc] leaves unspecified) taken to be zero. *)
Definition applespi_zero : applespi_data :=
  mk_applespi (repeat 0 256) (repeat 0 512) 0 false false false 0 0 0
    false 0 false false false.

(** ** Observations used in the statements *)

(** The [type] and [counter] of the message a packet carries in its data
    area (which starts at byte 8). *)
Definition pkt_msg_type (p : list Z) : Z := le16_at p 8.
Definition pkt_msg_counter (p : list Z) : Z := nth 11 p 0.

(** The writes, and reads, among [effs] that the bus accepted. *)
Definition writes_submitted (effs : list effect) : list effect :=
  filter write_submitted effs.

Definition reads_submitted (effs : list effect) : list effect :=
  filter read_submitted effs.

(** The events at which [applespi_msg_complete] runs with [is_write_msg]
    true: the completion of a write that failed (line 870), and a received
    packet carrying the write flag that reaches [cleanup] (line 1437), which
    is how the response to a command is routed. *)
Definition write_lifecycle_end (a : applespi_data) (e : event) : bool :=
  match e with
  | WriteComplete status tx_status _ =>
      negb (applespi_check_write_status tx_status status)
  | ReadComplete status rx sts =>
      if status <? 0 then false
      else
        match applespi_got_data a rx sts with
        | (_, PacketCrcMismatch, _) => false
        | (_, Incomplete, _) => false
        | _ => pkt_flags rx =? PACKET_TYPE_WRITE
        end
  | _ => false
  end.

(** The write exchanges under way after the events [es], counted from
    outside the driver: [n] before them, one less at each event that ends a
    write exchange, one more for each write the bus accepts. *)
Fixpoint outstanding_writes (a : applespi_data) (n : nat) (es : list event)
  : nat :=
  match es with
  | [] => n
  | e :: es' =>
      let '(a', effs) := step a e in
      outstanding_writes a'
        ((if write_lifecycle_end a e then Nat.pred n else n)
         + length (writes_submitted effs))%nat
        es'
  end.

(** The wire framing of [struct message] and [struct spi_packet] (lines
    284-298 and 328-336), as the device applies it to what it sends: a message with a
    [body] of payload bytes, and one packet carrying [payload] at [off] with
    [rem] bytes to follow. *)
Definition mk_message (type counter rsp_buf_len : Z) (body : list Z)
  : list Z :=
  with_crc
    (cpu_to_le16 type ++ [0; counter] ++ cpu_to_le16 rsp_buf_len ++
     cpu_to_le16 (Z.of_nat (length body)) ++ body).

Definition mk_packet (flags device off rem : Z) (payload : list Z)
  : list Z :=
  with_crc
    ([flags; device] ++ cpu_to_le16 off ++ cpu_to_le16 rem ++
     cpu_to_le16 (Z.of_nat (length payload)) ++ pad_to 246 payload).

(** The response the device sends to a command: an empty message of the
    command's type, in a packet that carries the write flag. *)
Definition ack_packet (device type counter rsp_buf_len : Z) : list Z :=
  mk_packet PACKET_TYPE_WRITE device 0 0
    (mk_message type counter rsp_buf_len []).

(** The backlight mapping as the specification words it:
    [0 if user_value == 0, else round(user_value * (MAX_DEV - MIN_DEV) / 255)
    + MIN_DEV], with [round] to the nearest integer. *)
Definition spec_round (q : Q) : Z := Qfloor (q + (1 # 2))%Q.

Definition spec_device_level (user_value : Z) : Z :=
  if user_value =? 0 then 0
  else spec_round (inject_Z user_value
                   * inject_Z (MAX_KBD_BL_LEVEL - MIN_KBD_BL_LEVEL)
                   / inject_Z 255)%Q
       + MIN_KBD_BL_LEVEL.

(** The kinds of command, and the one the specification's priority order
    picks: init first, then caps lock, then backlight. *)
Inductive cmd_kind : Type := CmdInit | CmdCapsl | CmdBl.

Definition spec_next_kind (a : applespi_data) : option cmd_kind :=
  if want_init_cmd a then Some CmdInit
  else if negb (Bool.eqb (want_cl_led_on a) (have_cl_led_on a))
  then Some CmdCapsl
  else if negb (want_bl_level a =? have_bl_level a) then Some CmdBl
  else None.

(** The kind of command a packet on the wire carries, read off its device
    and message type bytes. *)
Definition packet_kind (p : list Z) : option cmd_kind :=
  if (pkt_device p =? PACKET_DEV_TPAD) && (pkt_msg_type p =? 0x0252)
  then Some CmdInit
  else if (pkt_device p =? PACKET_DEV_KEYB) && (pkt_msg_type p =? 0x0151)
  then Some CmdCapsl
  else if (pkt_device p =? PACKET_DEV_KEYB) && (pkt_msg_type p =? 0xB051)
  then Some CmdBl
  else None.

(** The state with the request of kind [k] marked as served: what is still
    pending in it is what was pending in [a] apart from [k]. *)
Definition mark_served (k : cmd_kind) (a : applespi_data) : applespi_data :=
  match k with
  | CmdInit => set_want_init_cmd false a
  | CmdCapsl => set_have_cl_led_on (want_cl_led_on a) a
  | CmdBl => set_have_bl_level (want_bl_level a) a
  end.

(** The command and the log mask of each kind, as the arms of the if-chain
    set them (the caps lock and backlight commands carry the wanted
    value). *)
Definition command_of (k : cmd_kind) (a : applespi_data) : command :=
  match k with
  | CmdInit => mk_command PACKET_DEV_TPAD 0x0252 (cpu_to_le16 0x0102)
  | CmdCapsl =>
      mk_command PACKET_DEV_KEYB 0x0151
        [0x01; if want_cl_led_on a then 2 else 0]
  | CmdBl =>
      mk_command PACKET_DEV_KEYB 0xB051
        (cpu_to_le16 0x01B0 ++ cpu_to_le16 (want_bl_level a) ++
         cpu_to_le16 (if want_bl_level a >? 0 then 0x01F4 else 0x0001))
  end.

Definition log_mask_of (k : cmd_kind) : Z :=
  match k with
  | CmdInit => DBG_CMD_TP_INI
  | CmdCapsl => DBG_CMD_CL
  | CmdBl => DBG_CMD_BL
  end.

(** The effects that hand a message to one of the three handlers. *)
Definition is_handler_effect (e : effect) : bool :=
  match e with
  | HandleKeyboardEvent _ | ReportTpState _ | HandleCmdResponse _ => true
  | _ => false
  end.

(** [a0] differs from [a] at most in the re-assembly fields [msg_buf] and
    [saved_msg_len]. *)
Definition same_but_reassembly (a0 a : applespi_data) : Prop :=
  a0 = set_saved_msg_len (saved_msg_len a0) (set_msg_buf (msg_buf a0) a).

(** The accepted writes of a trace, each as the kind and the counter of the
    message it carries. *)
Definition write_log (effs : list effect) : list (option cmd_kind * Z) :=
  flat_map (fun e => match e with
                     | SpiAsyncWrite p sts =>
                         if sts =? 0
                         then [(packet_kind p, pkt_msg_counter p)] else []
                     | _ => []
                     end) effs.

(** The request that is pending again after a resume: caps lock if the LED
    is wanted on, else the backlight if a level other than 0 is wanted. *)
Definition resent_after_resume (a : applespi_data) : option cmd_kind :=
  if want_cl_led_on a then Some CmdCapsl
  else if negb (want_bl_level a =? 0) then Some CmdBl
  else None.

(** [p] is a packet with a right crc that carries [payload] at offset
    [off], with [rem] bytes to follow. *)
Definition carries (p : list Z) (off rem : Z) (payload : list Z) : Prop :=
  applespi_verify_crc (firstn (Z.to_nat APPLESPI_PACKET_SIZE) p) = true /\
  pkt_offset p = off /\ pkt_remaining p = rem /\
  pkt_length p = Z.of_nat (length payload) /\
  firstn (length payload) (pkt_data p) = payload.

(** [msg] is a message that passes the two checks of lines 1388-1395. *)
Definition valid_message (msg : list Z) : Prop :=
  msg_length msg = Z.of_nat (length msg) - MSG_HEADER_SIZE - 2 /\
  applespi_verify_crc msg = true.

(** The state and the verdict of [applespi_got_data] (no command is
    pending in the examples, so what [spi_async] would answer is
    immaterial). *)
Definition rx_state (a : applespi_data) (rx : list Z) : applespi_data :=
  fst (fst (applespi_got_data a rx 0)).

Definition rx_verdict_of (a : applespi_data) (rx : list Z) : rx_verdict :=
  snd (fst (applespi_got_data a rx 0)).

(** Two 300-byte messages [msgA] and [msgB] of the keyboard, each sent in
    two packets of 246 and 54 bytes.  [msgB] differs from [msgA] in three
    bytes of the first packet (a difference the crc does not see) and in the
    second packet.  [stray] is a packet with a right crc and an offset that
    fits no message under way; [oversized] one whose length field exceeds
    the data area; [overlong] one that announces more bytes than a message
    may have. *)
Definition msgA : list Z :=
  mk_message 0x0110 7 0 (map (fun i => Z.of_nat i mod 251) (seq 0 290)).

Definition msgB : list Z :=
  with_crc
    (memcpy_at (firstn 246 msgA) 100
       (map (fun '(x, y) => Z.lxor x y)
          (combine (firstn 3 (skipn 100 msgA)) [1; 0xC1; 0xC0]))
     ++ map (fun i => Z.of_nat (3 * i) mod 256) (seq 0 52)).

Definition kbd_frame (off rem : Z) (payload : list Z) : list Z :=
  mk_packet PACKET_TYPE_READ PACKET_DEV_KEYB off rem payload.

Definition frameA1 : list Z := kbd_frame 0 54 (firstn 246 msgA).
Definition frameA2 : list Z := kbd_frame 246 0 (skipn 246 msgA).
Definition frameB1 : list Z := kbd_frame 0 54 (firstn 246 msgB).
Definition frameB2 : list Z := kbd_frame 246 0 (skipn 246 msgB).
Definition stray : list Z := kbd_frame 100 0 [1; 2; 3].
Definition overlong : list Z := kbd_frame 246 400 [9].
Definition oversized : list Z :=
  with_crc ([PACKET_TYPE_READ; PACKET_DEV_KEYB] ++ cpu_to_le16 0 ++
            cpu_to_le16 0 ++ cpu_to_le16 300 ++ repeat 0 246).

(** A packet whose crc is wrong: all bytes zero but the last. *)
Definition corrupt_packet : list Z := repeat 0 255 ++ [1].

(** A state with an init, a caps lock change and a backlight change all
    pending and no exchange under way. *)
Definition all_pending : applespi_data :=
  set_want_bl_level 100
    (set_want_cl_led_on true (set_want_init_cmd true applespi_zero)).

(** [tx_buffer] after the [memset] of line 891. *)
Definition zero_packet : list Z := repeat 0 (Z.to_nat APPLESPI_PACKET_SIZE).

(** The handler calls among the effects, in their order. *)
Definition handler_calls (effs : list effect) : list effect :=
  filter is_handler_effect effs.

(** A packet with the write flag that continues a message at offset 100
    where nothing is saved: it passes the packet crc and is rejected for its
    offset. *)
Definition stray_response : list Z :=
  mk_packet PACKET_TYPE_WRITE PACKET_DEV_KEYB 100 0 [1; 2; 3].

(** The caps lock command accepted by the bus and under way, with a change
    of the backlight pending behind it. *)
Definition capsl_under_way : applespi_data :=
  fst (step (set_want_bl_level 100 applespi_zero) (SetCapslLed true 0)).

(** The init command accepted by the bus and under way when a suspend
    starts to drain. *)
Definition init_under_way_draining : applespi_data :=
  applespi_begin_drain (fst (step applespi_zero (Init 0))).

(** A keyboard report (message type 0x0110: modifiers, six key codes, the
    fn state) with the key A held, in one packet. *)
Definition keyboard_report : list Z :=
  mk_message 0x0110 3 0 [0; 0; 0; 4; 0; 0; 0; 0; 0; 0].

Definition keyboard_frame : list Z := kbd_frame 0 0 keyboard_report.

(** The packets [ps] carry the chunks [chunks] of a message one after the
    other from offset [off], each announcing as remaining what the later
    chunks hold. *)
Fixpoint carried_in_order (off : Z) (chunks ps : list (list Z)) : Prop :=
  match chunks, ps with
  | [], [] => True
  | c :: cs, p :: ps' =>
      carries p off (Z.of_nat (length (concat cs))) c /\
      carried_in_order (off + Z.of_nat (length c)) cs ps'
  | _, _ => False
  end.

(** The message [msg], which arrived with the packet [rx] as its last or
    only packet, went to its handler as it is, and no other handler was
    called: the keyboard handler for a read packet of the keyboard, the
    touchpad handler for a read packet of the touchpad whose message has the
    length of its at most [MAX_FINGERS] fingers, the command-response
    handler for a packet with the write flag. *)
Definition delivered_to_handler (rx msg : list Z) (effs : list effect)
  : Prop :=
  (pkt_flags rx = PACKET_TYPE_READ -> pkt_device rx = PACKET_DEV_KEYB ->
   handler_calls effs = [HandleKeyboardEvent msg]) /\
  (pkt_flags rx = PACKET_TYPE_READ -> pkt_device rx = PACKET_DEV_TPAD ->
   msg_length msg + 2
   = TOUCHPAD_PROTOCOL_SIZE + tp_number_of_fingers msg * TP_FINGER_SIZE ->
   tp_number_of_fingers msg <= MAX_FINGERS ->
   handler_calls effs = [ReportTpState msg]) /\
  (pkt_flags rx = PACKET_TYPE_WRITE ->
   handler_calls effs = [HandleCmdResponse msg]).

(** The packets [ps] received one after the other: the state they leave,
    their verdicts and all their effects. *)
Fixpoint rx_run (a : applespi_data) (ps : list (list Z)) (sts : Z)
  : applespi_data * list rx_verdict * list effect :=
  match ps with
  | [] => (a, [], [])
  | p :: ps' =>
      let '(a1, v, effs) := applespi_got_data a p sts in
      let '(a2, vs, effs') := rx_run a1 ps' sts in
      (a2, v :: vs, effs ++ effs')
  end.

(** A message of 500 bytes in three chunks of 200, 200 and 100 bytes. *)
Definition long_message : list Z :=
  mk_message 0x0110 9 0 (map (fun i => Z.of_nat i mod 253) (seq 0 490)).

Definition long_chunks : list (list Z) :=
  [firstn 200 long_message; firstn 200 (skipn 200 long_message);
   skipn 400 long_message].

Definition long_frames : list (list Z) :=
  [kbd_frame 0 300 (firstn 200 long_message);
   kbd_frame 200 100 (firstn 200 (skipn 200 long_message));
   kbd_frame 400 0 (skipn 400 long_message)].

(** Every element of [l] is a byte. *)
Definition bytes_in_range (l : list Z) : Prop :=
  Forall (fun b => 0 <= b < 256) l.

(** The buffers have the sizes [applespi_probe] allocates (lines 1504-1512),
    the saved length lies within [msg_buf], and [msg_buf] holds bytes. *)
Definition buffers_ok (a : applespi_data) : Prop :=
  length (tx_buffer a) = 256%nat /\
  length (msg_buf a) = 512%nat /\
  0 <= saved_msg_len a <= 512 /\
  bytes_in_range (msg_buf a).

(** What a read transfer brings is [APPLESPI_PACKET_SIZE] bytes. *)
Definition event_ok (e : event) : Prop :=
  match e with
  | ReadComplete _ rx _ => length rx = 256%nat /\ bytes_in_range rx
  | _ => True
  end.

(** What a handler may rely on in the message it is given: the keyboard and
    command-response handlers get a message that passed the length and crc
    checks; [report_tp_state] gets a number of fingers of at most
    [MAX_FINGERS], all of whose finger records lie within the message. *)
Definition handler_input_ok (e : effect) : Prop :=
  match e with
  | HandleKeyboardEvent m | HandleCmdResponse m =>
      valid_message m /\ 10 <= Z.of_nat (length m) <= 512
  | ReportTpState m =>
      0 <= tp_number_of_fingers m <= MAX_FINGERS /\
      MSG_HEADER_SIZE + TOUCHPAD_PROTOCOL_SIZE
      + tp_number_of_fingers m * TP_FINGER_SIZE <= Z.of_nat (length m) <= 512
  | _ => True
  end.

(** An event sequence for the examples: a command, then a message in two
    packets. *)
Definition sample_events : list event :=
  [Init 0; ReadComplete 0 frameA1 0; ReadComplete 0 frameA2 0].

(** A touchpad report that announces 12 fingers (one more than
    [MAX_FINGERS]), of the length that goes with 12 fingers, in two
    packets. *)
Definition tp_report : list Z :=
  mk_message 0x0210 1 0
    (memcpy_at (repeat 0 406) 30 [12]).

Definition tp_frame1 : list Z :=
  mk_packet PACKET_TYPE_READ PACKET_DEV_TPAD 0 170 (firstn 246 tp_report).

Definition tp_frame2 : list Z :=
  mk_packet PACKET_TYPE_READ PACKET_DEV_TPAD 246 0 (skipn 246 tp_report).

(** The [level] field of the backlight command and the [led] field of the
    caps lock command in a packet: the command struct starts at byte 16,
    after the packet and message headers. *)
Definition pkt_bl_level (p : list Z) : Z := le16_at p 18.
Definition pkt_capsl_led (p : list Z) : Z := nth 17 p 0.

(** The counters of the command messages handed to the bus, accepted or
    not, in the order of the trace. *)
Definition attempted_counters (effs : list effect) : list Z :=
  flat_map (fun e => match e with
                     | SpiAsyncWrite p _ => [pkt_msg_counter p]
                     | _ => []
                     end) effs.

(** The number of requests that are pending: init, caps lock, backlight. *)
Definition pending_count (a : applespi_data) : nat :=
  (Nat.b2n (want_init_cmd a)
   + Nat.b2n (negb (Bool.eqb (want_cl_led_on a) (have_cl_led_on a)))
   + Nat.b2n (negb (want_bl_level a =? have_bl_level a)%Z))%nat.

(** The events that ask for a command. *)
Definition is_request (e : event) : bool :=
  match e with
  | Init _ | SetCapslLed _ _ | SetBlLevel _ _ => true
  | _ => false
  end.

(** ** Key codes and translation (lines 82-83, 117, 411-473, 1137-1177) *)

Definition MAX_ROLLOVER : Z := 6.
Definition MAX_MODIFIERS : Z := 8.
Definition APPLE_FLAG_FKEY : Z := 0x01.

(** [struct applespi_key_translation]. *)
Record applespi_key_translation : Type := mk_key_translation
  { from : Z; to : Z; flags : Z }.

(** The tables of lines 411-473 and the two codes the handlers report by
    name.  Their entries are [KEY_*] and [BTN_*] constants of
    linux/input-event-codes.h, which is not among the sources here, so the
    functions below take the tables as a parameter and what is proved of them
    holds whatever the codes are.  [applespi_scancodes] (146 entries in the
    source) and [applespi_controlcodes] ([MAX_MODIFIERS] entries) are the
    arrays as lists; a translation table is the list of its entries before
    the terminating [{ }]. *)
Record key_tables : Type := mk_key_tables
  { applespi_scancodes : list Z;
    applespi_controlcodes : list Z;
    applespi_fn_codes : list applespi_key_translation;
    apple_iso_keyboard : list applespi_key_translation;
    KEY_FN : Z;
    BTN_LEFT : Z }.

(** [applespi_find_translation] (lines 1137-1147): the first entry for [key]
    before the terminator, the entry whose [from] is 0; the end of the list
    is the terminator of the table. *)
Fixpoint applespi_find_translation (table : list applespi_key_translation)
    (key : Z) : option applespi_key_translation :=
  match table with
  | [] => None
  | trans :: rest =>
      if from trans =? 0 then None
      else if from trans =? key then Some trans
      else applespi_find_translation rest key
  end.

(** [applespi_code_to_key] (lines 1149-1177), with the module parameters
    [fnmode] and [iso_layout] as arguments.  The function indexes
    [applespi_scancodes] with [code] without a check of its own: the result
    is [None] when [code] lies outside the table. *)
Definition applespi_code_to_key (kt : key_tables) (fnmode iso_layout : Z)
    (code fn_pressed : Z) : option Z :=
  match nth_error (applespi_scancodes kt) (Z.to_nat code) with
  | None => None
  | Some key0 =>
      let key1 :=
        if negb (fnmode =? 0) then
          match applespi_find_translation (applespi_fn_codes kt) key0 with
          | Some trans =>
              let do_translate :=
                if negb (Z.land (flags trans) APPLE_FLAG_FKEY =? 0)
                then ((fnmode =? 2) && negb (fn_pressed =? 0))
                     || ((fnmode =? 1) && (fn_pressed =? 0))
                else negb (fn_pressed =? 0) in
              if do_translate then to trans else key0
          | None => key0
          end
        else key0 in
      let key2 :=
        if negb (iso_layout =? 0) then
          match applespi_find_translation (apple_iso_keyboard kt) key1 with
          | Some trans => to trans
          | None => key1
          end
        else key1 in
      Some key2
  end.

(** ** Input reporting (lines 1046-1247) *)

(** [struct input_mt_pos] of linux/input/mt.h: two [s16]. *)
Record input_mt_pos : Type := mk_input_mt_pos { pos_x : Z; pos_y : Z }.

Inductive abs_axis : Type :=
| ABS_MT_TOUCH_MAJOR
| ABS_MT_TOUCH_MINOR
| ABS_MT_WIDTH_MAJOR
| ABS_MT_WIDTH_MINOR
| ABS_MT_ORIENTATION
| ABS_MT_POSITION_X
| ABS_MT_POSITION_Y.

(** What the handlers ask of the input layer, in the order of the calls. *)
Inductive input_request : Type :=
| InputReportKey (code value : Z)
| InputSync
| InputMtAssignSlots (pos : list input_mt_pos)
| InputMtSlot (slot : Z)
| InputMtReportSlotState (active : bool)
| InputReportAbs (axis : abs_axis) (value : Z)
| InputMtSyncFrame.

(** *** The keyboard handler (lines 1179-1247) *)

(** The fields of [struct keyboard_protocol] (lines 149-156) the handler
    reads; [keys_pressed] has [MAX_ROLLOVER] bytes. *)
Record keyboard_protocol : Type := mk_keyboard_protocol
  { modifiers : Z; keys_pressed : list Z; fn_pressed : Z }.

(** The fields of [struct applespi_data] (lines 373-375) the handler keeps
    from one report to the next; the two arrays have [MAX_ROLLOVER] bytes. *)
Record keyboard_state : Type := mk_keyboard_state
  { last_keys_pressed : list Z;
    last_keys_fn_pressed : list Z;
    last_fn_pressed : Z }.

(** The inner loop of lines 1190-1196. *)
Definition still_pressed (kp : keyboard_protocol) (code : Z) : bool :=
  existsb (fun j => code =? nth j (keys_pressed kp) 0)
    (seq 0 (Z.to_nat MAX_ROLLOVER)).

(** One turn of the loop over the released keys (lines 1188-1205): the
    array [last_keys_fn_pressed] and the requests so far go in and out. *)
Definition release_key (kt : key_tables) (fnmode iso_layout : Z)
    (kp : keyboard_protocol) (last_keys : list Z)
    (acc : option (list Z * list input_request)) (i : nat)
  : option (list Z * list input_request) :=
  match acc with
  | None => None
  | Some (fn_flags, reqs) =>
      if still_pressed kp (nth i last_keys 0) then Some (fn_flags, reqs)
      else
        match applespi_code_to_key kt fnmode iso_layout
                (nth i last_keys 0) (nth i fn_flags 0) with
        | None => None
        | Some key =>
            Some (memcpy_at fn_flags i [0], reqs ++ [InputReportKey key 0])
        end
  end.

(** One turn of the loop over the pressed keys (lines 1208-1219). *)
Definition press_key (kt : key_tables) (fnmode iso_layout : Z)
    (kp : keyboard_protocol)
    (acc : option (list Z * list input_request)) (i : nat)
  : option (list Z * list input_request) :=
  match acc with
  | None => None
  | Some (fn_flags, reqs) =>
      let code := nth i (keys_pressed kp) 0 in
      if (code <? Z.of_nat (length (applespi_scancodes kt))) && (code >? 0)
      then
        match applespi_code_to_key kt fnmode iso_layout code
                (fn_pressed kp) with
        | None => None
        | Some key =>
            Some (memcpy_at fn_flags i [fn_pressed kp],
                  reqs ++ [InputReportKey key 1])
        end
      else Some (fn_flags, reqs)
  end.

(** One turn of the loop over the modifiers (lines 1222-1232);
    [applespi_controlcodes] is indexed without a check. *)
Definition report_modifier (kt : key_tables) (kp : keyboard_protocol)
    (acc : option (list input_request)) (i : nat)
  : option (list input_request) :=
  match acc, nth_error (applespi_controlcodes kt) i with
  | Some reqs, Some code =>
      Some (reqs ++ [InputReportKey code
                       (if Z.testbit (modifiers kp) (Z.of_nat i)
                        then 1 else 0)])
  | _, _ => None
  end.

(** The function key (lines 1235-1240). *)
Definition report_fn (kt : key_tables) (s : keyboard_state)
    (kp : keyboard_protocol) : list input_request :=
  if negb (fn_pressed kp =? 0) && (last_fn_pressed s =? 0)
  then [InputReportKey (KEY_FN kt) 1]
  else if (fn_pressed kp =? 0) && negb (last_fn_pressed s =? 0)
  then [InputReportKey (KEY_FN kt) 0]
  else [].

(** [applespi_handle_keyboard_event]: the new state and the requests, or
    [None] if a table was indexed out of range. *)
Definition applespi_handle_keyboard_event (kt : key_tables)
    (fnmode iso_layout : Z) (s : keyboard_state) (kp : keyboard_protocol)
  : option (keyboard_state * list input_request) :=
  let idx := seq 0 (Z.to_nat MAX_ROLLOVER) in
  match fold_left (release_key kt fnmode iso_layout kp (last_keys_pressed s))
          idx (Some (last_keys_fn_pressed s, [])) with
  | None => None
  | Some (fn_flags1, reqs1) =>
      match fold_left (press_key kt fnmode iso_layout kp) idx
              (Some (fn_flags1, reqs1)) with
      | None => None
      | Some (fn_flags2, reqs2) =>
          match fold_left (report_modifier kt kp)
                  (seq 0 (Z.to_nat MAX_MODIFIERS)) (Some reqs2) with
          | None => None
          | Some reqs3 =>
              Some (mk_keyboard_state
                      (firstn (Z.to_nat MAX_ROLLOVER) (keys_pressed kp))
                      fn_flags2 (fn_pressed kp),
                    reqs3 ++ report_fn kt s kp ++ [InputSync])
          end
      end
  end.

(** Tables, states and reports for the examples: a scancode table of eight
    entries, the keyboard state of a zeroed [struct applespi_data], a report
    with the key of code 4 and fn held, one with a code beyond the table, and
    a report with nothing held. *)
Definition example_tables : key_tables :=
  mk_key_tables [0; 0; 0; 0; 30; 48; 46; 59]
    [29; 42; 56; 125; 0; 54; 100; 126]
    [mk_key_translation 30 111 0; mk_key_translation 59 224 APPLE_FLAG_FKEY]
    [mk_key_translation 41 86 0; mk_key_translation 86 41 0]
    464 272.

Definition keyboard_zero : keyboard_state :=
  mk_keyboard_state (repeat 0 6) (repeat 0 6) 0.

Definition report_key4_fn : keyboard_protocol :=
  mk_keyboard_protocol 2 [4; 0; 0; 0; 0; 0] 1.

Definition report_key200 : keyboard_protocol :=
  mk_keyboard_protocol 0 [200; 0; 0; 0; 0; 0] 0.

Definition report_nothing : keyboard_protocol :=
  mk_keyboard_protocol 0 [0; 0; 0; 0; 0; 0] 0.

(** *** The touchpad handler (lines 1046-1135) *)

Definition MAX_FINGER_ORIENTATION : Z := 16384.

(** A value as a [signed short] ([s16]) and as an [int], with the
    wrap-around of the conversion. *)
Definition s16 (x : Z) : Z := (x + 32768) mod 65536 - 32768.
Definition s32 (x : Z) : Z := (x + 2147483648) mod 4294967296 - 2147483648.

(** [raw2int] (lines 1046-1051): [(signed short)le16_to_cpu(x)]. *)
Definition raw2int (x : Z) : Z := s16 x.

(** [struct tp_finger] (lines 178-194), each [__le16] as its value. *)
Record tp_finger : Type := mk_tp_finger
  { origin : Z; abs_x : Z; abs_y : Z; rel_x : Z; rel_y : Z;
    tool_major : Z; tool_minor : Z; orientation : Z;
    touch_major : Z; touch_minor : Z; unused0 : Z; unused1 : Z;
    pressure : Z; multi : Z; crc_16 : Z }.

(** The fields of [struct touchpad_protocol] (lines 207-215) the handler
    reads; [fingers] holds the finger records of the message. *)
Record touchpad_protocol : Type := mk_touchpad_protocol
  { clicked : Z; number_of_fingers : Z; fingers : list tp_finger }.

(** [struct applespi_tp_info] (lines 351-356). *)
Record applespi_tp_info : Type := mk_tp_info
  { x_min : Z; x_max : Z; y_min : Z; y_max : Z }.

(** The position the first loop stores for a finger (lines 1092-1094), as
    the [s16] fields of [struct input_mt_pos] hold it. *)
Definition finger_pos (tp_info : applespi_tp_info) (f : tp_finger)
  : input_mt_pos :=
  mk_input_mt_pos (s16 (raw2int (abs_x f)))
    (s16 (s32 (y_min tp_info + y_max tp_info - raw2int (abs_y f)))).

(** The first loop (lines 1088-1112) over the fingers [fs]: the positions
    of those that touch, in [pos[0..n-1]].  (The part under [DBG_TP_DIM]
    only logs.) *)
Fixpoint tp_positions (tp_info : applespi_tp_info) (fs : list tp_finger)
  : list input_mt_pos :=
  match fs with
  | [] => []
  | f :: rest =>
      if raw2int (touch_major f) =? 0 then tp_positions tp_info rest
      else finger_pos tp_info f :: tp_positions tp_info rest
  end.

(** [report_finger_data] (lines 1053-1072). *)
Definition report_finger_data (slot : Z) (pos : input_mt_pos) (f : tp_finger)
  : list input_request :=
  [InputMtSlot slot;
   InputMtReportSlotState true;
   InputReportAbs ABS_MT_TOUCH_MAJOR (Z.shiftl (raw2int (touch_major f)) 1);
   InputReportAbs ABS_MT_TOUCH_MINOR (Z.shiftl (raw2int (touch_minor f)) 1);
   InputReportAbs ABS_MT_WIDTH_MAJOR (Z.shiftl (raw2int (tool_major f)) 1);
   InputReportAbs ABS_MT_WIDTH_MINOR (Z.shiftl (raw2int (tool_minor f)) 1);
   InputReportAbs ABS_MT_ORIENTATION
     (MAX_FINGER_ORIENTATION - raw2int (orientation f));
   InputReportAbs ABS_MT_POSITION_X (pos_x pos);
   InputReportAbs ABS_MT_POSITION_Y (pos_y pos)].

Definition null_finger : tp_finger :=
  mk_tp_finger 0 0 0 0 0 0 0 0 0 0 0 0 0 0 0.

(** [report_tp_state] (lines 1074-1135).  [slots] is [applespi->slots] as
    [input_mt_assign_slots] leaves it.  The result is [None] when the loops
    leave the arrays: when [number_of_fingers] exceeds the finger records at
    hand, or when more than [MAX_FINGERS] positions are stored in [pos]. *)
Definition report_tp_state (kt : key_tables) (tp_info : applespi_tp_info)
    (slots : list Z) (t : touchpad_protocol)
  : option (list input_request) :=
  let nf := Z.to_nat (number_of_fingers t) in
  if (length (fingers t) <? nf)%nat then None
  else
    let pos := tp_positions tp_info (firstn nf (fingers t)) in
    let n := length pos in
    if (Z.to_nat MAX_FINGERS <? n)%nat then None
    else
      Some ([InputMtAssignSlots pos]
            ++ flat_map
                 (fun i => report_finger_data (nth i slots 0)
                             (nth i pos (mk_input_mt_pos 0 0))
                             (nth i (fingers t) null_finger))
                 (seq 0 n)
            ++ [InputMtSyncFrame;
                InputReportKey (BTN_LEFT kt) (clicked t);
                InputSync]).

(** [&message->touchpad] (line 1404): the touchpad report in a message.
    [struct touchpad_protocol] follows the 8 bytes of the message header,
    its finger records start at byte 56 and have 30 bytes each; [fingers]
    are the records that lie within the message. *)
Definition tp_finger_at (m : list Z) (i : nat) : tp_finger :=
  let o := (56 + 30 * i)%nat in
  mk_tp_finger (le16_at m o) (le16_at m (o + 2)) (le16_at m (o + 4))
    (le16_at m (o + 6)) (le16_at m (o + 8)) (le16_at m (o + 10))
    (le16_at m (o + 12)) (le16_at m (o + 14)) (le16_at m (o + 16))
    (le16_at m (o + 18)) (le16_at m (o + 20)) (le16_at m (o + 22))
    (le16_at m (o + 24)) (le16_at m (o + 26)) (le16_at m (o + 28)).

Definition message_touchpad (m : list Z) : touchpad_protocol :=
  mk_touchpad_protocol (nth 9 m 0) (tp_number_of_fingers m)
    (map (tp_finger_at m) (seq 0 ((length m - 56) / 30))).

(** The fingers that touch, and examples: the touchpad of the default
    [applespi_tp_info], a lifted finger and one that touches at (100, 200),
    and a report of both. *)
Definition touching (f : tp_finger) : bool :=
  negb (raw2int (touch_major f) =? 0).

Definition applespi_default_info : applespi_tp_info :=
  mk_tp_info (-5087) 5579 (-182) 6089.

Definition lifted_finger : tp_finger :=
  mk_tp_finger 0 7 9 0 0 30 20 16384 0 0 0 0 0 0 0.

Definition touching_finger : tp_finger :=
  mk_tp_finger 1 100 200 0 0 300 250 16384 280 240 0 0 50 0 0.

Definition two_finger_report : touchpad_protocol :=
  mk_touchpad_protocol 1 2 [lifted_finger; touching_finger].

(** A touchpad message of two (zeroed) finger records. *)
Definition tp_message_two : list Z :=
  mk_message 0x0210 1 0 (memcpy_at (repeat 0 106) 30 [2]).

(** * Properties *)

Arguments crc16 : simpl never.
Arguments repeat : simpl never.

(** ** The backlight mapping *)

Lemma forallb_upto (p : Z -> bool) (n : nat) :
  forallb p (map Z.of_nat (seq 0 n)) = true ->
  forall v, 0 <= v < Z.of_nat n -> p v = true.
Proof.
  intros Hall v Hv.
  rewrite forallb_forall in Hall. apply Hall.
  apply in_map_iff. exists (Z.to_nat v). split.
  - lia.
  - apply in_seq. lia.
Qed.

Lemma device_level_scaled (v : Z) :
  1 <= v <= 255 ->
  device_level v
  = v * KBD_BL_LEVEL_ADJ / KBD_BL_LEVEL_SCALE + MIN_KBD_BL_LEVEL.
Proof.
  intros Hv. unfold device_level, u32.
  destruct (Z.eqb_spec v 0) as [->|_]; [lia|].
  change KBD_BL_LEVEL_ADJ with 874509.
  change KBD_BL_LEVEL_SCALE with 1000000.
  change MIN_KBD_BL_LEVEL with 32.
  rewrite (Z.mod_small (v * 874509)) by lia.
  apply Z.mod_small.
  assert (0 <= v * 874509 / 1000000 <= 255).
  { split.
    - apply Z.div_pos; lia.
    - apply Z.div_le_upper_bound; lia. }
  lia.
Qed.

Lemma device_level_nonneg (v : Z) : 0 <= v <= 255 -> 0 <= device_level v.
Proof.
  intros Hv. destruct (Z.eq_dec v 0) as [->|Hne]; [vm_compute; discriminate|].
  rewrite device_level_scaled by lia.
  assert (0 <= v * KBD_BL_LEVEL_ADJ / KBD_BL_LEVEL_SCALE).
  { apply Z.div_pos; [|reflexivity].
    change KBD_BL_LEVEL_ADJ with 874509. lia. }
  change MIN_KBD_BL_LEVEL with 32. lia.
Qed.

Lemma device_level_monotone (u v : Z) :
  0 <= u <= v -> v <= 255 -> device_level u <= device_level v.
Proof.
  intros Hu Hv. destruct (Z.eq_dec u 0) as [->|Hne].
  - change (device_level 0) with 0. apply device_level_nonneg. lia.
  - rewrite !device_level_scaled by lia.
    apply Z.add_le_mono_r. apply Z.div_le_mono; [reflexivity|].
    change KBD_BL_LEVEL_ADJ with 874509. lia.
Qed.

Lemma device_level_floor (v : Z) :
  1 <= v <= 254 ->
  device_level v
  = v * (MAX_KBD_BL_LEVEL - MIN_KBD_BL_LEVEL) / 255 + MIN_KBD_BL_LEVEL.
Proof.
  intros Hv. rewrite device_level_scaled by lia. f_equal.
  apply Z.eqb_eq.
  apply (forallb_upto
           (fun w => (w * KBD_BL_LEVEL_ADJ / KBD_BL_LEVEL_SCALE
                      =? w * (MAX_KBD_BL_LEVEL - MIN_KBD_BL_LEVEL) / 255))
           255); [vm_compute; reflexivity | lia].
Qed.

(** At full brightness the truncated constant [KBD_BL_LEVEL_ADJ] loses one
    step: the device is asked for 254. *)
Lemma device_level_full : device_level 255 = 254.
Proof. reflexivity. Qed.

(** C4, as the code has it: [device_level] sends 0 to 0 and 1 to
    [MIN_KBD_BL_LEVEL], is monotonically non-decreasing on 0..255 and never
    exceeds [MAX_KBD_BL_LEVEL]; for every user value in 1..254 it is
    [user_value * (MAX_DEV - MIN_DEV) / 255] with the quotient truncated (not
    rounded), plus [MIN_DEV]. *)
Theorem device_level_truncated_scale :
  device_level 0 = 0 /\
  device_level 1 = MIN_KBD_BL_LEVEL /\
  (forall u v, 0 <= u <= v -> v <= 255 -> device_level u <= device_level v) /\
  (forall v, 0 <= v <= 255 -> device_level v <= MAX_KBD_BL_LEVEL) /\
  (forall v, 1 <= v <= 254 ->
     device_level v
     = v * (MAX_KBD_BL_LEVEL - MIN_KBD_BL_LEVEL) / 255 + MIN_KBD_BL_LEVEL).
Proof.
  split; [reflexivity|]. split; [reflexivity|].
  split; [exact device_level_monotone|].
  split; [|exact device_level_floor].
  intros v Hv.
  apply Z.le_trans with (device_level 255).
  - apply device_level_monotone; lia.
  - vm_compute; discriminate.
Qed.

Lemma device_level_truncated_scale_witness :
  device_level 100 <= device_level 200 /\
  device_level 200 <= MAX_KBD_BL_LEVEL /\
  device_level 127
  = 127 * (MAX_KBD_BL_LEVEL - MIN_KBD_BL_LEVEL) / 255 + MIN_KBD_BL_LEVEL.
Proof.
  destruct device_level_truncated_scale as (_ & _ & Hmono & Hmax & Hfloor).
  split; [apply Hmono; lia|]. split; [apply Hmax; lia | apply Hfloor; lia].
Defined.

(** C4 as stated fails: full brightness is not sent to [MAX_KBD_BL_LEVEL]
    (255) but to 254, and the value at 1 is not the rounded quotient plus
    [MIN_DEV] (which is 33) but [MIN_DEV] itself. *)
Lemma device_level_not_as_specified :
  device_level 255 <> MAX_KBD_BL_LEVEL /\
  device_level 1 <> spec_device_level 1.
Proof. split; vm_compute; discriminate. Qed.

(** ** The command path *)

Arguments encode_packet : simpl never.
Arguments applespi_verify_crc : simpl never.

Ltac state_simpl :=
  cbn [tx_buffer msg_buf saved_msg_len want_init_cmd want_cl_led_on
       have_cl_led_on want_bl_level have_bl_level cmd_msg_cntr cmd_msg_queued
       cmd_log_mask drain read_active write_active
       set_tx_buffer set_msg_buf set_saved_msg_len set_want_init_cmd
       set_want_cl_led_on set_have_cl_led_on set_want_bl_level
       set_have_bl_level set_cmd_msg_cntr set_cmd_msg_queued set_cmd_log_mask
       set_drain set_read_active set_write_active fst snd] in *.

Ltac split_ifs :=
  repeat match goal with
         | |- context [if ?b then _ else _] => destruct b eqn:?
         end.

Lemma send_cmd_msg_blocked (a : applespi_data) (sts : Z) :
  cmd_msg_queued a = true \/ drain a = true ->
  applespi_send_cmd_msg a sts = (a, 0, []).
Proof.
  unfold applespi_send_cmd_msg.
  destruct (drain a), (cmd_msg_queued a); intros [H|H];
    try discriminate; reflexivity.
Qed.

(** The function past its two guards. *)
Lemma send_cmd_msg_idle (a : applespi_data) (sts : Z) :
  drain a = false -> cmd_msg_queued a = false ->
  applespi_send_cmd_msg a sts =
  match applespi_next_cmd (set_tx_buffer zero_packet a) with
  | None => (set_tx_buffer zero_packet a, 0, [])
  | Some (a1, c) =>
      let packet := encode_packet c (Z.land (cmd_msg_cntr a1) 0xff) in
      let a3 :=
        set_tx_buffer packet
          (set_cmd_msg_cntr (u32 (cmd_msg_cntr a1 + 1)) a1) in
      (if sts =? 0
       then set_write_active true (set_cmd_msg_queued true a3) else a3,
       sts, [SpiAsyncWrite packet sts])
  end.
Proof.
  intros Hd Hq. unfold applespi_send_cmd_msg. rewrite Hd, Hq.
  fold zero_packet.
  destruct (applespi_next_cmd (set_tx_buffer zero_packet a)) as [[a1 c]|];
    [|reflexivity].
  cbv zeta. destruct (sts =? 0); reflexivity.
Qed.

(** Which arm of the if-chain serves a request is the specification's
    priority order. *)
Lemma next_cmd_kind (a : applespi_data) :
  applespi_next_cmd a =
  match spec_next_kind a with
  | None => None
  | Some k =>
      Some (set_cmd_log_mask (log_mask_of k) (mark_served k a),
            command_of k a)
  end.
Proof.
  unfold applespi_next_cmd, spec_next_kind.
  destruct (want_init_cmd a); [reflexivity|].
  destruct (negb (Bool.eqb (want_cl_led_on a) (have_cl_led_on a)));
    [reflexivity|].
  destruct (negb (want_bl_level a =? have_bl_level a)); reflexivity.
Qed.

Lemma spec_next_kind_tx_buffer (v : list Z) (a : applespi_data) :
  spec_next_kind (set_tx_buffer v a) = spec_next_kind a.
Proof. reflexivity. Qed.

(** [applespi_send_cmd_msg] past its two guards, by the kind it serves. *)
Lemma send_cmd_msg_served (a : applespi_data) (sts : Z) :
  drain a = false -> cmd_msg_queued a = false ->
  applespi_send_cmd_msg a sts =
  match spec_next_kind a with
  | None => (set_tx_buffer zero_packet a, 0, [])
  | Some k =>
      let packet :=
        encode_packet (command_of k a) (Z.land (cmd_msg_cntr a) 0xff) in
      let a3 :=
        set_tx_buffer packet
          (set_cmd_msg_cntr (u32 (cmd_msg_cntr a + 1))
             (set_cmd_log_mask (log_mask_of k) (mark_served k a))) in
      (if sts =? 0
       then set_write_active true (set_cmd_msg_queued true a3) else a3,
       sts, [SpiAsyncWrite packet sts])
  end.
Proof.
  intros Hd Hq. rewrite send_cmd_msg_idle by assumption.
  rewrite next_cmd_kind, spec_next_kind_tx_buffer.
  destruct (spec_next_kind a) as [k|]; [|reflexivity].
  destruct k; reflexivity.
Qed.

(** The device and type bytes of a built packet are those of its command. *)
Lemma packet_kind_command_of (k : cmd_kind) (a : applespi_data) (n : Z) :
  packet_kind (encode_packet (command_of k a) n) = Some k.
Proof. destruct k; reflexivity. Qed.

Lemma send_cmd_msg_queued_iff_submitted (a : applespi_data) (sts : Z) :
  cmd_msg_queued a = false ->
  let '(a', _, effs) := applespi_send_cmd_msg a sts in
  cmd_msg_queued a' = existsb write_submitted effs.
Proof.
  intros Hq. destruct (drain a) eqn:Hd.
  - rewrite send_cmd_msg_blocked by auto. exact Hq.
  - rewrite send_cmd_msg_served by assumption.
    destruct (spec_next_kind a) as [k|]; [|exact Hq].
    cbv zeta. cbn [existsb write_submitted].
    destruct (sts =? 0); [reflexivity|].
    destruct k; exact Hq.
Qed.

(** What [applespi_send_cmd_msg] leaves alone. *)
Lemma send_cmd_msg_frame (a : applespi_data) (sts : Z) :
  let '(a', _, _) := applespi_send_cmd_msg a sts in
  drain a' = drain a /\ read_active a' = read_active a /\
  msg_buf a' = msg_buf a /\ saved_msg_len a' = saved_msg_len a /\
  want_cl_led_on a' = want_cl_led_on a /\
  want_bl_level a' = want_bl_level a.
Proof.
  destruct (drain a) eqn:Hd; [rewrite send_cmd_msg_blocked by auto; tauto|].
  destruct (cmd_msg_queued a) eqn:Hq;
    [rewrite send_cmd_msg_blocked by auto; tauto|].
  rewrite send_cmd_msg_served by assumption.
  destruct (spec_next_kind a) as [k|]; [|state_simpl; tauto].
  cbv zeta. destruct (sts =? 0), k; state_simpl; tauto.
Qed.

(** C8: past its guards, [applespi_send_cmd_msg] serves the first pending
    request in the order init, caps lock, backlight: it builds and hands to
    the bus exactly one packet, of that kind, and leaves the other requests
    pending; with nothing pending it returns 0 and asks nothing of the bus.
    In particular, with init and caps lock both pending (whatever the
    backlight), init goes first and, once that exchange has ended, caps
    lock goes next. *)
Theorem send_cmd_msg_priority (a : applespi_data) (sts : Z) :
  drain a = false -> cmd_msg_queued a = false ->
  let '(a', ret, effs) := applespi_send_cmd_msg a sts in
  match spec_next_kind a with
  | None => effs = [] /\ ret = 0 /\ a' = set_tx_buffer zero_packet a
  | Some k =>
      ret = sts /\
      (exists p, effs = [SpiAsyncWrite p sts] /\ packet_kind p = Some k /\
                 tx_buffer a' = p) /\
      spec_next_kind a' = spec_next_kind (mark_served k a)
  end /\
  (want_init_cmd a = true -> want_cl_led_on a <> have_cl_led_on a ->
   spec_next_kind a = Some CmdInit /\
   forall sts',
     let '(_, effs') := applespi_msg_complete a' true true sts' in
     exists p', effs' = [SpiAsyncWrite p' sts'] /\
                packet_kind p' = Some CmdCapsl).
Proof.
  intros Hd Hq. rewrite send_cmd_msg_served by assumption.
  destruct (spec_next_kind a) as [k|] eqn:Hk; cbv zeta.
  - split.
    + split; [reflexivity|]. split.
      * eexists. split; [reflexivity|].
        split; [apply packet_kind_command_of|].
        destruct (sts =? 0); reflexivity.
      * destruct (sts =? 0), k; reflexivity.
    + intros Hi Hcl.
      assert (k = CmdInit) as ->.
      { unfold spec_next_kind in Hk. rewrite Hi in Hk. congruence. }
      split; [reflexivity|]. intros sts'.
      unfold applespi_msg_complete.
      match goal with
      | |- context [applespi_send_cmd_msg ?b sts'] =>
          assert (Hb : drain b = false /\ cmd_msg_queued b = false /\
                       spec_next_kind b = Some CmdCapsl)
      end.
      { unfold spec_next_kind.
        destruct (sts =? 0); cbn [mark_served]; state_simpl;
          (split; [exact Hd|]); (split; [reflexivity|]);
          destruct (want_cl_led_on a), (have_cl_led_on a);
          try reflexivity; exfalso; apply Hcl; reflexivity. }
      destruct Hb as (Hbd & Hbq & Hbk).
      rewrite send_cmd_msg_served by assumption. rewrite Hbk. cbv zeta.
      match goal with
      | |- context [if ?c then [WakeUpAll] else []] =>
          replace c with false
            by (destruct (sts =? 0); symmetry; apply andb_false_intro1;
                exact Hd)
      end.
      eexists. split; [reflexivity|]. apply packet_kind_command_of.
  - split; [auto|].
    intros Hi _. unfold spec_next_kind in Hk. rewrite Hi in Hk. discriminate.
Qed.

Lemma send_cmd_msg_priority_witness :
  let a := all_pending in
  drain a = false /\ cmd_msg_queued a = false /\
  let '(a', ret, effs) := applespi_send_cmd_msg a 0 in
  match spec_next_kind a with
  | None => effs = [] /\ ret = 0 /\ a' = set_tx_buffer zero_packet a
  | Some k =>
      ret = 0 /\
      (exists p, effs = [SpiAsyncWrite p 0] /\ packet_kind p = Some k /\
                 tx_buffer a' = p) /\
      spec_next_kind a' = spec_next_kind (mark_served k a)
  end /\
  (want_init_cmd a = true -> want_cl_led_on a <> have_cl_led_on a ->
   spec_next_kind a = Some CmdInit /\
   forall sts',
     let '(_, effs') := applespi_msg_complete a' true true sts' in
     exists p', effs' = [SpiAsyncWrite p' sts'] /\
                packet_kind p' = Some CmdCapsl).
Proof.
  split; [reflexivity|]. split; [reflexivity|].
  apply (send_cmd_msg_priority all_pending 0); reflexivity.
Defined.

(** C9, as the code has it: a command is built only for a request that is
    pending (init wanted, or wanted value different from the one the device
    has), and the request is marked as served (for caps lock and backlight:
    have := want) when the command is built, before the write is handed to
    the bus and whether or not the bus accepts it; [cmd_msg_queued] alone
    tells whether it did.  The completion of a write that succeeded changes
    nothing. *)
Theorem send_cmd_msg_marks_served_when_built (a : applespi_data) (sts : Z) :
  drain a = false -> cmd_msg_queued a = false ->
  let '(a', ret, effs) := applespi_send_cmd_msg a sts in
  (effs <> [] -> spec_next_kind a <> None) /\
  match spec_next_kind a with
  | Some CmdInit =>
      want_init_cmd a' = false /\
      have_cl_led_on a' = have_cl_led_on a /\
      have_bl_level a' = have_bl_level a
  | Some CmdCapsl =>
      want_cl_led_on a <> have_cl_led_on a /\
      have_cl_led_on a' = want_cl_led_on a /\
      have_bl_level a' = have_bl_level a
  | Some CmdBl =>
      want_bl_level a <> have_bl_level a /\
      have_bl_level a' = want_bl_level a /\
      have_cl_led_on a' = have_cl_led_on a
  | None =>
      want_init_cmd a' = want_init_cmd a /\
      have_cl_led_on a' = have_cl_led_on a /\
      have_bl_level a' = have_bl_level a
  end /\
  (spec_next_kind a <> None -> cmd_msg_queued a' = (sts =? 0)) /\
  (forall status tx_status sts',
     applespi_check_write_status tx_status status = true ->
     applespi_async_write_complete a' status tx_status sts' = (a', [])).
Proof.
  intros Hd Hq. rewrite send_cmd_msg_served by assumption.
  assert (Hdone : forall b status tx_status sts',
             applespi_check_write_status tx_status status = true ->
             applespi_async_write_complete b status tx_status sts' = (b, [])).
  { intros b status tx_status sts' Hok.
    unfold applespi_async_write_complete. rewrite Hok. reflexivity. }
  destruct (spec_next_kind a) as [k|] eqn:Hk; cbv zeta.
  - split; [discriminate|]. split.
    + unfold spec_next_kind in Hk.
      destruct k, (sts =? 0); cbn [mark_served]; state_simpl;
        repeat split; try reflexivity;
        destruct (want_init_cmd a); try discriminate;
        destruct (Bool.eqb (want_cl_led_on a) (have_cl_led_on a)) eqn:Hcl;
        cbn [negb] in Hk; try discriminate;
        try (apply eqb_false_iff in Hcl; exact Hcl);
        destruct (Z.eqb_spec (want_bl_level a) (have_bl_level a));
        cbn [negb] in Hk; try discriminate; assumption.
    + split; [|apply Hdone].
      intros _. destruct (sts =? 0); [reflexivity|].
      destruct k; exact Hq.
  - split; [intros H; exfalso; apply H; reflexivity|].
    split; [repeat split|]. split; [congruence | apply Hdone].
Qed.

Lemma send_cmd_msg_marks_served_when_built_witness :
  let a := set_want_cl_led_on true applespi_zero in
  drain a = false /\ cmd_msg_queued a = false /\
  let '(a', ret, effs) := applespi_send_cmd_msg a (-5) in
  (effs <> [] -> spec_next_kind a <> None) /\
  match spec_next_kind a with
  | Some CmdInit =>
      want_init_cmd a' = false /\
      have_cl_led_on a' = have_cl_led_on a /\
      have_bl_level a' = have_bl_level a
  | Some CmdCapsl =>
      want_cl_led_on a <> have_cl_led_on a /\
      have_cl_led_on a' = want_cl_led_on a /\
      have_bl_level a' = have_bl_level a
  | Some CmdBl =>
      want_bl_level a <> have_bl_level a /\
      have_bl_level a' = want_bl_level a /\
      have_cl_led_on a' = have_cl_led_on a
  | None =>
      want_init_cmd a' = want_init_cmd a /\
      have_cl_led_on a' = have_cl_led_on a /\
      have_bl_level a' = have_bl_level a
  end /\
  (spec_next_kind a <> None -> cmd_msg_queued a' = (-5 =? 0)) /\
  (forall status tx_status sts',
     applespi_check_write_status tx_status status = true ->
     applespi_async_write_complete a' status tx_status sts' = (a', [])).
Proof.
  split; [reflexivity|]. split; [reflexivity|].
  apply (send_cmd_msg_marks_served_when_built
           (set_want_cl_led_on true applespi_zero) (-5)); reflexivity.
Defined.

(** C9 as stated fails: with the caps lock LED wanted on and the device
    having it off, a write that the bus refuses ([spi_async] returns -5)
    still leaves [have_cl_led_on] true: the applied state has changed
    although nothing was issued. *)
Lemma refused_write_marks_served :
  let a := set_want_cl_led_on true applespi_zero in
  let '(a', ret, effs) := applespi_send_cmd_msg a (-5) in
  have_cl_led_on a = false /\ ret = -5 /\ writes_submitted effs = [] /\
  cmd_msg_queued a' = false /\ have_cl_led_on a' = true.
Proof. vm_compute. repeat split. Qed.

(** ** The read path *)

Lemma msg_complete_read (a : applespi_data) (sts : Z) :
  applespi_msg_complete a false true sts
  = (set_read_active false a,
     if drain a && negb (write_active a) then [WakeUpAll] else []).
Proof. reflexivity. Qed.

Lemma msg_complete_write (a : applespi_data) (is_read_compl : bool)
    (sts : Z) :
  applespi_msg_complete a true is_read_compl sts
  = let a2 :=
      set_cmd_msg_queued false
        (set_write_active false
           (if is_read_compl then set_read_active false a else a)) in
    let '(a3, _, effs) := applespi_send_cmd_msg a2 sts in
    (a3, (if drain a then [WakeUpAll] else []) ++ effs).
Proof.
  unfold applespi_msg_complete. cbv zeta.
  destruct is_read_compl; state_simpl; rewrite andb_true_r; reflexivity.
Qed.

(** The three ways out of [applespi_got_data]: the early return on a bad
    packet crc, the return that waits for the next packet, and the [cleanup]
    label, reached with a state that differs from the one at entry in the
    re-assembly fields only. *)
Lemma got_data_shape (a : applespi_data) (rx : list Z) (sts : Z) :
  if applespi_verify_crc (firstn (Z.to_nat APPLESPI_PACKET_SIZE) rx)
  then
    (exists a1, applespi_got_data a rx sts = (a1, Incomplete, []) /\
                same_but_reassembly a1 a) \/
    (exists a0 v handled,
        applespi_got_data a rx sts = got_data_cleanup a0 rx sts v handled /\
        v <> Incomplete /\ v <> PacketCrcMismatch /\
        same_but_reassembly a0 a /\
        forallb is_handler_effect handled = true)
  else
    applespi_got_data a rx sts
    = if drain a
      then (set_write_active false (set_read_active false a),
            PacketCrcMismatch, [WakeUpAll])
      else (a, PacketCrcMismatch, []).
Proof.
  unfold applespi_got_data, got_data_verify, got_data_handle,
    same_but_reassembly.
  destruct (applespi_verify_crc _); cbn [negb]; [|reflexivity].
  destruct a. cbv zeta.
  repeat match goal with
         | |- context [if ?b then _ else _] => destruct b
         end;
    try (left; eexists; split; [reflexivity|reflexivity]);
    right; do 3 eexists; (split; [reflexivity|]);
    (split; [discriminate|]); (split; [discriminate|]);
    split; reflexivity.
Qed.

Lemma same_but_reassembly_fields (a0 a : applespi_data) :
  same_but_reassembly a0 a ->
  drain a0 = drain a /\ read_active a0 = read_active a /\
  write_active a0 = write_active a /\
  cmd_msg_queued a0 = cmd_msg_queued a /\
  want_init_cmd a0 = want_init_cmd a /\
  want_cl_led_on a0 = want_cl_led_on a /\
  have_cl_led_on a0 = have_cl_led_on a /\
  want_bl_level a0 = want_bl_level a /\
  have_bl_level a0 = have_bl_level a /\
  cmd_msg_cntr a0 = cmd_msg_cntr a.
Proof.
  unfold same_but_reassembly. intros ->. repeat split.
Qed.

Lemma writes_submitted_app (l1 l2 : list effect) :
  writes_submitted (l1 ++ l2) = writes_submitted l1 ++ writes_submitted l2.
Proof. apply filter_app. Qed.

Lemma writes_submitted_handlers (l : list effect) :
  forallb is_handler_effect l = true -> writes_submitted l = [].
Proof.
  induction l as [|e l IH]; [reflexivity|].
  cbn [forallb]. intros H. apply andb_true_iff in H. destruct H as [He Hl].
  destruct e; try discriminate; cbn; auto.
Qed.

(** What [applespi_send_cmd_msg] asks of the bus: nothing, or one write;
    and what that means for [cmd_msg_queued]. *)
Lemma send_cmd_msg_effects (a : applespi_data) (sts : Z) :
  let '(a', _, effs) := applespi_send_cmd_msg a sts in
  (effs = [] /\ cmd_msg_queued a' = cmd_msg_queued a) \/
  (exists p, effs = [SpiAsyncWrite p sts] /\ cmd_msg_queued a = false /\
             cmd_msg_queued a' = (sts =? 0)).
Proof.
  destruct (drain a) eqn:Hd; [rewrite send_cmd_msg_blocked by auto; auto|].
  destruct (cmd_msg_queued a) eqn:Hq;
    [rewrite send_cmd_msg_blocked by auto; auto|].
  rewrite send_cmd_msg_served by assumption.
  destruct (spec_next_kind a) as [k|]; [|left; auto].
  cbv zeta. right. eexists. split; [reflexivity|]. split; [reflexivity|].
  destruct (sts =? 0); [reflexivity|]. destruct k; exact Hq.
Qed.

(** The effects of [applespi_msg_complete]: a wake-up or none, then what
    [applespi_send_cmd_msg] asked, if it was called. *)
Lemma msg_complete_effects (a : applespi_data) (w r : bool) (sts : Z) :
  let '(a', effs) := applespi_msg_complete a w r sts in
  exists wake sent,
    effs = wake ++ sent /\ writes_submitted wake = [] /\
    if w
    then (sent = [] /\ cmd_msg_queued a' = false) \/
         (exists p, sent = [SpiAsyncWrite p sts] /\
                    cmd_msg_queued a' = (sts =? 0))
    else sent = [] /\ cmd_msg_queued a' = cmd_msg_queued a.
Proof.
  destruct w.
  - rewrite msg_complete_write. cbv zeta.
    match goal with
    | |- context [applespi_send_cmd_msg ?b sts] =>
        pose proof (send_cmd_msg_effects b sts) as H;
        destruct (applespi_send_cmd_msg b sts) as [[a3 ret] effs]
    end.
    exists (if drain a then [WakeUpAll] else []), effs.
    split; [reflexivity|]. split; [destruct (drain a); reflexivity|].
    destruct H as [[-> Hq]|(p & -> & _ & Hq)].
    + left. split; [reflexivity|]. rewrite Hq. destruct r; reflexivity.
    + right. exists p. auto.
  - unfold applespi_msg_complete. cbv zeta.
    eexists. exists []. split; [symmetry; apply app_nil_r|].
    split; [split_ifs; reflexivity|].
    split; [reflexivity|]. destruct r; reflexivity.
Qed.

Lemma lifecycle_end_verdict (x : applespi_data) (v : rx_verdict)
    (y : list effect) (flag : bool) :
  v <> Incomplete -> v <> PacketCrcMismatch ->
  match (x, v, y) with
  | (_, PacketCrcMismatch, _) => false
  | (_, Incomplete, _) => false
  | _ => flag
  end = flag.
Proof. intros H1 H2. destruct v; congruence. Qed.

(** One step asks for at most one write, by a call of
    [applespi_send_cmd_msg]; what else it asks is no write.  The write is
    asked either with no command queued before the step, or in a step that
    ends the exchange of the queued one; and [cmd_msg_queued] changes only
    with such a write or at such an end. *)
Lemma step_effects (a : applespi_data) (e : event) :
  let '(a', effs) := step a e in
  exists pre sent post,
    effs = pre ++ sent ++ post /\
    writes_submitted pre = [] /\ writes_submitted post = [] /\
    ((sent = [] /\
      ((write_lifecycle_end a e = false /\
        cmd_msg_queued a' = cmd_msg_queued a) \/
       (write_lifecycle_end a e = true /\ cmd_msg_queued a' = false))) \/
     (exists p sts,
         sent = [SpiAsyncWrite p sts] /\ cmd_msg_queued a' = (sts =? 0) /\
         ((write_lifecycle_end a e = false /\ cmd_msg_queued a = false) \/
          write_lifecycle_end a e = true))).
Proof.
  destruct e as [sts|status rx sts|status tx_status sts|sts|on sts|value sts];
    cbn [step].
  - (* the GPE *)
    unfold applespi_notify.
    destruct (negb (sts =? 0));
      exists [SpiAsyncRead sts], [], []; repeat split; auto.
  - (* a read completes *)
    unfold applespi_async_read_complete, write_lifecycle_end.
    destruct (status <? 0).
    { exists [AcpiFinishGpe], [], []. repeat split; auto. }
    pose proof (got_data_shape a rx sts) as Hshape.
    destruct (applespi_verify_crc
                (firstn (Z.to_nat APPLESPI_PACKET_SIZE) rx)).
    + destruct Hshape as [(a1 & -> & Hsame)|(a0 & v & handled & -> & Hv1 & Hv2
                                             & Hsame & Hh)].
      * apply same_but_reassembly_fields in Hsame.
        exists [], [], [AcpiFinishGpe]. repeat split; tauto.
      * apply same_but_reassembly_fields in Hsame.
        destruct Hsame as (_ & _ & _ & Hq & _).
        unfold got_data_cleanup.
        pose proof (msg_complete_effects a0
                      (pkt_flags rx =? PACKET_TYPE_WRITE) true sts) as Hm.
        destruct (applespi_msg_complete a0 _ true sts) as [a1 effs].
        destruct Hm as (wake & sent & -> & Hw & Hm).
        rewrite lifecycle_end_verdict by assumption.
        exists (handled ++ wake), sent, [AcpiFinishGpe].
        split; [rewrite <- !app_assoc; reflexivity|].
        split; [rewrite writes_submitted_app, Hw,
                  writes_submitted_handlers by assumption; reflexivity|].
        split; [reflexivity|].
        destruct (pkt_flags rx =? PACKET_TYPE_WRITE).
        -- destruct Hm as [[-> Hq']|(p & -> & Hq')].
           ++ left. auto.
           ++ right. exists p, sts. auto.
        -- destruct Hm as [-> Hq']. left. split; [reflexivity|].
           left. split; congruence.
    + rewrite Hshape. destruct (drain a).
      * exists [WakeUpAll; AcpiFinishGpe], [], [].
        repeat split; auto.
      * exists [AcpiFinishGpe], [], []. repeat split; auto.
  - (* a write completes *)
    unfold applespi_async_write_complete, write_lifecycle_end.
    destruct (negb (applespi_check_write_status tx_status status)).
    + pose proof (msg_complete_effects a true false sts) as Hm.
      destruct (applespi_msg_complete a true false sts) as [a1 effs].
      destruct Hm as (wake & sent & -> & Hw & Hm).
      exists wake, sent, []. rewrite app_nil_r.
      split; [reflexivity|]. split; [assumption|]. split; [reflexivity|].
      destruct Hm as [[-> Hq']|(p & -> & Hq')].
      * left. auto.
      * right. exists p, sts. auto.
    + exists [], [], []. repeat split; auto.
  - (* applespi_init *)
    unfold applespi_init.
    pose proof (send_cmd_msg_effects (set_want_init_cmd true a) sts) as Hs.
    destruct (applespi_send_cmd_msg _ sts) as [[a1 ret] effs].
    exists [], effs, []. rewrite app_nil_r.
    split; [reflexivity|]. split; [reflexivity|]. split; [reflexivity|].
    destruct Hs as [[-> Hq]|(p & -> & Hq & Hq')].
    + left. auto.
    + right. exists p, sts. auto.
  - (* applespi_set_capsl_led *)
    unfold applespi_set_capsl_led.
    pose proof (send_cmd_msg_effects (set_want_cl_led_on on a) sts) as Hs.
    destruct (applespi_send_cmd_msg _ sts) as [[a1 ret] effs].
    exists [], effs, []. rewrite app_nil_r.
    split; [reflexivity|]. split; [reflexivity|]. split; [reflexivity|].
    destruct Hs as [[-> Hq]|(p & -> & Hq & Hq')].
    + left. auto.
    + right. exists p, sts. auto.
  - (* applespi_set_bl_level *)
    unfold applespi_set_bl_level.
    pose proof (send_cmd_msg_effects
                  (set_want_bl_level (device_level value) a) sts) as Hs.
    destruct (applespi_send_cmd_msg _ sts) as [[a1 ret] effs].
    exists [], effs, []. rewrite app_nil_r.
    split; [reflexivity|]. split; [reflexivity|]. split; [reflexivity|].
    destruct Hs as [[-> Hq]|(p & -> & Hq & Hq')].
    + left. auto.
    + right. exists p, sts. auto.
Qed.

Lemma step_outstanding (a : applespi_data) (e : event) :
  let '(a', effs) := step a e in
  ((if write_lifecycle_end a e
    then Nat.pred (Nat.b2n (cmd_msg_queued a))
    else Nat.b2n (cmd_msg_queued a))
   + length (writes_submitted effs))%nat
  = Nat.b2n (cmd_msg_queued a').
Proof.
  pose proof (step_effects a e) as H.
  destruct (step a e) as [a' effs].
  destruct H as (pre & sent & post & -> & Hpre & Hpost & H).
  rewrite !writes_submitted_app, Hpre, Hpost, app_nil_r. cbn [app].
  destruct H as [[-> [[Hl Hq]|[Hl Hq]]]|(p & sts & -> & Hq & [[Hl Hq0]|Hl])];
    rewrite Hl, Hq; cbn [writes_submitted filter write_submitted];
    try rewrite Hq0; try destruct (sts =? 0);
    try destruct (cmd_msg_queued a); reflexivity.
Qed.

Lemma run_outstanding (es : list event) (a : applespi_data) :
  outstanding_writes a (Nat.b2n (cmd_msg_queued a)) es
  = Nat.b2n (cmd_msg_queued (fst (run a es))).
Proof.
  revert a. induction es as [|e es IH]; intros a; [reflexivity|].
  cbn [outstanding_writes run].
  pose proof (step_outstanding a e) as H.
  destruct (step a e) as [a1 effs1]. rewrite H, IH.
  destruct (run a1 es) as [a2 effs2]. reflexivity.
Qed.

Lemma msg_complete_draining (a : applespi_data) (w r : bool) (sts : Z) :
  drain a = true ->
  let '(a', effs) := applespi_msg_complete a w r sts in
  drain a' = true /\ writes_submitted effs = [].
Proof.
  intros Hd. destruct w.
  - rewrite msg_complete_write. cbv zeta.
    rewrite send_cmd_msg_blocked by (right; destruct r; exact Hd).
    rewrite Hd. split; [destruct r; exact Hd | reflexivity].
  - unfold applespi_msg_complete. cbv zeta.
    split; [destruct r; exact Hd | split_ifs; reflexivity].
Qed.

(** Once [applespi_begin_drain] has set [drain], no step submits a write,
    and no step clears [drain]. *)
Lemma drain_blocks_writes (a : applespi_data) (e : event) :
  let '(a', effs) := step (applespi_begin_drain a) e in
  drain a' = true /\ writes_submitted effs = [].
Proof.
  assert (Hd : drain (applespi_begin_drain a) = true) by reflexivity.
  generalize dependent (applespi_begin_drain a). clear a. intros a Hd.
  destruct e as [sts|status rx sts|status tx_status sts|sts|on sts|value sts];
    cbn [step].
  - unfold applespi_notify. destruct (negb (sts =? 0)); auto.
  - unfold applespi_async_read_complete.
    destruct (status <? 0); [auto|].
    pose proof (got_data_shape a rx sts) as Hshape.
    destruct (applespi_verify_crc
                (firstn (Z.to_nat APPLESPI_PACKET_SIZE) rx)).
    + destruct Hshape as [(a1 & -> & Hsame)|(a0 & v & handled & -> & _ & _
                                             & Hsame & Hh)];
        apply same_but_reassembly_fields in Hsame;
        destruct Hsame as (Hd' & _).
      * split; [congruence | reflexivity].
      * unfold got_data_cleanup.
        pose proof (msg_complete_draining a0
                      (pkt_flags rx =? PACKET_TYPE_WRITE) true sts
                      ltac:(congruence)) as Hm.
        destruct (applespi_msg_complete a0 _ true sts) as [a1 effs].
        destruct Hm as [Hd1 Hw]. split; [exact Hd1|].
        rewrite !writes_submitted_app, Hw,
          writes_submitted_handlers by assumption.
        reflexivity.
    + rewrite Hshape, Hd. split; [exact Hd | reflexivity].
  - unfold applespi_async_write_complete.
    destruct (negb (applespi_check_write_status tx_status status));
      [|auto].
    apply msg_complete_draining. exact Hd.
  - unfold applespi_init.
    rewrite send_cmd_msg_blocked by (right; exact Hd). auto.
  - unfold applespi_set_capsl_led.
    rewrite send_cmd_msg_blocked by (right; exact Hd). auto.
  - unfold applespi_set_bl_level.
    rewrite send_cmd_msg_blocked by (right; exact Hd). auto.
Qed.

(** What ends a write exchange at the completion of a read: a transfer
    that succeeded, a packet that passes the packet crc and carries the
    write flag, and a verdict other than waiting for the next packet,
    whether a handler gets the message or the packet is rejected. *)
Lemma read_lifecycle_end (a : applespi_data) (status : Z) (rx : list Z)
    (sts : Z) :
  write_lifecycle_end a (ReadComplete status rx sts) = true <->
  0 <= status /\
  applespi_verify_crc (firstn (Z.to_nat APPLESPI_PACKET_SIZE) rx) = true /\
  pkt_flags rx = PACKET_TYPE_WRITE /\
  snd (fst (applespi_got_data a rx sts)) <> Incomplete.
Proof.
  unfold write_lifecycle_end.
  destruct (Z.ltb_spec status 0) as [Hs|Hs].
  { split; [discriminate | intros (H & _); lia]. }
  pose proof (got_data_shape a rx sts) as Hshape.
  destruct (applespi_verify_crc (firstn (Z.to_nat APPLESPI_PACKET_SIZE) rx)).
  - destruct Hshape as [(a1 & -> & _)|(a0 & v & handled & -> & Hv1 & Hv2
                                       & _ & _)].
    + cbn [fst snd]. split; [discriminate | intros (_ & _ & _ & H)].
      exfalso. apply H. reflexivity.
    + unfold got_data_cleanup.
      destruct (applespi_msg_complete a0 _ true sts) as [a1 effs1].
      cbn [fst snd].
      rewrite lifecycle_end_verdict by assumption.
      rewrite Z.eqb_eq. tauto.
  - rewrite Hshape.
    destruct (drain a); (split; [discriminate | intros (_ & H & _)]);
      discriminate.
Qed.

(** C1, as the code has it.  While a command is queued, or while draining,
    [applespi_send_cmd_msg] returns 0 without touching the state or the
    bus; where no command is queued, [cmd_msg_queued] is true after the call
    exactly if the bus accepted a write.  In operation (the GPE, the
    completions of reads and writes, the requests for commands) the
    exchange of a queued command ends at the completion of a write that
    failed, or of a read that brings a packet with the write flag which
    passes the packet crc and is not waiting for more, be the message then
    handed to a handler or rejected.  A step that starts with a command
    queued and is not such an end leaves it queued and submits no write; a
    step that is such an end clears [cmd_msg_queued] unless it submits the
    next write; every step submits at most one write and leaves
    [cmd_msg_queued] true if it did; so over any sequence of these events
    the number of write exchanges under way is that of [cmd_msg_queued], 0
    or 1.  [applespi_resume] stands outside this: in any state it clears
    [cmd_msg_queued], without the end of an exchange, and submits the init
    command. *)
Theorem at_most_one_write_queued :
  (forall a sts,
     cmd_msg_queued a = true \/ drain a = true ->
     applespi_send_cmd_msg a sts = (a, 0, [])) /\
  (forall a sts,
     cmd_msg_queued a = false ->
     let '(a', _, effs) := applespi_send_cmd_msg a sts in
     cmd_msg_queued a' = existsb write_submitted effs) /\
  (forall a e,
     write_lifecycle_end a e = true <->
     match e with
     | WriteComplete status tx_status _ =>
         applespi_check_write_status tx_status status = false
     | ReadComplete status rx sts =>
         0 <= status /\
         applespi_verify_crc (firstn (Z.to_nat APPLESPI_PACKET_SIZE) rx)
         = true /\
         pkt_flags rx = PACKET_TYPE_WRITE /\
         snd (fst (applespi_got_data a rx sts)) <> Incomplete
     | _ => False
     end) /\
  (forall a e,
     cmd_msg_queued a = true -> write_lifecycle_end a e = false ->
     let '(a', effs) := step a e in
     cmd_msg_queued a' = true /\ writes_submitted effs = []) /\
  (forall a e,
     write_lifecycle_end a e = true ->
     let '(a', effs) := step a e in
     writes_submitted effs = [] -> cmd_msg_queued a' = false) /\
  (forall a e,
     let '(a', effs) := step a e in
     (length (writes_submitted effs) <= 1)%nat /\
     (writes_submitted effs <> [] -> cmd_msg_queued a' = true)) /\
  (forall a es,
     outstanding_writes a (Nat.b2n (cmd_msg_queued a)) es
     = Nat.b2n (cmd_msg_queued (fst (run a es))) /\
     (outstanding_writes a (Nat.b2n (cmd_msg_queued a)) es <= 1)%nat) /\
  (forall a sts,
     let '(a', effs) := applespi_resume a sts in
     cmd_msg_queued a' = (sts =? 0) /\
     exists p, effs = [SpiAsyncWrite p sts] /\ packet_kind p = Some CmdInit).
Proof.
  split; [exact send_cmd_msg_blocked|].
  split; [exact send_cmd_msg_queued_iff_submitted|].
  split; [|split; [|split; [|split; [|split]]]].
  - intros a e.
    destruct e as [sts|status rx sts|status tx_status sts|sts|on sts
                  |value sts];
      try (cbn [write_lifecycle_end]; split; [discriminate | tauto]).
    + apply read_lifecycle_end.
    + cbn [write_lifecycle_end].
      destruct (applespi_check_write_status tx_status status);
        cbn [negb]; split; congruence.
  - intros a e Hq Hl. pose proof (step_effects a e) as H.
    destruct (step a e) as [a' effs].
    destruct H as (pre & sent & post & -> & Hpre & Hpost & H).
    rewrite !writes_submitted_app, Hpre, Hpost.
    destruct H as [[-> [[_ Hq']|[Hl' _]]]|(p & sts & _ & _ & [[_ Hq0]|Hl'])];
      try congruence.
    split; [congruence | reflexivity].
  - intros a e Hl. pose proof (step_effects a e) as H.
    destruct (step a e) as [a' effs].
    destruct H as (pre & sent & post & -> & Hpre & Hpost & H).
    rewrite !writes_submitted_app, Hpre, Hpost, app_nil_r. cbn [app].
    destruct H as [[-> [[Hl' _]|[_ Hq']]]|(p & sts & -> & Hq' & _)].
    + congruence.
    + intros _. exact Hq'.
    + cbn [writes_submitted filter write_submitted]. rewrite Hq'.
      destruct (sts =? 0); [discriminate | reflexivity].
  - intros a e. pose proof (step_effects a e) as H.
    destruct (step a e) as [a' effs].
    destruct H as (pre & sent & post & -> & Hpre & Hpost & H).
    rewrite !writes_submitted_app, Hpre, Hpost, app_nil_r. cbn [app].
    destruct H as [[-> _]|(p & sts & -> & Hq & _)].
    + split; [cbn; lia | intros H; exfalso; apply H; reflexivity].
    + cbn [writes_submitted filter write_submitted]. rewrite Hq.
      destruct (sts =? 0); cbn [length]; split; try lia; try reflexivity.
      intros H; exfalso; apply H; reflexivity.
  - intros a es. rewrite run_outstanding. split; [reflexivity|].
    destruct (cmd_msg_queued (fst (run a es))); cbn; lia.
  - intros a sts. unfold applespi_resume, applespi_init.
    rewrite send_cmd_msg_served by reflexivity.
    change (spec_next_kind (set_want_init_cmd true (resume_reset a)))
      with (Some CmdInit).
    cbv zeta. split.
    + destruct (sts =? 0); reflexivity.
    + eexists. split; [reflexivity|]. apply packet_kind_command_of.
Qed.

Lemma at_most_one_write_queued_witness :
  let a := set_cmd_msg_queued true all_pending in
  applespi_send_cmd_msg a 0 = (a, 0, []) /\
  (let '(a', effs) := step a (SetCapslLed false 0) in
   cmd_msg_queued a' = true /\ writes_submitted effs = []) /\
  (let '(a', effs) := step a (WriteComplete (-5) [] (-5)) in
   writes_submitted effs = [] -> cmd_msg_queued a' = false) /\
  (outstanding_writes applespi_zero 0
     [SetBlLevel 5 0; SetCapslLed true 0; Init 0] <= 1)%nat.
Proof.
  destruct at_most_one_write_queued as (H1 & _ & _ & H4 & H5 & _ & H7 & _).
  split; [apply H1; left; reflexivity|].
  split; [|split].
  - apply (H4 (set_cmd_msg_queued true all_pending) (SetCapslLed false 0));
      reflexivity.
  - apply (H5 (set_cmd_msg_queued true all_pending)
             (WriteComplete (-5) [] (-5))).
    reflexivity.
  - apply (H7 applespi_zero [SetBlLevel 5 0; SetCapslLed true 0; Init 0]).
Defined.

(** C1 as stated fails in two ways.  A packet with the write flag that is
    rejected (here for its offset) and reaches no handler clears
    [cmd_msg_queued] and lets the next command out, though no
    acknowledgement was routed.  And after a suspend has drained on a packet
    with a wrong crc, which leaves no transfer active but the command
    queued, [applespi_resume] clears [cmd_msg_queued] and submits a write
    with the exchange of the first never ended. *)
Lemma queued_write_cleared_without_completion :
  (cmd_msg_queued capsl_under_way = true /\
   let '(a', effs) :=
     step capsl_under_way (ReadComplete 0 stray_response 0) in
   snd (fst (applespi_got_data capsl_under_way stray_response 0))
   = UnexpectedOffset /\
   handler_calls effs = [] /\
   cmd_msg_queued a' = true /\
   map fst (write_log effs) = [Some CmdBl]) /\
  (cmd_msg_queued init_under_way_draining = true /\
   let '(a1, effs1) :=
     step init_under_way_draining (ReadComplete 0 corrupt_packet 0) in
   write_lifecycle_end init_under_way_draining
     (ReadComplete 0 corrupt_packet 0) = false /\
   write_active a1 = false /\ read_active a1 = false /\
   cmd_msg_queued a1 = true /\
   let '(a2, effs2) := applespi_resume a1 0 in
   map fst (write_log effs2) = [Some CmdInit] /\
   cmd_msg_queued a2 = true).
Proof. vm_compute. repeat split. Qed.


(** C5, as the code has it: the GPE handler looks at neither [drain] nor
    [read_active]; it always hands a read to the bus, and sets [read_active]
    if the bus accepts it, leaving the rest of the exchange state as it
    was. *)
Theorem notify_always_submits_read (a : applespi_data) (sts : Z) :
  let '(a', effs) := applespi_notify a sts in
  effs = [SpiAsyncRead sts] /\
  read_active a' = (if sts =? 0 then true else read_active a) /\
  drain a' = drain a /\ cmd_msg_queued a' = cmd_msg_queued a /\
  write_active a' = write_active a.
Proof.
  unfold applespi_notify. destruct (sts =? 0); cbn [negb]; repeat split.
Qed.

(** C5 as stated fails: while draining and with a read already under way,
    the handler submits another read. *)
Lemma notify_reads_while_draining :
  let a := set_read_active true (set_drain true applespi_zero) in
  drain a = true /\ read_active a = true /\
  reads_submitted (snd (applespi_notify a 0)) = [SpiAsyncRead 0].
Proof. repeat split. Qed.

(** C6, as the code has it, for a read transfer that succeeded
    ([rd_m.status >= 0]).  If the packet's crc is right and the packet ends
    a message (handled or rejected), the completion clears [read_active]
    and, when draining with no write active, wakes the drain waiters.  If
    the packet's crc is wrong, [read_active] and [write_active] are cleared
    and the waiters woken only while draining; otherwise nothing changes. *)
Theorem read_complete_clears_read_active
    (a : applespi_data) (status : Z) (rx : list Z) (sts : Z) :
  0 <= status ->
  let '(a', effs) := applespi_async_read_complete a status rx sts in
  let verdict := snd (fst (applespi_got_data a rx sts)) in
  if applespi_verify_crc (firstn (Z.to_nat APPLESPI_PACKET_SIZE) rx)
  then
    verdict <> Incomplete ->
    read_active a' = false /\
    (drain a = true -> write_active a' = false -> In WakeUpAll effs)
  else if drain a
  then read_active a' = false /\ write_active a' = false /\
       In WakeUpAll effs
  else a' = a /\ ~ In WakeUpAll effs.
Proof.
  intros Hs. unfold applespi_async_read_complete.
  destruct (Z.ltb_spec status 0) as [Hneg|_]; [lia|].
  pose proof (got_data_shape a rx sts) as Hshape.
  destruct (applespi_verify_crc (firstn (Z.to_nat APPLESPI_PACKET_SIZE) rx)).
  - destruct Hshape as [(a1 & -> & _)|(a0 & v & handled & -> & _ & _
                                       & Hsame & Hh)].
    + cbn. congruence.
    + apply same_but_reassembly_fields in Hsame.
      destruct Hsame as (Hd & _ & Hw & _).
      unfold got_data_cleanup.
      destruct (pkt_flags rx =? PACKET_TYPE_WRITE).
      * rewrite msg_complete_write. cbv zeta.
        match goal with
        | |- context [applespi_send_cmd_msg ?b sts] =>
            pose proof (send_cmd_msg_frame b sts) as Hf;
            destruct (applespi_send_cmd_msg b sts) as [[a3 ret] effs]
        end.
        destruct Hf as (_ & Hr & _). cbn [fst snd].
        intros _. split; [exact Hr|].
        intros Hdr _. rewrite Hd, Hdr.
        apply in_or_app. left. apply in_or_app. right.
        apply in_or_app. left. left. reflexivity.
      * rewrite msg_complete_read. cbn [fst snd].
        intros _. split; [reflexivity|].
        state_simpl. intros Hdr Hwa. rewrite Hd, Hdr, Hwa.
        apply in_or_app. left. apply in_or_app. right. left. reflexivity.
  - rewrite Hshape. destruct (drain a).
    + repeat split. left. reflexivity.
    + split; [reflexivity|]. intros [H|[]]. discriminate.
Qed.

Lemma read_complete_clears_read_active_witness :
  let a := set_read_active true (set_drain true applespi_zero) in
  let rx := ack_packet PACKET_DEV_TPAD 0x0252 0 2 in
  0 <= 0 /\
  let '(a', effs) := applespi_async_read_complete a 0 rx 0 in
  let verdict := snd (fst (applespi_got_data a rx 0)) in
  if applespi_verify_crc (firstn (Z.to_nat APPLESPI_PACKET_SIZE) rx)
  then
    verdict <> Incomplete ->
    read_active a' = false /\
    (drain a = true -> write_active a' = false -> In WakeUpAll effs)
  else if drain a
  then read_active a' = false /\ write_active a' = false /\
       In WakeUpAll effs
  else a' = a /\ ~ In WakeUpAll effs.
Proof.
  split; [lia|].
  apply (read_complete_clears_read_active
           (set_read_active true (set_drain true applespi_zero)) 0
           (ack_packet PACKET_DEV_TPAD 0x0252 0 2) 0).
  lia.
Defined.

(** C6 as stated fails.  A read transfer that failed ([rd_m.status] -5)
    while draining leaves [read_active] true and wakes nobody; and a packet
    with a wrong crc received while not draining leaves [read_active] true
    as well. *)
Lemma failed_read_keeps_read_active :
  (let a := set_read_active true (set_drain true applespi_zero) in
   let '(a', effs) := applespi_async_read_complete a (-5) zero_packet 0 in
   drain a = true /\ read_active a' = true /\ ~ In WakeUpAll effs) /\
  (let a := set_read_active true applespi_zero in
   let '(a', effs) := applespi_async_read_complete a 0 corrupt_packet 0 in
   applespi_verify_crc corrupt_packet = false /\ read_active a' = true).
Proof.
  split.
  - cbn. repeat split. intros [H|[]]. discriminate.
  - vm_compute. repeat split.
Qed.

(** ** Resume *)

(** C10: [applespi_resume] sets [drain], [cmd_msg_queued], [write_active]
    and [read_active] to false and, with them, the applied configuration:
    [have_cl_led_on] to false and [have_bl_level] to 0, the wanted values
    staying as they are.  It then sends the init command (which queues a
    write again if the bus accepts it).  So after a resume the caps lock
    command is pending exactly if the LED is wanted on and the backlight
    command exactly if a level other than 0 is wanted, whether or not they
    changed across the suspend, and the first of them is sent when the init
    exchange ends. *)
Theorem resume_resets_applied_state (a : applespi_data) (sts : Z) :
  let r := resume_reset a in
  (drain r = false /\ cmd_msg_queued r = false /\
   write_active r = false /\ read_active r = false /\
   have_cl_led_on r = false /\ have_bl_level r = 0 /\
   want_cl_led_on r = want_cl_led_on a /\
   want_bl_level r = want_bl_level a) /\
  let '(a', effs) := applespi_resume a sts in
  (exists p, effs = [SpiAsyncWrite p sts] /\ packet_kind p = Some CmdInit) /\
  (drain a' = false /\ read_active a' = false /\
   cmd_msg_queued a' = (sts =? 0) /\ write_active a' = (sts =? 0)) /\
  (have_cl_led_on a' = false /\ have_bl_level a' = 0 /\
   want_cl_led_on a' = want_cl_led_on a /\
   want_bl_level a' = want_bl_level a) /\
  spec_next_kind a' = resent_after_resume a /\
  forall sts',
    let '(_, effs') := applespi_msg_complete a' true true sts' in
    match resent_after_resume a with
    | Some k => exists p', effs' = [SpiAsyncWrite p' sts'] /\
                           packet_kind p' = Some k
    | None => effs' = []
    end.
Proof.
  split; [repeat split|].
  unfold applespi_resume, applespi_init.
  rewrite send_cmd_msg_served by reflexivity.
  change (spec_next_kind (set_want_init_cmd true (resume_reset a)))
    with (Some CmdInit).
  cbv zeta.
  assert (Hnext : forall b,
             want_init_cmd b = false -> have_cl_led_on b = false ->
             have_bl_level b = 0 -> want_cl_led_on b = want_cl_led_on a ->
             want_bl_level b = want_bl_level a ->
             spec_next_kind b = resent_after_resume a).
  { intros b Hi Hcl Hbl Hwc Hwb. unfold spec_next_kind, resent_after_resume.
    rewrite Hi, Hcl, Hbl, Hwc, Hwb.
    destruct (want_cl_led_on a); reflexivity. }
  split; [eexists; split; [reflexivity | apply packet_kind_command_of]|].
  split; [destruct (sts =? 0); repeat split|].
  split; [destruct (sts =? 0); repeat split|].
  split; [destruct (sts =? 0); apply Hnext; reflexivity|].
  intros sts'. rewrite msg_complete_write. cbv zeta.
  rewrite send_cmd_msg_served by (destruct (sts =? 0); reflexivity).
  rewrite Hnext by (destruct (sts =? 0); reflexivity).
  replace (drain _) with false by (destruct (sts =? 0); reflexivity).
  destruct (resent_after_resume a) as [k|]; cbv zeta; cbn [app].
  - eexists. split; [reflexivity | apply packet_kind_command_of].
  - reflexivity.
Qed.

Lemma resume_resets_applied_state_witness :
  let a := set_have_bl_level 100 (set_have_cl_led_on true all_pending) in
  have_cl_led_on a = want_cl_led_on a /\
  have_bl_level a = want_bl_level a /\
  let '(a', _) := applespi_resume a 0 in
  spec_next_kind a' = Some CmdCapsl /\
  forall sts',
    let '(_, effs') := applespi_msg_complete a' true true sts' in
    exists p', effs' = [SpiAsyncWrite p' sts'] /\
               packet_kind p' = Some CmdCapsl.
Proof.
  split; [reflexivity|]. split; [reflexivity|].
  pose proof (resume_resets_applied_state
                (set_have_bl_level 100 (set_have_cl_led_on true all_pending))
                0) as H.
  cbv zeta in H. destruct H as [_ H].
  destruct (applespi_resume _ 0) as [a' effs].
  destruct H as (_ & _ & _ & Hk & Hc). split; [exact Hk|exact Hc].
Defined.

(** ** The message counter *)

(** Every command that is built, of whatever kind, carries the low byte of
    the one counter [cmd_msg_cntr], which is then incremented. *)
Lemma send_cmd_msg_counter (a : applespi_data) (sts : Z) :
  drain a = false -> cmd_msg_queued a = false -> spec_next_kind a <> None ->
  let '(a', _, effs) := applespi_send_cmd_msg a sts in
  (exists p, effs = [SpiAsyncWrite p sts] /\
             pkt_msg_counter p = Z.land (cmd_msg_cntr a) 0xff) /\
  cmd_msg_cntr a' = u32 (cmd_msg_cntr a + 1).
Proof.
  intros Hd Hq Hk. rewrite send_cmd_msg_served by assumption.
  destruct (spec_next_kind a) as [k|]; [|congruence]. cbv zeta.
  split; [eexists; split; [reflexivity|destruct k; reflexivity]|].
  destruct (sts =? 0); reflexivity.
Qed.

(** C3 fails on the code: the counter is one for all kinds.  An init
    command, then (its response received) a caps lock command, then (its
    response received) a second init command carry the counters 0, 1 and 2:
    the second init message does not follow the first by one. *)
Theorem counter_shared_by_all_kinds :
  write_log
    (snd (run applespi_zero
            [Init 0;
             ReadComplete 0 (ack_packet PACKET_DEV_TPAD 0x0252 0 2) 0;
             SetCapslLed true 0;
             ReadComplete 0 (ack_packet PACKET_DEV_KEYB 0x0151 1 2) 0;
             Init 0]))
  = [(Some CmdInit, 0); (Some CmdCapsl, 1); (Some CmdInit, 2)].
Proof. vm_compute. reflexivity. Qed.

(** ** The crc residue and the framing of the device *)

Lemma crc16_shift_even (y : Z) : crc16_shift (2 * y) = y.
Proof.
  unfold crc16_shift.
  rewrite Z.testbit_even_0.
  rewrite Z.shiftr_div_pow2 by lia. change (2 ^ 1) with 2.
  rewrite Z.mul_comm. apply Z.div_mul. lia.
Qed.

Lemma crc16_shift_low_byte_clear (q : Z) :
  Nat.iter 8 crc16_shift (256 * q) = q.
Proof.
  replace (256 * q) with (2 * (2 * (2 * (2 * (2 * (2 * (2 * (2 * q))))))))
    by lia.
  unfold Nat.iter. cbn [nat_rect]. rewrite !crc16_shift_even. reflexivity.
Qed.

Lemma lxor_low_byte (c : Z) :
  Z.lxor c (Z.land (c mod 256) 255) = 256 * (c / 256).
Proof.
  change 255 with (Z.ones 8). rewrite Z.land_ones by lia.
  change (2 ^ 8) with 256. rewrite Z.mod_mod by lia.
  apply Z.bits_inj'. intros i Hi.
  rewrite Z.lxor_spec.
  replace (256 * (c / 256)) with (c / 2 ^ 8 * 2 ^ 8)
    by (change (2 ^ 8) with 256; lia).
  change 256 with (2 ^ 8).
  destruct (Z.lt_ge_cases i 8) as [Hlt|Hge].
  - rewrite Z.mod_pow2_bits_low by lia.
    rewrite Z.mul_pow2_bits_low by lia. apply xorb_nilpotent.
  - rewrite Z.mod_pow2_bits_high by lia.
    rewrite Z.mul_pow2_bits by lia.
    rewrite Z.div_pow2_bits by lia.
    rewrite xorb_false_r. f_equal. lia.
Qed.

Lemma crc16_byte_low (c : Z) : crc16_byte c (c mod 256) = c / 256.
Proof.
  unfold crc16_byte. rewrite lxor_low_byte. apply crc16_shift_low_byte_clear.
Qed.

Lemma lxor_range16 (a b : Z) :
  0 <= a < 65536 -> 0 <= b < 65536 -> 0 <= Z.lxor a b < 65536.
Proof.
  intros Ha Hb.
  assert (Hnn : 0 <= Z.lxor a b) by (apply Z.lxor_nonneg; lia).
  split; [exact Hnn|].
  destruct (Z.eq_dec (Z.lxor a b) 0) as [->|Hne]; [lia|].
  change 65536 with (2 ^ 16). apply Z.log2_lt_pow2; [lia|].
  eapply Z.le_lt_trans; [apply Z.log2_lxor; lia|].
  apply Z.max_lub_lt.
  - destruct (Z.eq_dec a 0) as [->|]; [reflexivity|].
    apply Z.log2_lt_pow2; lia.
  - destruct (Z.eq_dec b 0) as [->|]; [reflexivity|].
    apply Z.log2_lt_pow2; lia.
Qed.

Lemma crc16_shift_range (c : Z) :
  0 <= c < 65536 -> 0 <= crc16_shift c < 65536.
Proof.
  intros Hc. unfold crc16_shift.
  assert (Hs : 0 <= Z.shiftr c 1 < 32768).
  { rewrite Z.shiftr_div_pow2 by lia. change (2 ^ 1) with 2.
    split; [apply Z.div_pos; lia | apply Z.div_lt_upper_bound; lia]. }
  destruct (Z.testbit c 0); [apply lxor_range16; lia | lia].
Qed.

Lemma lxor_byte_range (c d : Z) :
  0 <= c < 65536 -> 0 <= Z.lxor c (Z.land d 255) < 65536.
Proof.
  intros Hc. apply lxor_range16; [exact Hc|].
  change 255 with (Z.ones 8). rewrite Z.land_ones by lia.
  pose proof (Z.mod_pos_bound d (2 ^ 8) eq_refl) as H.
  change (2 ^ 8) with 256 in *. lia.
Qed.

Lemma crc16_byte_range (c d : Z) :
  0 <= c < 65536 -> 0 <= crc16_byte c d < 65536.
Proof.
  intros Hc. unfold crc16_byte, Nat.iter. cbn [nat_rect].
  do 8 apply crc16_shift_range. apply lxor_byte_range. exact Hc.
Qed.

Lemma crc16_range (buffer : list Z) (c : Z) :
  0 <= c < 65536 -> 0 <= crc16 c buffer < 65536.
Proof.
  revert c. unfold crc16.
  induction buffer as [|d buffer IH]; intros c Hc; [exact Hc|].
  cbn [fold_left]. apply IH. apply crc16_byte_range. exact Hc.
Qed.

Lemma crc16_app (c : Z) (l1 l2 : list Z) :
  crc16 c (l1 ++ l2) = crc16 (crc16 c l1) l2.
Proof. apply fold_left_app. Qed.

(** The residue: a structure followed by its crc has crc 0. *)
Lemma verify_crc_with_crc (l : list Z) :
  applespi_verify_crc (with_crc l) = true.
Proof.
  unfold applespi_verify_crc, with_crc. rewrite crc16_app.
  pose proof (crc16_range l 0 ltac:(lia)) as Hr.
  set (c := crc16 0 l) in *.
  unfold cpu_to_le16, crc16. cbn [fold_left].
  rewrite crc16_byte_low.
  assert (Hq : 0 <= c / 256 < 256).
  { split; [apply Z.div_pos; lia | apply Z.div_lt_upper_bound; lia]. }
  rewrite crc16_byte_low.
  rewrite Z.div_small by lia. reflexivity.
Qed.

Lemma le16_at_cpu_to_le16 (pre post : list Z) (x : Z) :
  0 <= x < 65536 ->
  le16_at (pre ++ cpu_to_le16 x ++ post) (length pre) = x.
Proof.
  intros Hx. unfold le16_at, cpu_to_le16.
  rewrite !(app_nth2 pre) by lia. rewrite Nat.sub_diag.
  replace (S (length pre) - length pre)%nat with 1%nat by lia.
  cbn [app nth].
  assert (0 <= x / 256 < 256)
    by (split; [apply Z.div_pos; lia | apply Z.div_lt_upper_bound; lia]).
  rewrite (Z.mod_small (x / 256)) by lia.
  pose proof (Z.div_mod x 256 ltac:(lia)). lia.
Qed.

Lemma length_pad_to (n : nat) (l : list Z) :
  (length l <= n)%nat -> length (pad_to n l) = n.
Proof.
  intros H. unfold pad_to. rewrite length_app, repeat_length. lia.
Qed.

(** What the device frames with [mk_packet] is a packet with a right crc
    that carries its payload. *)
Lemma mk_packet_carries (flags device off rem : Z) (payload : list Z) :
  0 <= off < 65536 -> 0 <= rem < 65536 -> (length payload <= 246)%nat ->
  carries (mk_packet flags device off rem payload) off rem payload.
Proof.
  intros Ho Hr Hl. unfold carries, mk_packet.
  split.
  - rewrite firstn_all2; [apply verify_crc_with_crc|].
    unfold with_crc. rewrite !length_app, length_pad_to by assumption.
    cbn. lia.
  - unfold pkt_offset, pkt_remaining, pkt_length, pkt_data, with_crc.
    split; [|split; [|split]].
    + rewrite <- !app_assoc.
      apply (le16_at_cpu_to_le16 [flags; device]). exact Ho.
    + rewrite <- !app_assoc.
      apply (le16_at_cpu_to_le16 ([flags; device] ++ cpu_to_le16 off)).
      exact Hr.
    + rewrite <- !app_assoc.
      apply (le16_at_cpu_to_le16
               ([flags; device] ++ cpu_to_le16 off ++ cpu_to_le16 rem)).
      lia.
    + cbn [app cpu_to_le16 skipn].
      change (Z.to_nat PACKET_DATA_SIZE) with 246%nat.
      rewrite <- (length_pad_to 246 payload) at 1 by assumption.
      rewrite firstn_app, Nat.sub_diag, firstn_all. cbn [firstn].
      rewrite app_nil_r. unfold pad_to.
      rewrite firstn_app, Nat.sub_diag, firstn_all. cbn [firstn].
      apply app_nil_r.
Qed.

(** What the device frames with [mk_message] passes the two checks. *)
Lemma mk_message_valid (type counter rsp_buf_len : Z) (body : list Z) :
  Z.of_nat (length body) < 65536 ->
  valid_message (mk_message type counter rsp_buf_len body).
Proof.
  intros Hl. unfold valid_message, mk_message.
  split; [|apply verify_crc_with_crc].
  unfold msg_length, with_crc.
  replace (Z.of_nat (length _) - MSG_HEADER_SIZE - 2)
    with (Z.of_nat (length body))
    by (rewrite !length_app; cbn [length cpu_to_le16];
        unfold MSG_HEADER_SIZE; lia).
  rewrite <- !app_assoc.
  apply (le16_at_cpu_to_le16
           (cpu_to_le16 type ++ [0; counter] ++ cpu_to_le16 rsp_buf_len)).
  lia.
Qed.

(** ** Re-assembly *)

Lemma msg_complete_reassembly (a : applespi_data) (w r : bool) (sts : Z) :
  let '(a1, _) := applespi_msg_complete a w r sts in
  saved_msg_len a1 = saved_msg_len a /\ msg_buf a1 = msg_buf a.
Proof.
  destruct w.
  - rewrite msg_complete_write. cbv zeta.
    match goal with
    | |- context [applespi_send_cmd_msg ?b sts] =>
        pose proof (send_cmd_msg_frame b sts) as Hf;
        destruct (applespi_send_cmd_msg b sts) as [[a3 ret] effs]
    end.
    destruct Hf as (_ & _ & Hm & Hs & _). rewrite Hm, Hs.
    destruct r; split; reflexivity.
  - unfold applespi_msg_complete. destruct r; split; reflexivity.
Qed.

Lemma got_data_cleanup_result (a : applespi_data) (rx : list Z) (sts : Z)
    (v : rx_verdict) (handled : list effect) :
  let '(a1, v', _) := got_data_cleanup a rx sts v handled in
  v' = v /\ saved_msg_len a1 = saved_msg_len a /\ msg_buf a1 = msg_buf a.
Proof.
  unfold got_data_cleanup.
  pose proof (msg_complete_reassembly a
                (pkt_flags rx =? PACKET_TYPE_WRITE) true sts) as H.
  destruct (applespi_msg_complete a _ true sts) as [a1 effs].
  tauto.
Qed.

(** Which ways out of [applespi_got_data] reset the accumulation: the two
    checks of the complete message do, as does its delivery; the rejections
    before line 1385 leave [saved_msg_len] and [msg_buf] as they were. *)
Lemma got_data_saved_msg_len (a : applespi_data) (rx : list Z) (sts : Z) :
  let '(a', v, _) := applespi_got_data a rx sts in
  match v with
  | PacketCrcMismatch | InvalidPacketLength | UnexpectedOffset
  | MessageTooLarge =>
      saved_msg_len a' = saved_msg_len a /\ msg_buf a' = msg_buf a
  | Incomplete => saved_msg_len a' = saved_msg_len a + pkt_length rx
  | InvalidMessageLength | MessageCrcMismatch | Complete _ =>
      saved_msg_len a' = 0
  end.
Proof.
  unfold applespi_got_data, got_data_verify, got_data_handle. cbv zeta.
  repeat match goal with
         | |- context [if ?b then _ else _] => destruct b
         end;
    try match goal with
        | |- context [got_data_cleanup ?x rx sts ?v ?h] =>
            pose proof (got_data_cleanup_result x rx sts v h) as H;
            destruct (got_data_cleanup x rx sts v h) as [[a1 v1] effs1];
            destruct H as (-> & Hs & Hm); rewrite ?Hs, ?Hm
        end;
    try (split; reflexivity); reflexivity.
Qed.

Lemma nth_firstn_lt (i n : nat) (l : list Z) (d : Z) :
  (i < n)%nat -> nth i (firstn n l) d = nth i l d.
Proof.
  revert i l. induction n as [|n IH]; intros i l Hi; [lia|].
  destruct l as [|x l]; [destruct i; reflexivity|].
  destruct i as [|i]; [reflexivity|]. cbn. apply IH. lia.
Qed.

Lemma msg_length_firstn (n : nat) (base : list Z) :
  (8 <= n)%nat -> msg_length (firstn n base) = msg_length base.
Proof.
  intros Hn. unfold msg_length, le16_at.
  rewrite !nth_firstn_lt by lia. reflexivity.
Qed.

(** Two fragments copied one behind the other lie at the start of the
    buffer, whatever it held. *)
Lemma memcpy_at_two_fragments (buf f1 f2 : list Z) :
  firstn (length f1 + length f2)
    (memcpy_at (memcpy_at buf 0 f1) (length f1) f2)
  = f1 ++ f2.
Proof.
  unfold memcpy_at. cbn [firstn app Nat.add].
  rewrite (firstn_app (length f1) f1), firstn_all, Nat.sub_diag.
  cbn [firstn]. rewrite app_nil_r, app_assoc.
  rewrite firstn_app, length_app, Nat.sub_diag. cbn [firstn].
  rewrite app_nil_r. rewrite <- length_app. apply firstn_all.
Qed.

Lemma got_data_handle_result (a : applespi_data) (rx : list Z) (sts : Z)
    (base : list Z) (msg_len : Z) (in_msg_buf : bool) :
  let '(a1, v, _) := got_data_handle a rx sts base msg_len in_msg_buf in
  v = Complete (firstn (Z.to_nat msg_len) base) /\
  saved_msg_len a1 = saved_msg_len a.
Proof.
  unfold got_data_handle. cbv zeta.
  repeat match goal with
         | |- context [if ?b then _ else _] => destruct b
         end;
    match goal with
    | |- context [got_data_cleanup ?x rx sts ?v ?h] =>
        pose proof (got_data_cleanup_result x rx sts v h) as H;
        destruct (got_data_cleanup x rx sts v h) as [[a1 v1] effs1];
        destruct H as (-> & Hs & _); rewrite Hs
    end; split; reflexivity.
Qed.

Ltac unfold_sizes :=
  unfold PACKET_DATA_SIZE, MAX_PKTS_PER_MSG, APPLESPI_PACKET_SIZE,
    MSG_HEADER_SIZE in *.

Ltac decide_cond :=
  match goal with
  | |- context [?x >? ?y] => destruct (Z.gtb_spec x y); [try lia|try lia]
  | |- context [?x =? ?y] => destruct (Z.eqb_spec x y); [try lia|try lia]
  end.

(** The first packet of a message that goes on: its data is copied to the
    start of [msg_buf] and the function returns to wait for the next. *)
Lemma got_data_first_fragment (a : applespi_data) (p payload : list Z)
    (rem sts : Z) :
  carries p 0 rem payload -> 0 < rem <= 512 ->
  (length payload <= 246)%nat -> saved_msg_len a = 0 ->
  applespi_got_data a p sts
  = (set_saved_msg_len (Z.of_nat (length payload))
       (set_msg_buf (memcpy_at (msg_buf a) 0 payload) a),
     Incomplete, []).
Proof.
  intros (Hcrc & Hoff & Hrem & Hlen & Hdata) Hr Hl Hs.
  unfold applespi_got_data. rewrite Hcrc. cbn [negb]. cbv zeta.
  rewrite Hoff, Hrem, Hlen, Hs, Nat2Z.id, Hdata. unfold_sizes.
  repeat decide_cond. reflexivity.
Qed.

(** The last packet of a message in several packets: its data is copied
    behind what is saved, and the whole goes through the two checks to its
    handler. *)
Lemma got_data_last_fragment (a : applespi_data) (p payload msg : list Z)
    (off sts : Z) :
  carries p off 0 payload -> 0 < off -> saved_msg_len a = off ->
  (length payload <= 246)%nat ->
  Z.of_nat (length msg) = off + Z.of_nat (length payload) ->
  10 <= Z.of_nat (length msg) <= 512 ->
  firstn (length msg) (memcpy_at (msg_buf a) (Z.to_nat off) payload) = msg ->
  valid_message msg ->
  let '(a', v, _) := applespi_got_data a p sts in
  v = Complete msg /\ saved_msg_len a' = 0.
Proof.
  intros (Hcrc & Hoff & Hrem & Hlen & Hdata) Ho Hs Hl Htot Hsz Hbuf
    (Hvlen & Hvcrc).
  unfold applespi_got_data. rewrite Hcrc. cbn [negb]. cbv zeta.
  rewrite Hoff, Hrem, Hlen, Hs, Nat2Z.id, Hdata. unfold_sizes.
  repeat decide_cond. cbn [orb negb].
  unfold got_data_verify. state_simpl. cbv zeta.
  rewrite <- Htot, Nat2Z.id.
  rewrite <- (msg_length_firstn (length msg)) by lia.
  rewrite Hbuf, Hvlen. unfold u32, MSG_HEADER_SIZE.
  rewrite Z.mod_small by lia. rewrite Z.eqb_refl, Hvcrc. cbn [negb].
  match goal with
  | |- context [got_data_handle ?x p sts ?b ?n ?f] =>
      pose proof (got_data_handle_result x p sts b n f) as Hres;
      destruct (got_data_handle x p sts b n f) as [[a1 v1] effs1]
  end.
  rewrite Nat2Z.id, Hbuf in Hres. exact Hres.
Qed.

(** A packet that continues a message at another offset than the saved
    length is rejected, and the accumulation stays as it was. *)
Lemma got_data_unexpected_offset (a : applespi_data) (p payload : list Z)
    (off rem sts : Z) :
  carries p off rem payload -> 0 <= rem -> 0 < off ->
  (length payload <= 246)%nat -> off <> saved_msg_len a ->
  let '(a', v, _) := applespi_got_data a p sts in
  v = UnexpectedOffset /\
  saved_msg_len a' = saved_msg_len a /\ msg_buf a' = msg_buf a.
Proof.
  intros (Hcrc & Hoff & Hrem & Hlen & Hdata) Hr Ho Hl Hne.
  unfold applespi_got_data. rewrite Hcrc. cbn [negb]. cbv zeta.
  rewrite Hoff, Hrem, Hlen. unfold_sizes.
  destruct (Z.gtb_spec (Z.of_nat (length payload)) 246); [lia|].
  destruct (Z.gtb_spec off 0); [|lia]. rewrite orb_true_r.
  destruct (Z.eqb_spec off (saved_msg_len a)); [contradiction|].
  cbn [negb]. apply got_data_cleanup_result.
Qed.

Lemma two_frames_in_order (a : applespi_data) (msg p1 p2 : list Z)
    (sts : Z) :
  length msg = 300%nat -> valid_message msg -> saved_msg_len a = 0 ->
  carries p1 0 54 (firstn 246 msg) -> carries p2 246 0 (skipn 246 msg) ->
  let '(a1, v1, _) := applespi_got_data a p1 sts in
  let '(a2, v2, _) := applespi_got_data a1 p2 sts in
  v1 = Incomplete /\ v2 = Complete msg /\ saved_msg_len a2 = 0.
Proof.
  intros Hlen Hvalid Hs H1 H2.
  assert (Hl1 : length (firstn 246 msg) = 246%nat)
    by (rewrite length_firstn; lia).
  assert (Hl2 : length (skipn 246 msg) = 54%nat)
    by (rewrite length_skipn; lia).
  rewrite (got_data_first_fragment a p1 (firstn 246 msg) 54 sts)
    by (auto; lia).
  match goal with
  | |- context [applespi_got_data ?a1 p2 sts] =>
      pose proof (got_data_last_fragment a1 p2 (skipn 246 msg) msg 246 sts)
        as Hlast;
      destruct (applespi_got_data a1 p2 sts) as [[a2 v2] effs2]
  end.
  split; [reflexivity|]. apply Hlast; try assumption; try lia.
  - state_simpl. rewrite Hl1. reflexivity.
  - state_simpl.
    pose proof (memcpy_at_two_fragments (msg_buf a) (firstn 246 msg)
                  (skipn 246 msg)) as Hm.
    rewrite Hl1, Hl2, firstn_skipn in Hm. rewrite Hlen. exact Hm.
Qed.

(** C7: a 300-byte message that is valid (declared length and crc) and
    arrives in two packets carrying its first 246 and last 54 bytes at
    offsets 0 and 246 is re-assembled, when the packets come in order, into a
    complete message identical to the original.  When the second packet
    comes first, with nothing saved, it is rejected for its offset and
    leaves the re-assembly state as it was, and the two packets, then
    received in order, are re-assembled as before. *)
Theorem two_frame_reassembly (a : applespi_data) (msg p1 p2 : list Z)
    (sts : Z) :
  length msg = 300%nat -> valid_message msg -> saved_msg_len a = 0 ->
  carries p1 0 54 (firstn 246 msg) -> carries p2 246 0 (skipn 246 msg) ->
  (let '(a1, v1, _) := applespi_got_data a p1 sts in
   let '(a2, v2, _) := applespi_got_data a1 p2 sts in
   v1 = Incomplete /\ v2 = Complete msg /\ saved_msg_len a2 = 0) /\
  (let '(a0, v0, _) := applespi_got_data a p2 sts in
   (v0 = UnexpectedOffset /\
    saved_msg_len a0 = saved_msg_len a /\ msg_buf a0 = msg_buf a) /\
   let '(a1, v1, _) := applespi_got_data a0 p1 sts in
   let '(a2, v2, _) := applespi_got_data a1 p2 sts in
   v1 = Incomplete /\ v2 = Complete msg /\ saved_msg_len a2 = 0).
Proof.
  intros Hlen Hvalid Hs H1 H2.
  split; [apply two_frames_in_order; assumption|].
  pose proof (got_data_unexpected_offset a p2 (skipn 246 msg) 246 0 sts)
    as Hrej.
  destruct (applespi_got_data a p2 sts) as [[a0 v0] effs0].
  assert (Hl2 : length (skipn 246 msg) = 54%nat)
    by (rewrite length_skipn; lia).
  destruct Hrej as (Hv & Hs0 & Hm0); try assumption; try lia.
  split; [auto|].
  apply two_frames_in_order; try assumption. congruence.
Qed.

Lemma two_frame_reassembly_witness :
  length msgA = 300%nat /\ valid_message msgA /\
  saved_msg_len applespi_zero = 0 /\
  carries frameA1 0 54 (firstn 246 msgA) /\
  carries frameA2 246 0 (skipn 246 msgA) /\
  (let '(a1, v1, _) := applespi_got_data applespi_zero frameA1 0 in
   let '(a2, v2, _) := applespi_got_data a1 frameA2 0 in
   v1 = Incomplete /\ v2 = Complete msgA /\ saved_msg_len a2 = 0) /\
  (let '(a0, v0, _) := applespi_got_data applespi_zero frameA2 0 in
   (v0 = UnexpectedOffset /\
    saved_msg_len a0 = saved_msg_len applespi_zero /\
    msg_buf a0 = msg_buf applespi_zero) /\
   let '(a1, v1, _) := applespi_got_data a0 frameA1 0 in
   let '(a2, v2, _) := applespi_got_data a1 frameA2 0 in
   v1 = Incomplete /\ v2 = Complete msgA /\ saved_msg_len a2 = 0).
Proof.
  assert (Hlen : length msgA = 300%nat) by reflexivity.
  assert (Hvalid : valid_message msgA) by (split; vm_compute; reflexivity).
  assert (H1 : carries frameA1 0 54 (firstn 246 msgA))
    by (repeat split; vm_compute; reflexivity).
  assert (H2 : carries frameA2 246 0 (skipn 246 msgA))
    by (repeat split; vm_compute; reflexivity).
  split; [exact Hlen|]. split; [exact Hvalid|]. split; [reflexivity|].
  split; [exact H1|]. split; [exact H2|].
  exact (two_frame_reassembly applespi_zero msgA frameA1 frameA2 0
           Hlen Hvalid eq_refl H1 H2).
Defined.

Lemma bytes_eqb_false (l1 l2 : list Z) : bytes_eqb l1 l2 = false -> l1 <> l2.
Proof.
  unfold bytes_eqb. destruct (list_eq_dec Z.eq_dec l1 l2); congruence.
Qed.

(** C2 fails on the code.  With the first packet of [msgA] saved (246
    bytes), a packet rejected for its offset, for its length field or for
    the size it announces leaves [saved_msg_len] at 246 and [msg_buf] as it
    was.  The next exchange, [msgB] in two packets, then goes wrong: its
    first packet is rejected (offset 0 is not 246), and its second packet is
    taken as the continuation of [msgA]'s first.  What passes the two checks
    and goes to the handler is a message the device never sent. *)
Theorem rejected_packet_keeps_fragment :
  let s1 := rx_state applespi_zero frameA1 in
  (rx_verdict_of applespi_zero frameA1 = Incomplete /\
   saved_msg_len s1 = 246) /\
  (rx_verdict_of s1 stray = UnexpectedOffset /\
   saved_msg_len (rx_state s1 stray) = 246 /\
   msg_buf (rx_state s1 stray) = msg_buf s1) /\
  (rx_verdict_of s1 oversized = InvalidPacketLength /\
   saved_msg_len (rx_state s1 oversized) = 246) /\
  (rx_verdict_of s1 overlong = MessageTooLarge /\
   saved_msg_len (rx_state s1 overlong) = 246) /\
  let s2 := rx_state s1 stray in
  let s3 := rx_state s2 frameB1 in
  let chimera := firstn 246 msgA ++ skipn 246 msgB in
  valid_message msgB /\ length msgB = 300%nat /\
  rx_verdict_of s2 frameB1 = UnexpectedOffset /\
  rx_verdict_of s3 frameB2 = Complete chimera /\
  chimera <> msgA /\ chimera <> msgB.
Proof.
  cbv zeta.
  split; [split; vm_compute; reflexivity|].
  split; [repeat split; vm_compute; reflexivity|].
  split; [repeat split; vm_compute; reflexivity|].
  split; [repeat split; vm_compute; reflexivity|].
  split; [split; vm_compute; reflexivity|].
  split; [reflexivity|].
  split; [vm_compute; reflexivity|].
  split; [vm_compute; reflexivity|].
  split; apply bytes_eqb_false; vm_compute; reflexivity.
Qed.

(** * Further properties of the protocol engine *)

(** ** Single-packet messages *)

Lemma got_data_single_packet (a : applespi_data) (p payload : list Z)
    (sts : Z) :
  carries p 0 0 payload -> (length payload <= 246)%nat ->
  applespi_got_data a p sts
  = got_data_verify a p sts (pkt_data p) (Z.of_nat (length payload)) false.
Proof.
  intros (Hcrc & Hoff & Hrem & Hlen & Hdata) Hl.
  unfold applespi_got_data. rewrite Hcrc. cbn [negb]. cbv zeta.
  rewrite Hoff, Hrem, Hlen. unfold_sizes.
  destruct (Z.gtb_spec (Z.of_nat (length payload)) 246); [lia|].
  reflexivity.
Qed.

(** A message that lies in the packet's data area is handled without a
    write to [msg_buf]. *)
Lemma got_data_handle_msg_buf (a : applespi_data) (rx : list Z) (sts : Z)
    (base : list Z) (msg_len : Z) :
  let '(a1, _, _) := got_data_handle a rx sts base msg_len false in
  msg_buf a1 = msg_buf a.
Proof.
  unfold got_data_handle. cbv zeta.
  repeat match goal with
         | |- context [if ?b then _ else _] => destruct b
         end;
    match goal with
    | |- context [got_data_cleanup ?x rx sts ?v ?h] =>
        pose proof (got_data_cleanup_result x rx sts v h) as Hres;
        destruct (got_data_cleanup x rx sts v h) as [[a1 v1] effs1];
        destruct Hres as (_ & _ & Hm); exact Hm
    end.
Qed.

(** The ways out of lines 1385-1395 and what they leave. *)
Lemma got_data_verify_result (a : applespi_data) (rx : list Z) (sts : Z)
    (base : list Z) (msg_len : Z) (in_msg_buf : bool) :
  let '(a1, v, _) := got_data_verify a rx sts base msg_len in_msg_buf in
  saved_msg_len a1 = 0 /\
  (in_msg_buf = false -> msg_buf a1 = msg_buf a) /\
  v = if negb (msg_length base =? u32 (msg_len - MSG_HEADER_SIZE - 2))
      then InvalidMessageLength
      else if negb (applespi_verify_crc (firstn (Z.to_nat msg_len) base))
      then MessageCrcMismatch
      else Complete (firstn (Z.to_nat msg_len) base).
Proof.
  unfold got_data_verify. cbv zeta.
  destruct (negb (msg_length base =? u32 (msg_len - MSG_HEADER_SIZE - 2))).
  { pose proof (got_data_cleanup_result (set_saved_msg_len 0 a) rx sts
                  InvalidMessageLength []) as Hres.
    destruct (got_data_cleanup _ rx sts InvalidMessageLength [])
      as [[a1 v1] effs1].
    destruct Hres as (-> & Hs & Hm). auto. }
  destruct (negb (applespi_verify_crc (firstn (Z.to_nat msg_len) base))).
  { pose proof (got_data_cleanup_result (set_saved_msg_len 0 a) rx sts
                  MessageCrcMismatch []) as Hres.
    destruct (got_data_cleanup _ rx sts MessageCrcMismatch [])
      as [[a1 v1] effs1].
    destruct Hres as (-> & Hs & Hm). auto. }
  pose proof (got_data_handle_result (set_saved_msg_len 0 a) rx sts base
                msg_len in_msg_buf) as Hres.
  pose proof (got_data_handle_msg_buf (set_saved_msg_len 0 a) rx sts base
                msg_len) as Hbuf.
  destruct in_msg_buf;
    destruct (got_data_handle _ rx sts base msg_len _) as [[a1 v1] effs1];
    destruct Hres as (-> & Hs); repeat split; auto; discriminate.
Qed.

(** A valid message in one packet is delivered as it is. *)
Lemma got_data_single_valid (a : applespi_data) (p payload : list Z)
    (sts : Z) :
  carries p 0 0 payload -> (length payload <= 246)%nat ->
  10 <= Z.of_nat (length payload) -> valid_message payload ->
  let '(a', v, _) := applespi_got_data a p sts in
  v = Complete payload /\ saved_msg_len a' = 0.
Proof.
  intros Hc Hl H10 (Hvl & Hvc).
  rewrite (got_data_single_packet _ p payload) by assumption.
  pose proof (got_data_verify_result a p sts (pkt_data p)
                (Z.of_nat (length payload)) false) as Ha.
  destruct (got_data_verify a p sts _ _ false) as [[a' v] effs].
  destruct Ha as (Hs & _ & ->). split; [|exact Hs].
  destruct Hc as (_ & _ & _ & _ & Hdata).
  rewrite Nat2Z.id, Hdata.
  rewrite <- (msg_length_firstn (length payload)) by lia.
  rewrite Hdata, Hvl. unfold u32, MSG_HEADER_SIZE.
  rewrite Z.mod_small by lia. rewrite Z.eqb_refl, Hvc. reflexivity.
Qed.

(** *** What reaches the handlers *)

Lemma handler_calls_app (l1 l2 : list effect) :
  handler_calls (l1 ++ l2) = handler_calls l1 ++ handler_calls l2.
Proof. apply filter_app. Qed.

Lemma msg_complete_no_calls (a : applespi_data) (w r : bool) (sts : Z) :
  let '(_, effs) := applespi_msg_complete a w r sts in
  handler_calls effs = [].
Proof.
  destruct w.
  - rewrite msg_complete_write. cbv zeta.
    match goal with
    | |- context [applespi_send_cmd_msg ?b sts] =>
        pose proof (send_cmd_msg_effects b sts) as Hs;
        destruct (applespi_send_cmd_msg b sts) as [[a3 ret] effs]
    end.
    rewrite handler_calls_app.
    destruct Hs as [[-> _]|(p & -> & _)]; destruct (drain a); reflexivity.
  - unfold applespi_msg_complete. cbv zeta. split_ifs; reflexivity.
Qed.

Lemma got_data_cleanup_calls (a : applespi_data) (rx : list Z) (sts : Z)
    (v : rx_verdict) (handled : list effect) :
  let '(_, _, effs) := got_data_cleanup a rx sts v handled in
  handler_calls effs = handler_calls handled.
Proof.
  unfold got_data_cleanup.
  pose proof (msg_complete_no_calls a (pkt_flags rx =? PACKET_TYPE_WRITE)
                true sts) as H.
  destruct (applespi_msg_complete a _ true sts) as [a1 effs].
  rewrite handler_calls_app, H. apply app_nil_r.
Qed.

(** Lines 1397-1426 hand a message to the handler its packet names. *)
Lemma got_data_handle_delivers (a : applespi_data) (rx : list Z) (sts : Z)
    (base msg : list Z) (msg_len : Z) (in_msg_buf : bool) :
  firstn (Z.to_nat msg_len) base = msg ->
  Z.to_nat msg_len = length msg ->
  msg_length msg = Z.of_nat (length msg) - MSG_HEADER_SIZE - 2 ->
  10 <= Z.of_nat (length msg) ->
  let '(_, _, effs) := got_data_handle a rx sts base msg_len in_msg_buf in
  delivered_to_handler rx msg effs.
Proof.
  intros Hmsg Hlen Hvl H10.
  assert (Hml : msg_length base = msg_length msg).
  { rewrite <- Hmsg. symmetry. apply msg_length_firstn. lia. }
  unfold got_data_handle. cbv zeta. rewrite Hmsg, Hml.
  unfold delivered_to_handler.
  destruct (Z.eqb_spec (pkt_flags rx) PACKET_TYPE_READ) as [Hr|Hr];
    cbn [andb].
  - destruct (Z.eqb_spec (pkt_device rx) PACKET_DEV_KEYB) as [Hk|Hk].
    + pose proof (got_data_cleanup_calls a rx sts (Complete msg)
                    [HandleKeyboardEvent msg]) as Hc.
      destruct (got_data_cleanup a rx sts _ _) as [[a1 v1] effs1].
      split; [intros _ _; exact Hc|].
      split; [intros _ Ht; rewrite Hk in Ht; discriminate|].
      intros Hw. rewrite Hr in Hw. discriminate.
    + destruct (Z.eqb_spec (pkt_device rx) PACKET_DEV_TPAD) as [Ht|Ht].
      * assert (Hnf : msg_length msg + 2
                      = TOUCHPAD_PROTOCOL_SIZE
                        + tp_number_of_fingers msg * TP_FINGER_SIZE ->
                      tp_number_of_fingers base = tp_number_of_fingers msg).
        { intros Hfit. unfold tp_number_of_fingers. rewrite <- Hmsg.
          symmetry. apply nth_firstn_lt.
          destruct (Nat.lt_ge_cases 38 (Z.to_nat msg_len)) as [Hlt|Hge];
            [exact Hlt|].
          exfalso. revert Hfit. unfold tp_number_of_fingers.
          rewrite nth_overflow by lia.
          unfold TOUCHPAD_PROTOCOL_SIZE, TP_FINGER_SIZE, MSG_HEADER_SIZE in *.
          lia. }
        destruct (Z.eqb_spec (msg_length msg + 2)
                    (TOUCHPAD_PROTOCOL_SIZE
                     + tp_number_of_fingers base * TP_FINGER_SIZE))
          as [Hfit'|Hfit']; cbn [negb].
        2:{ destruct (got_data_cleanup a rx sts _ _) as [[a1 v1] effs1].
            split; [intros _ Hk'; contradiction|].
            split; [|intros Hw; rewrite Hr in Hw; discriminate].
            intros _ _ Hfit Hmax. rewrite (Hnf Hfit) in Hfit'.
            contradiction. }
        destruct (Z.gtb_spec (tp_number_of_fingers base) MAX_FINGERS)
          as [Hgt|Hle].
        { destruct (got_data_cleanup _ rx sts _ _) as [[a1 v1] effs1].
          split; [intros _ Hk'; contradiction|].
          split; [|intros Hw; rewrite Hr in Hw; discriminate].
          intros _ _ Hfit Hmax. rewrite (Hnf Hfit) in Hgt. lia. }
        pose proof (got_data_cleanup_calls a rx sts (Complete msg)
                      [ReportTpState msg]) as Hc.
        destruct (got_data_cleanup a rx sts _ _) as [[a1 v1] effs1].
        split; [intros _ Hk'; contradiction|].
        split; [|intros Hw; rewrite Hr in Hw; discriminate].
        intros _ _ _ _. exact Hc.
      * assert (Hw : (pkt_flags rx =? PACKET_TYPE_WRITE) = false)
          by (rewrite Hr; reflexivity).
        rewrite Hw.
        destruct (got_data_cleanup a rx sts _ _) as [[a1 v1] effs1].
        split; [intros _ Hk'; contradiction|].
        split; [intros _ Ht'; contradiction|].
        intros Hw'. rewrite Hr in Hw'. discriminate.
  - destruct (Z.eqb_spec (pkt_flags rx) PACKET_TYPE_WRITE) as [Hw|Hw].
    + pose proof (got_data_cleanup_calls a rx sts (Complete msg)
                    [HandleCmdResponse msg]) as Hc.
      destruct (got_data_cleanup a rx sts _ _) as [[a1 v1] effs1].
      split; [intros Hr'; contradiction|].
      split; [intros Hr'; contradiction|].
      intros _. exact Hc.
    + destruct (got_data_cleanup a rx sts _ _) as [[a1 v1] effs1].
      split; [intros Hr'; contradiction|].
      split; [intros Hr'; contradiction|].
      intros Hw'. contradiction.
Qed.

(** A valid message in one packet goes to the handler its packet names. *)
Lemma got_data_single_delivers (a : applespi_data) (p payload : list Z)
    (sts : Z) :
  carries p 0 0 payload -> (length payload <= 246)%nat ->
  10 <= Z.of_nat (length payload) -> valid_message payload ->
  let '(_, _, effs) := applespi_got_data a p sts in
  delivered_to_handler p payload effs.
Proof.
  intros Hc Hl H10 (Hvl & Hvc).
  rewrite (got_data_single_packet _ p payload) by assumption.
  destruct Hc as (_ & _ & _ & _ & Hdata).
  unfold got_data_verify. cbv zeta. rewrite Nat2Z.id, Hdata.
  rewrite <- (msg_length_firstn (length payload)) by lia.
  rewrite Hdata, Hvl. unfold u32, MSG_HEADER_SIZE.
  rewrite Z.mod_small by lia. rewrite Z.eqb_refl, Hvc. cbn [negb].
  apply got_data_handle_delivers; try assumption.
  - rewrite Nat2Z.id. exact Hdata.
  - apply Nat2Z.id.
Qed.

(** A packet that is a whole message (offset 0, nothing remaining) is
    processed without regard to the re-assembly under way: its verdict is the
    same in every state, [msg_buf] is not touched, and [saved_msg_len] is 0
    afterwards, so that a message that was being re-assembled is dropped.  If
    the payload is a valid message of at least 10 bytes, it passes the
    checks and goes unchanged to the handler the packet names, and to no
    other: the keyboard handler, the command-response handler, or (when its
    length is that of its at most [MAX_FINGERS] fingers) the touchpad
    handler. *)
Theorem single_packet_resets_reassembly (a b : applespi_data)
    (p payload : list Z) (sts sts' : Z) :
  carries p 0 0 payload -> (length payload <= 246)%nat ->
  let '(a', v, effs) := applespi_got_data a p sts in
  saved_msg_len a' = 0 /\ msg_buf a' = msg_buf a /\
  v = snd (fst (applespi_got_data b p sts')) /\
  (10 <= Z.of_nat (length payload) -> valid_message payload ->
   v = Complete payload /\ delivered_to_handler p payload effs).
Proof.
  intros Hc Hl.
  pose proof (got_data_single_valid a p payload sts Hc Hl) as Hvalid.
  pose proof (got_data_single_delivers a p payload sts Hc Hl) as Hdeliv.
  rewrite !(got_data_single_packet _ p payload) in * by assumption.
  pose proof (got_data_verify_result a p sts (pkt_data p)
                (Z.of_nat (length payload)) false) as Ha.
  pose proof (got_data_verify_result b p sts' (pkt_data p)
                (Z.of_nat (length payload)) false) as Hb.
  destruct (got_data_verify a p sts _ _ false) as [[a' v] effs].
  destruct (got_data_verify b p sts' _ _ false) as [[b' w] effs'].
  destruct Ha as (Hs & Hm & Hv). destruct Hb as (_ & _ & Hw).
  split; [exact Hs|]. split; [auto|]. split; [cbn; congruence|].
  intros H10 Hv'. split; [apply Hvalid; assumption|].
  apply Hdeliv; assumption.
Qed.

Lemma single_packet_resets_reassembly_witness :
  let a := rx_state applespi_zero frameA1 in
  carries keyboard_frame 0 0 keyboard_report /\
  (length keyboard_report <= 246)%nat /\
  saved_msg_len a = 246 /\
  let '(a', v, effs) := applespi_got_data a keyboard_frame 0 in
  saved_msg_len a' = 0 /\ v = Complete keyboard_report /\
  handler_calls effs = [HandleKeyboardEvent keyboard_report].
Proof.
  assert (Hc : carries keyboard_frame 0 0 keyboard_report)
    by (repeat split; vm_compute; reflexivity).
  assert (Hl : (length keyboard_report <= 246)%nat) by (cbn; lia).
  split; [exact Hc|]. split; [exact Hl|].
  split; [vm_compute; reflexivity|].
  pose proof (single_packet_resets_reassembly
                (rx_state applespi_zero frameA1) applespi_zero
                keyboard_frame keyboard_report 0 0 Hc Hl) as H.
  destruct (applespi_got_data (rx_state applespi_zero frameA1)
              keyboard_frame 0) as [[a' v] effs].
  destruct H as (Hs & _ & _ & Hv). split; [exact Hs|].
  destruct Hv as [Hv Hd]; [cbn; lia | split; vm_compute; reflexivity|].
  split; [exact Hv|]. apply Hd; vm_compute; reflexivity.
Defined.

(** ** The packets the driver builds *)

Lemma encode_packet_framing (k : cmd_kind) (a : applespi_data) (n : Z) :
  encode_message (command_of k a) n
  = mk_message (cmd_type (command_of k a)) n
      (cmd_msg_len (command_of k a) - 2) (cmd_body (command_of k a)) /\
  encode_packet (command_of k a) n
  = mk_packet PACKET_TYPE_WRITE (cmd_device (command_of k a)) 0 0
      (encode_message (command_of k a) n).
Proof. destruct k; split; reflexivity. Qed.

Lemma length_encode_message (k : cmd_kind) (a : applespi_data) (n : Z) :
  (12 <= length (encode_message (command_of k a) n) <= 16)%nat.
Proof. destruct k; cbn; lia. Qed.

(** The two codecs of the driver agree: the packet [applespi_send_cmd_msg]
    hands to the bus has 256 bytes and a right packet crc, and
    [applespi_got_data], given that packet in any state, finds in it a
    complete message, the one that was built, which passes the length and
    crc checks. *)
Theorem command_packet_loopback (a b : applespi_data) (sts sts' : Z) :
  drain a = false -> cmd_msg_queued a = false -> spec_next_kind a <> None ->
  let '(_, _, effs) := applespi_send_cmd_msg a sts in
  exists p m,
    effs = [SpiAsyncWrite p sts] /\ length p = 256%nat /\
    applespi_verify_crc p = true /\ valid_message m /\
    let '(b', v, _) := applespi_got_data b p sts' in
    v = Complete m /\ saved_msg_len b' = 0.
Proof.
  intros Hd Hq Hk. rewrite send_cmd_msg_served by assumption.
  destruct (spec_next_kind a) as [k|]; [clear Hk | congruence]. cbv zeta.
  set (n := Z.land (cmd_msg_cntr a) 255).
  destruct (encode_packet_framing k a n) as [Hmsg Hpkt].
  pose proof (length_encode_message k a n) as Hlen.
  assert (Hvalid : valid_message (encode_message (command_of k a) n)).
  { rewrite Hmsg. apply mk_message_valid. destruct k; cbn; lia. }
  assert (Hc : carries (encode_packet (command_of k a) n) 0 0
                 (encode_message (command_of k a) n)).
  { rewrite Hpkt. apply mk_packet_carries; lia. }
  exists (encode_packet (command_of k a) n),
         (encode_message (command_of k a) n).
  split; [reflexivity|].
  assert (Hl256 : length (encode_packet (command_of k a) n) = 256%nat).
  { rewrite Hpkt. unfold mk_packet, with_crc.
    rewrite !length_app, length_pad_to by lia. reflexivity. }
  split; [exact Hl256|]. split.
  - destruct Hc as (Hcrc & _). rewrite firstn_all2 in Hcrc; [exact Hcrc|].
    rewrite Hl256. cbn. lia.
  - split; [exact Hvalid|].
    apply got_data_single_valid; try assumption; lia.
Qed.

Lemma command_packet_loopback_witness :
  drain all_pending = false /\ cmd_msg_queued all_pending = false /\
  spec_next_kind all_pending <> None /\
  let '(_, _, effs) := applespi_send_cmd_msg all_pending 0 in
  exists p m,
    effs = [SpiAsyncWrite p 0] /\ length p = 256%nat /\
    applespi_verify_crc p = true /\ valid_message m /\
    let '(b', v, _) := applespi_got_data applespi_zero p 0 in
    v = Complete m /\ saved_msg_len b' = 0.
Proof.
  split; [reflexivity|]. split; [reflexivity|].
  split; [cbn; discriminate|].
  apply (command_packet_loopback all_pending applespi_zero 0 0);
    [reflexivity | reflexivity | cbn; discriminate].
Defined.

(** ** Re-assembly of a message in any number of packets *)

(** A packet of a message that goes on: its data is copied to [msg_buf] at
    its offset and the function returns to wait for the next. *)
Lemma got_data_middle_fragment (a : applespi_data) (p payload : list Z)
    (off rem sts : Z) :
  carries p off rem payload -> 0 <= off -> 0 < rem -> off + rem <= 512 ->
  off + Z.of_nat (length payload) <= 512 ->
  (length payload <= 246)%nat -> saved_msg_len a = off ->
  applespi_got_data a p sts
  = (set_saved_msg_len (off + Z.of_nat (length payload))
       (set_msg_buf (memcpy_at (msg_buf a) (Z.to_nat off) payload) a),
     Incomplete, []).
Proof.
  intros (Hcrc & Hoff & Hrem & Hlen & Hdata) Ho Hr Hor Hol Hl Hs.
  unfold applespi_got_data. rewrite Hcrc. cbn [negb]. cbv zeta.
  rewrite Hoff, Hrem, Hlen, Hs, Nat2Z.id, Hdata. unfold_sizes.
  destruct (Z.gtb_spec (Z.of_nat (length payload)) 246); [lia|].
  destruct (Z.gtb_spec rem 0); [|lia]. cbn [orb].
  rewrite Z.eqb_refl. cbn [negb].
  destruct (Z.gtb_spec (off + rem) (2 * 256)); [lia|].
  destruct (Z.gtb_spec (off + Z.of_nat (length payload)) (2 * 256)); [lia|].
  reflexivity.
Qed.

Lemma firstn_memcpy_at (buf done c : list Z) :
  firstn (length done) buf = done ->
  firstn (length (done ++ c)) (memcpy_at buf (length done) c) = done ++ c.
Proof.
  intros Hdone. unfold memcpy_at. rewrite Hdone, app_assoc.
  rewrite firstn_app, Nat.sub_diag. cbn [firstn].
  rewrite app_nil_r. apply firstn_all.
Qed.

(** The last packet of a message in several packets hands the whole to the
    handler it names. *)
Lemma got_data_last_delivers (a : applespi_data) (p payload msg : list Z)
    (off sts : Z) :
  carries p off 0 payload -> 0 < off -> saved_msg_len a = off ->
  (length payload <= 246)%nat ->
  Z.of_nat (length msg) = off + Z.of_nat (length payload) ->
  10 <= Z.of_nat (length msg) <= 512 ->
  firstn (length msg) (memcpy_at (msg_buf a) (Z.to_nat off) payload) = msg ->
  valid_message msg ->
  let '(_, _, effs) := applespi_got_data a p sts in
  delivered_to_handler p msg effs.
Proof.
  intros (Hcrc & Hoff & Hrem & Hlen & Hdata) Ho Hs Hl Htot Hsz Hbuf
    (Hvlen & Hvcrc).
  unfold applespi_got_data. rewrite Hcrc. cbn [negb]. cbv zeta.
  rewrite Hoff, Hrem, Hlen, Hs, Nat2Z.id, Hdata. unfold_sizes.
  repeat decide_cond. cbn [orb negb].
  unfold got_data_verify. state_simpl. cbv zeta.
  rewrite <- Htot, Nat2Z.id.
  rewrite <- (msg_length_firstn (length msg)) by lia.
  rewrite Hbuf, Hvlen. unfold u32, MSG_HEADER_SIZE.
  rewrite Z.mod_small by lia. rewrite Z.eqb_refl, Hvcrc. cbn [negb].
  apply got_data_handle_delivers.
  - rewrite Nat2Z.id. exact Hbuf.
  - apply Nat2Z.id.
  - exact Hvlen.
  - lia.
Qed.

Lemma rx_run_in_order (chunks : list (list Z)) :
  forall (done : list Z) (a : applespi_data) (ps : list (list Z)) (sts : Z),
    chunks <> [] ->
    Forall (fun c => (0 < length c <= 246)%nat) chunks ->
    carried_in_order (Z.of_nat (length done)) chunks ps ->
    saved_msg_len a = Z.of_nat (length done) ->
    firstn (length done) (msg_buf a) = done ->
    (0 < length done \/ 2 <= length chunks)%nat ->
    valid_message (done ++ concat chunks) ->
    10 <= Z.of_nat (length (done ++ concat chunks)) <= 512 ->
    let '(a', vs, effs) := rx_run a ps sts in
    vs = repeat Incomplete (length chunks - 1)
         ++ [Complete (done ++ concat chunks)] /\
    saved_msg_len a' = 0 /\
    delivered_to_handler (last ps []) (done ++ concat chunks) effs.
Proof.
  induction chunks as [|c cs IH]; intros done a ps sts Hne Hall Hcar Hs Hbuf
    Hpos Hvalid Hsz; [congruence|].
  destruct ps as [|p ps]; [contradiction|].
  destruct Hcar as [Hc Hcar].
  apply Forall_cons_iff in Hall. destruct Hall as [Hlc Hall].
  cbn [rx_run]. cbn [concat] in *.
  destruct cs as [|c2 cs].
  - (* the last packet *)
    destruct ps as [|? ?]; [|contradiction].
    cbn [concat length] in *. rewrite app_nil_r in *.
    pose proof (got_data_last_fragment a p c (done ++ c)
                  (Z.of_nat (length done)) sts) as Hlast.
    pose proof (got_data_last_delivers a p c (done ++ c)
                  (Z.of_nat (length done)) sts) as Hdeliv.
    destruct (applespi_got_data a p sts) as [[a1 v] effs].
    cbn [rx_run length Nat.sub repeat app last]. rewrite app_nil_r.
    assert (Hlen : Z.of_nat (length (done ++ c))
                   = Z.of_nat (length done) + Z.of_nat (length c))
      by (rewrite length_app; lia).
    assert (Hfirst : firstn (length (done ++ c))
                       (memcpy_at (msg_buf a)
                          (Z.to_nat (Z.of_nat (length done))) c) = done ++ c)
      by (rewrite Nat2Z.id; apply firstn_memcpy_at; exact Hbuf).
    destruct Hlast as [-> Hs1]; try assumption; try lia.
    split; [reflexivity|]. split; [exact Hs1|].
    apply Hdeliv; try assumption; lia.
  - (* a packet with more to come *)
    assert (Hc2 : (0 < length c2)%nat).
    { apply Forall_cons_iff in Hall. lia. }
    assert (Hlen : Z.of_nat (length (done ++ c ++ concat (c2 :: cs)))
                   = Z.of_nat (length done) + Z.of_nat (length c)
                     + Z.of_nat (length (concat (c2 :: cs))))
      by (rewrite !length_app; lia).
    assert (Hrem : 0 < Z.of_nat (length (concat (c2 :: cs))))
      by (cbn [concat]; rewrite length_app; lia).
    rewrite (got_data_middle_fragment a p c (Z.of_nat (length done))
               (Z.of_nat (length (concat (c2 :: cs)))) sts)
      by (try assumption; lia).
    destruct ps as [|p2 ps]; [contradiction|].
    match goal with
    | |- context [rx_run ?a1 (p2 :: ps) sts] =>
        pose proof (IH (done ++ c) a1 (p2 :: ps) sts) as IH1
    end.
    rewrite <- app_assoc in IH1.
    destruct (rx_run _ (p2 :: ps) sts) as [[a2 vs] effs].
    destruct IH1 as (-> & Hs2 & Hd); try assumption; try discriminate.
    + rewrite length_app, Nat2Z.inj_add. exact Hcar.
    + state_simpl. rewrite length_app. lia.
    + state_simpl. rewrite Nat2Z.id. apply firstn_memcpy_at. exact Hbuf.
    + left. rewrite length_app. lia.
    + split; [|split; [exact Hs2 | exact Hd]].
      cbn [length Nat.sub]. rewrite Nat.sub_0_r. reflexivity.
Qed.

(** A valid message of 10 to 512 bytes that arrives in two or more packets,
    each carrying the next chunk (of 1 to 246 bytes) at its offset and
    announcing what remains, is re-assembled: every packet but the last
    leaves the function waiting and calls no handler, and the last finds the
    message, the concatenation of the chunks, resets the saved length and
    hands the message unchanged to the handler that packet names, and to no
    other: the keyboard handler, the command-response handler, or (when its
    length is that of its at most [MAX_FINGERS] fingers) the touchpad
    handler. *)
Theorem in_order_reassembly (a : applespi_data) (chunks ps : list (list Z))
    (sts : Z) :
  (2 <= length chunks)%nat ->
  Forall (fun c => (0 < length c <= 246)%nat) chunks ->
  carried_in_order 0 chunks ps -> saved_msg_len a = 0 ->
  valid_message (concat chunks) ->
  10 <= Z.of_nat (length (concat chunks)) <= 512 ->
  let '(a', vs, effs) := rx_run a ps sts in
  vs = repeat Incomplete (length chunks - 1) ++ [Complete (concat chunks)] /\
  saved_msg_len a' = 0 /\
  delivered_to_handler (last ps []) (concat chunks) effs.
Proof.
  intros Hn Hall Hcar Hs Hvalid Hsz.
  apply (rx_run_in_order chunks [] a ps sts); auto.
  intros ->. cbn in Hn. lia.
Qed.

Lemma in_order_reassembly_witness :
  (2 <= length long_chunks)%nat /\
  Forall (fun c => (0 < length c <= 246)%nat) long_chunks /\
  carried_in_order 0 long_chunks long_frames /\
  valid_message (concat long_chunks) /\
  10 <= Z.of_nat (length (concat long_chunks)) <= 512 /\
  let '(a', vs, effs) := rx_run applespi_zero long_frames 0 in
  vs = [Incomplete; Incomplete; Complete (concat long_chunks)] /\
  saved_msg_len a' = 0 /\
  handler_calls effs = [HandleKeyboardEvent (concat long_chunks)].
Proof.
  assert (H2 : (2 <= length long_chunks)%nat) by (cbn; lia).
  assert (Hall : Forall (fun c => (0 < length c <= 246)%nat) long_chunks).
  { repeat constructor; vm_compute; lia. }
  assert (Hcar : carried_in_order 0 long_chunks long_frames).
  { repeat split; vm_compute; reflexivity. }
  assert (Hvalid : valid_message (concat long_chunks))
    by (split; vm_compute; reflexivity).
  assert (Hsz : 10 <= Z.of_nat (length (concat long_chunks)) <= 512)
    by (vm_compute; split; discriminate).
  split; [exact H2|]. split; [exact Hall|]. split; [exact Hcar|].
  split; [exact Hvalid|]. split; [exact Hsz|].
  pose proof (in_order_reassembly applespi_zero long_chunks long_frames 0
                H2 Hall Hcar eq_refl Hvalid Hsz) as H.
  destruct (rx_run applespi_zero long_frames 0) as [[a' vs] effs].
  destruct H as (Hv & Hs & Hd).
  split; [exact Hv|]. split; [exact Hs|].
  apply Hd; vm_compute; reflexivity.
Defined.

(** ** The buffers *)

Lemma nth_in_range (l : list Z) (i : nat) :
  bytes_in_range l -> 0 <= nth i l 0 < 256.
Proof.
  intros Hl. destruct (nth_in_or_default i l 0) as [Hin| ->]; [|lia].
  unfold bytes_in_range in Hl. rewrite Forall_forall in Hl. auto.
Qed.

Lemma le16_at_range (l : list Z) (i : nat) :
  bytes_in_range l -> 0 <= le16_at l i < 65536.
Proof.
  intros Hl. unfold le16_at.
  pose proof (nth_in_range l i Hl). pose proof (nth_in_range l (S i) Hl).
  lia.
Qed.

Lemma bytes_in_range_firstn (n : nat) (l : list Z) :
  bytes_in_range l -> bytes_in_range (firstn n l).
Proof.
  intros H. unfold bytes_in_range in *.
  rewrite <- (firstn_skipn n l) in H. apply Forall_app in H. tauto.
Qed.

Lemma bytes_in_range_skipn (n : nat) (l : list Z) :
  bytes_in_range l -> bytes_in_range (skipn n l).
Proof.
  intros H. unfold bytes_in_range in *.
  rewrite <- (firstn_skipn n l) in H. apply Forall_app in H. tauto.
Qed.

Lemma bytes_in_range_memcpy_at (buf src : list Z) (off : nat) :
  bytes_in_range buf -> bytes_in_range src ->
  bytes_in_range (memcpy_at buf off src).
Proof.
  intros Hb Hs. unfold memcpy_at, bytes_in_range.
  rewrite !Forall_app. split; [|split].
  - apply bytes_in_range_firstn. exact Hb.
  - exact Hs.
  - apply bytes_in_range_skipn. exact Hb.
Qed.

(** A copy that ends within the buffer leaves its size as it is. *)
Lemma length_memcpy_at (buf src : list Z) (off : nat) :
  (off + length src <= length buf)%nat ->
  length (memcpy_at buf off src) = length buf.
Proof.
  intros H. unfold memcpy_at.
  rewrite !length_app, length_firstn, length_skipn. lia.
Qed.

Lemma length_pkt_data (rx : list Z) :
  length rx = 256%nat -> length (pkt_data rx) = 246%nat.
Proof.
  intros H. unfold pkt_data. change (Z.to_nat PACKET_DATA_SIZE) with 246%nat.
  rewrite length_firstn, length_skipn. lia.
Qed.

Lemma bytes_in_range_pkt_data (rx : list Z) :
  bytes_in_range rx -> bytes_in_range (pkt_data rx).
Proof.
  intros H. unfold pkt_data.
  apply bytes_in_range_firstn, bytes_in_range_skipn, H.
Qed.

Lemma length_encode_packet (k : cmd_kind) (a : applespi_data) (n : Z) :
  length (encode_packet (command_of k a) n) = 256%nat.
Proof.
  destruct (encode_packet_framing k a n) as [_ Hp]. rewrite Hp.
  pose proof (length_encode_message k a n).
  unfold mk_packet, with_crc.
  rewrite !length_app, length_pad_to by lia. reflexivity.
Qed.

Lemma send_cmd_msg_buffers (a : applespi_data) (sts : Z) :
  buffers_ok a ->
  let '(a', _, _) := applespi_send_cmd_msg a sts in buffers_ok a'.
Proof.
  intros Hok.
  destruct (drain a) eqn:Hd; [rewrite send_cmd_msg_blocked by auto; auto|].
  destruct (cmd_msg_queued a) eqn:Hq;
    [rewrite send_cmd_msg_blocked by auto; auto|].
  rewrite send_cmd_msg_served by assumption.
  destruct Hok as (Ht & Hm & Hs & Hb).
  destruct (spec_next_kind a) as [k|].
  - cbv zeta. unfold buffers_ok.
    destruct (sts =? 0), k; state_simpl; cbn [mark_served]; state_simpl;
      (split; [apply length_encode_packet|]); auto.
  - unfold buffers_ok. state_simpl. auto.
Qed.

Lemma msg_complete_buffers (a : applespi_data) (w r : bool) (sts : Z) :
  buffers_ok a ->
  let '(a', _) := applespi_msg_complete a w r sts in buffers_ok a'.
Proof.
  intros Hok. destruct w.
  - rewrite msg_complete_write. cbv zeta.
    match goal with
    | |- context [applespi_send_cmd_msg ?b sts] =>
        assert (Hb : buffers_ok b) by (destruct r; exact Hok);
        pose proof (send_cmd_msg_buffers b sts Hb) as Hs;
        destruct (applespi_send_cmd_msg b sts) as [[a3 ret] effs]
    end.
    exact Hs.
  - unfold applespi_msg_complete. destruct r; exact Hok.
Qed.

Lemma got_data_cleanup_buffers (a : applespi_data) (rx : list Z) (sts : Z)
    (v : rx_verdict) (handled : list effect) :
  buffers_ok a ->
  let '(a', _, _) := got_data_cleanup a rx sts v handled in buffers_ok a'.
Proof.
  intros Hok. unfold got_data_cleanup.
  pose proof (msg_complete_buffers a (pkt_flags rx =? PACKET_TYPE_WRITE)
                true sts Hok) as H.
  destruct (applespi_msg_complete a _ true sts) as [a1 effs]. exact H.
Qed.

Lemma got_data_verify_buffers (a : applespi_data) (rx : list Z) (sts : Z)
    (base : list Z) (msg_len : Z) (in_msg_buf : bool) :
  buffers_ok a ->
  let '(a', _, _) := got_data_verify a rx sts base msg_len in_msg_buf in
  buffers_ok a'.
Proof.
  intros (Ht & Hm & Hs & Hb).
  assert (Hok0 : buffers_ok (set_saved_msg_len 0 a)).
  { unfold buffers_ok. state_simpl. repeat split; auto; lia. }
  assert (Hok1 : buffers_ok
                   (set_msg_buf (memcpy_at (msg_buf (set_saved_msg_len 0 a))
                                   38 [MAX_FINGERS])
                      (set_saved_msg_len 0 a))).
  { unfold buffers_ok. state_simpl.
    split; [exact Ht|]. split; [|split; [lia|]].
    - rewrite length_memcpy_at; [exact Hm|]. rewrite Hm. cbn. lia.
    - apply bytes_in_range_memcpy_at; [exact Hb|].
      repeat constructor; unfold MAX_FINGERS; lia. }
  unfold got_data_verify, got_data_handle. cbv zeta.
  repeat match goal with
         | |- context [if ?b then _ else _] => destruct b
         end;
    apply got_data_cleanup_buffers; assumption.
Qed.

Lemma got_data_buffers (a : applespi_data) (rx : list Z) (sts : Z) :
  buffers_ok a -> length rx = 256%nat -> bytes_in_range rx ->
  let '(a', _, _) := applespi_got_data a rx sts in buffers_ok a'.
Proof.
  intros Hok Hlen Hrx. pose proof Hok as (Ht & Hm & Hs & Hb).
  unfold applespi_got_data.
  destruct (negb (applespi_verify_crc _)).
  { destruct (drain a); exact Hok. }
  cbv zeta.
  pose proof (le16_at_range rx 2 Hrx) as Hoff.
  pose proof (le16_at_range rx 4 Hrx) as Hrem.
  pose proof (le16_at_range rx 6 Hrx) as Hl.
  fold (pkt_offset rx) in Hoff. fold (pkt_remaining rx) in Hrem.
  fold (pkt_length rx) in Hl. unfold_sizes.
  destruct (Z.gtb_spec (pkt_length rx) 246);
    [apply got_data_cleanup_buffers; exact Hok|].
  destruct ((pkt_remaining rx >? 0) || (pkt_offset rx >? 0));
    [|apply got_data_verify_buffers; exact Hok].
  destruct (Z.eqb_spec (pkt_offset rx) (saved_msg_len a)) as [Heq|_];
    cbn [negb]; [|apply got_data_cleanup_buffers; exact Hok].
  destruct (Z.gtb_spec (pkt_offset rx + pkt_remaining rx) (2 * 256));
    [apply got_data_cleanup_buffers; exact Hok|].
  destruct (Z.gtb_spec (pkt_offset rx + pkt_length rx) (2 * 256));
    [apply got_data_cleanup_buffers; exact Hok|].
  match goal with
  | |- context [set_saved_msg_len ?n (set_msg_buf ?m a)] =>
      assert (Hok1 : buffers_ok (set_saved_msg_len n (set_msg_buf m a)))
  end.
  { unfold buffers_ok. state_simpl.
    split; [exact Ht|]. split; [|split; [lia|]].
    - rewrite length_memcpy_at; [exact Hm|].
      rewrite length_firstn, length_pkt_data, Hm by assumption. lia.
    - apply bytes_in_range_memcpy_at; [exact Hb|].
      apply bytes_in_range_firstn, bytes_in_range_pkt_data, Hrx. }
  destruct (pkt_remaining rx >? 0); [exact Hok1|].
  apply got_data_verify_buffers. exact Hok1.
Qed.

Lemma step_buffers (a : applespi_data) (e : event) :
  buffers_ok a -> event_ok e -> buffers_ok (fst (step a e)).
Proof.
  intros Hok He.
  destruct e as [sts|status rx sts|status tx_status sts|sts|on sts|value sts];
    cbn [step].
  - unfold applespi_notify. destruct (negb (sts =? 0)); exact Hok.
  - unfold applespi_async_read_complete.
    destruct (status <? 0); [exact Hok|].
    destruct He as [Hlen Hrx].
    pose proof (got_data_buffers a rx sts Hok Hlen Hrx) as H.
    destruct (applespi_got_data a rx sts) as [[a1 v] effs]. exact H.
  - unfold applespi_async_write_complete.
    destruct (negb (applespi_check_write_status tx_status status));
      [|exact Hok].
    pose proof (msg_complete_buffers a true false sts Hok) as H.
    destruct (applespi_msg_complete a true false sts) as [a1 effs]. exact H.
  - unfold applespi_init.
    pose proof (send_cmd_msg_buffers (set_want_init_cmd true a) sts Hok)
      as H.
    destruct (applespi_send_cmd_msg _ sts) as [[a1 ret] effs]. exact H.
  - unfold applespi_set_capsl_led.
    pose proof (send_cmd_msg_buffers (set_want_cl_led_on on a) sts Hok)
      as H.
    destruct (applespi_send_cmd_msg _ sts) as [[a1 ret] effs]. exact H.
  - unfold applespi_set_bl_level.
    pose proof (send_cmd_msg_buffers
                  (set_want_bl_level (device_level value) a) sts Hok) as H.
    destruct (applespi_send_cmd_msg _ sts) as [[a1 ret] effs]. exact H.
Qed.

(** No entry point writes outside the buffers.  From a state whose
    buffers have the sizes allocated at probe (256 bytes of [tx_buffer], 512
    of [msg_buf]) and whose saved length is at most 512, any sequence of
    events in which every read brings 256 bytes leaves the sizes as they
    are (a copy that went past the end of a buffer would change them) and
    the saved length within 0..512. *)
Theorem buffers_stay_in_bounds (a : applespi_data) (es : list event) :
  buffers_ok a -> Forall event_ok es -> buffers_ok (fst (run a es)).
Proof.
  revert a. induction es as [|e es IH]; intros a Hok Hes; [exact Hok|].
  apply Forall_cons_iff in Hes. destruct Hes as [He Hes].
  cbn [run].
  pose proof (step_buffers a e Hok He) as H1.
  destruct (step a e) as [a1 effs1]. cbn [fst] in H1.
  specialize (IH a1 H1 Hes).
  destruct (run a1 es) as [a2 effs2]. exact IH.
Qed.

Lemma bytes_in_range_forallb (l : list Z) :
  forallb (fun b => (0 <=? b) && (b <? 256)) l = true -> bytes_in_range l.
Proof.
  intros H. unfold bytes_in_range. rewrite Forall_forall.
  rewrite forallb_forall in H. intros x Hx. specialize (H x Hx).
  apply andb_true_iff in H. destruct H as [H1 H2].
  apply Z.leb_le in H1. apply Z.ltb_lt in H2. lia.
Qed.

Lemma buffers_stay_in_bounds_witness :
  buffers_ok applespi_zero /\ Forall event_ok sample_events /\
  buffers_ok (fst (run applespi_zero sample_events)).
Proof.
  assert (Hok : buffers_ok applespi_zero).
  { repeat split; try (vm_compute; congruence).
    apply bytes_in_range_forallb. vm_compute. reflexivity. }
  assert (Hes : Forall event_ok sample_events).
  { unfold sample_events.
    constructor; [exact I|].
    constructor;
      [split; [reflexivity|
               apply bytes_in_range_forallb; vm_compute; reflexivity]|].
    constructor;
      [split; [reflexivity|
               apply bytes_in_range_forallb; vm_compute; reflexivity]|].
    constructor. }
  split; [exact Hok|]. split; [exact Hes|].
  exact (buffers_stay_in_bounds applespi_zero sample_events Hok Hes).
Defined.

(** ** What the handlers are given *)

Lemma msg_complete_effect_kinds (a : applespi_data) (w r : bool) (sts : Z) :
  let '(_, effs) := applespi_msg_complete a w r sts in
  forall e, In e effs -> handler_input_ok e.
Proof.
  destruct w.
  - rewrite msg_complete_write. cbv zeta.
    match goal with
    | |- context [applespi_send_cmd_msg ?b sts] =>
        pose proof (send_cmd_msg_effects b sts) as Hs;
        destruct (applespi_send_cmd_msg b sts) as [[a3 ret] effs]
    end.
    intros e He. apply in_app_or in He.
    destruct He as [He|He].
    + destruct (drain a); [|contradiction].
      destruct He as [<-|[]]. exact I.
    + destruct Hs as [[-> _]|(p & -> & _)]; [contradiction|].
      destruct He as [<-|[]]. exact I.
  - unfold applespi_msg_complete. cbv zeta. intros e He.
    destruct (_ && _); [|contradiction].
    destruct He as [<-|[]]. exact I.
Qed.

Lemma got_data_cleanup_handler_input (a : applespi_data) (rx : list Z)
    (sts : Z) (v : rx_verdict) (handled : list effect) :
  (forall e, In e handled -> handler_input_ok e) ->
  let '(_, _, effs) := got_data_cleanup a rx sts v handled in
  forall e, In e effs -> handler_input_ok e.
Proof.
  intros Hh. unfold got_data_cleanup.
  pose proof (msg_complete_effect_kinds a
                (pkt_flags rx =? PACKET_TYPE_WRITE) true sts) as Hm.
  destruct (applespi_msg_complete a _ true sts) as [a1 effs].
  intros e He. apply in_app_or in He. destruct He; auto.
Qed.

Lemma nth_memcpy_at (l src : list Z) (off : nat) (i : nat) :
  (off <= length l)%nat -> (i < length src)%nat ->
  nth (off + i) (memcpy_at l off src) 0 = nth i src 0.
Proof.
  intros Hoff Hi. unfold memcpy_at.
  rewrite app_nth2 by (rewrite length_firstn; lia).
  rewrite length_firstn, Nat.min_l by lia.
  replace (off + i - off)%nat with i by lia.
  apply app_nth1. exact Hi.
Qed.

(** A message that passed the two checks, as its handler gets it. *)
Lemma got_data_verify_handler_input (a : applespi_data) (rx : list Z)
    (sts : Z) (base : list Z) (msg_len : Z) (in_msg_buf : bool) :
  bytes_in_range base -> 0 <= msg_len <= 512 ->
  msg_len <= Z.of_nat (length base) ->
  let '(_, _, effs) := got_data_verify a rx sts base msg_len in_msg_buf in
  forall e, In e effs -> handler_input_ok e.
Proof.
  intros Hb Hlen Hbase. unfold got_data_verify. cbv zeta.
  destruct (Z.eqb_spec (msg_length base) (u32 (msg_len - MSG_HEADER_SIZE - 2)))
    as [Hml|_]; cbn [negb];
    [|apply got_data_cleanup_handler_input; intros e []].
  destruct (applespi_verify_crc (firstn (Z.to_nat msg_len) base)) eqn:Hcrc;
    cbn [negb]; [|apply got_data_cleanup_handler_input; intros e []].
  (* the declared length excludes short messages *)
  assert (H10 : 10 <= msg_len).
  { pose proof (le16_at_range base 6 Hb) as Hr. fold (msg_length base) in Hr.
    unfold u32, MSG_HEADER_SIZE in Hml.
    destruct (Z_lt_le_dec msg_len 10) as [Hlt|]; [|lia].
    replace (msg_len - 8 - 2) with (msg_len - 10 + 1 * 4294967296 - 4294967296)
      in Hml by lia.
    rewrite Zminus_mod, Z_mod_same_full, Z.sub_0_r, Z.mod_mod in Hml by lia.
    rewrite Z.mod_small in Hml by lia. lia. }
  unfold u32, MSG_HEADER_SIZE in Hml. rewrite Z.mod_small in Hml by lia.
  assert (Hlm : Z.of_nat (length (firstn (Z.to_nat msg_len) base)) = msg_len).
  { rewrite length_firstn. lia. }
  assert (Hvalid : valid_message (firstn (Z.to_nat msg_len) base)).
  { split; [|exact Hcrc].
    rewrite msg_length_firstn by lia. rewrite Hlm.
    unfold MSG_HEADER_SIZE. lia. }
  unfold got_data_handle. cbv zeta.
  set (message := firstn (Z.to_nat msg_len) base) in *.
  destruct ((pkt_flags rx =? PACKET_TYPE_READ)
            && (pkt_device rx =? PACKET_DEV_KEYB)).
  { apply got_data_cleanup_handler_input. intros e [<-|[]].
    split; [exact Hvalid | lia]. }
  destruct ((pkt_flags rx =? PACKET_TYPE_READ)
            && (pkt_device rx =? PACKET_DEV_TPAD)).
  { unfold TOUCHPAD_PROTOCOL_SIZE, TP_FINGER_SIZE, MAX_FINGERS.
    destruct (Z.eqb_spec (msg_length base + 2)
                (48 + tp_number_of_fingers base * 30)) as [Htp|_];
      cbn [negb]; [|apply got_data_cleanup_handler_input; intros e []].
    pose proof (nth_in_range base 38 Hb) as Hn.
    fold (tp_number_of_fingers base) in Hn.
    assert (Hn38 : tp_number_of_fingers message = tp_number_of_fingers base).
    { unfold message, tp_number_of_fingers.
      apply nth_firstn_lt. lia. }
    destruct (Z.gtb_spec (tp_number_of_fingers base) 11).
    - apply got_data_cleanup_handler_input. intros e [<-|[]].
      cbn [handler_input_ok].
      unfold MSG_HEADER_SIZE, TOUCHPAD_PROTOCOL_SIZE, TP_FINGER_SIZE,
        MAX_FINGERS.
      assert (Hc : tp_number_of_fingers (memcpy_at message 38 [11]) = 11).
      { unfold tp_number_of_fingers.
        apply (nth_memcpy_at message [11] 38 0); cbn [length]; lia. }
      rewrite Hc, length_memcpy_at by (cbn [length]; lia). lia.
    - apply got_data_cleanup_handler_input. intros e [<-|[]].
      cbn [handler_input_ok].
      unfold MSG_HEADER_SIZE, TOUCHPAD_PROTOCOL_SIZE, TP_FINGER_SIZE,
        MAX_FINGERS.
      rewrite Hn38. lia. }
  destruct (pkt_flags rx =? PACKET_TYPE_WRITE).
  { apply got_data_cleanup_handler_input. intros e [<-|[]].
    split; [exact Hvalid | lia]. }
  apply got_data_cleanup_handler_input. intros e [].
Qed.

(** No handler is given a message that was not checked.  For a received
    buffer of 256 bytes, whatever they are: the message a keyboard or
    command-response handler gets has passed the declared-length and crc
    checks and has 10 to 512 bytes; the message [report_tp_state] gets
    announces at most [MAX_FINGERS] fingers, and the finger records it
    announces all lie within the message. *)
Theorem handlers_get_checked_messages (a : applespi_data) (rx : list Z)
    (sts : Z) :
  buffers_ok a -> length rx = 256%nat -> bytes_in_range rx ->
  let '(_, _, effs) := applespi_got_data a rx sts in
  forall e, In e effs -> handler_input_ok e.
Proof.
  intros Hok Hlen Hrx. pose proof Hok as (Ht & Hm & Hs & Hb).
  unfold applespi_got_data.
  destruct (negb (applespi_verify_crc _)).
  { destruct (drain a); intros e He; [destruct He as [<-|[]]; exact I|].
    contradiction. }
  cbv zeta.
  pose proof (le16_at_range rx 2 Hrx) as Hoff.
  pose proof (le16_at_range rx 4 Hrx) as Hrem.
  pose proof (le16_at_range rx 6 Hrx) as Hl.
  fold (pkt_offset rx) in Hoff. fold (pkt_remaining rx) in Hrem.
  fold (pkt_length rx) in Hl. unfold_sizes.
  destruct (Z.gtb_spec (pkt_length rx) 246);
    [apply got_data_cleanup_handler_input; intros e []|].
  destruct ((pkt_remaining rx >? 0) || (pkt_offset rx >? 0)).
  2:{ apply got_data_verify_handler_input.
      - apply bytes_in_range_pkt_data, Hrx.
      - lia.
      - rewrite length_pkt_data by assumption. lia. }
  destruct (Z.eqb_spec (pkt_offset rx) (saved_msg_len a)) as [Heq|_];
    cbn [negb]; [|apply got_data_cleanup_handler_input; intros e []].
  destruct (Z.gtb_spec (pkt_offset rx + pkt_remaining rx) (2 * 256));
    [apply got_data_cleanup_handler_input; intros e []|].
  destruct (Z.gtb_spec (pkt_offset rx + pkt_length rx) (2 * 256));
    [apply got_data_cleanup_handler_input; intros e []|].
  destruct (pkt_remaining rx >? 0); [intros e []|].
  state_simpl.
  assert (Hlm : length (memcpy_at (msg_buf a) (Z.to_nat (pkt_offset rx))
                          (firstn (Z.to_nat (pkt_length rx)) (pkt_data rx)))
                = 512%nat).
  { rewrite length_memcpy_at; [exact Hm|].
    rewrite length_firstn, length_pkt_data, Hm by assumption. lia. }
  apply got_data_verify_handler_input.
  - apply bytes_in_range_memcpy_at; [exact Hb|].
    apply bytes_in_range_firstn, bytes_in_range_pkt_data, Hrx.
  - lia.
  - rewrite Hlm. lia.
Qed.

Lemma handlers_get_checked_messages_witness :
  let a := rx_state applespi_zero tp_frame1 in
  buffers_ok a /\ length tp_frame2 = 256%nat /\ bytes_in_range tp_frame2 /\
  tp_number_of_fingers tp_report = 12 /\
  let '(_, _, effs) := applespi_got_data a tp_frame2 0 in
  exists m, In (ReportTpState m) effs /\ tp_number_of_fingers m = 11 /\
            handler_input_ok (ReportTpState m).
Proof.
  cbv zeta.
  assert (Hok : buffers_ok (rx_state applespi_zero tp_frame1)).
  { repeat split; try (vm_compute; congruence).
    apply bytes_in_range_forallb. vm_compute. reflexivity. }
  assert (Hlen : length tp_frame2 = 256%nat) by reflexivity.
  assert (Hrx : bytes_in_range tp_frame2)
    by (apply bytes_in_range_forallb; vm_compute; reflexivity).
  split; [exact Hok|]. split; [exact Hlen|]. split; [exact Hrx|].
  split; [reflexivity|].
  pose proof (handlers_get_checked_messages
                (rx_state applespi_zero tp_frame1) tp_frame2 0 Hok Hlen Hrx)
    as H.
  assert (Hin : In (ReportTpState (memcpy_at tp_report 38 [11]))
                  (snd (applespi_got_data (rx_state applespi_zero tp_frame1)
                          tp_frame2 0)))
    by (vm_compute; left; reflexivity).
  destruct (applespi_got_data (rx_state applespi_zero tp_frame1) tp_frame2 0)
    as [[a' v] effs].
  cbn [snd] in Hin. exists (memcpy_at tp_report 38 [11]).
  split; [exact Hin|]. split; [reflexivity|]. apply H. exact Hin.
Defined.

(** ** Draining *)

Lemma drain_step (a : applespi_data) (e : event) :
  drain a = true ->
  let '(a', effs) := step a e in
  drain a' = true /\ writes_submitted effs = [].
Proof.
  intros Hd.
  replace a with (applespi_begin_drain a)
    by (destruct a; cbn in Hd; subst; reflexivity).
  apply drain_blocks_writes.
Qed.

(** From the moment [applespi_suspend] or [applespi_remove] has set [drain],
    whatever happens (device signals, completions of reads and writes,
    requests for commands) no write is submitted and [drain] stays set. *)
Theorem drain_blocks_all_writes (a : applespi_data) (es : list event) :
  let '(a', effs) := run (applespi_begin_drain a) es in
  drain a' = true /\ writes_submitted effs = [].
Proof.
  assert (H : forall l b, drain b = true ->
                          let '(b', effs) := run b l in
                          drain b' = true /\ writes_submitted effs = []).
  { clear. induction l as [|e l IH]; intros b Hd; [cbn; auto|].
    cbn [run]. pose proof (drain_step b e Hd) as H1.
    destruct (step b e) as [b1 effs1]. destruct H1 as [Hd1 Hw1].
    specialize (IH b1 Hd1). destruct (run b1 l) as [b2 effs2].
    destruct IH as [Hd2 Hw2]. split; [exact Hd2|].
    rewrite writes_submitted_app, Hw1, Hw2. reflexivity. }
  apply H. reflexivity.
Qed.

(** While draining no wake-up is lost: a step after which [write_active] has
    gone from true to false wakes the waiters on [drain_complete], and so
    does a step after which [read_active] has gone from true to false with no
    write active. *)
Theorem drain_wakes_waiters (a : applespi_data) (e : event) :
  drain a = true ->
  let '(a', effs) := step a e in
  (write_active a = true -> write_active a' = false -> In WakeUpAll effs) /\
  (read_active a = true -> read_active a' = false ->
   write_active a' = false -> In WakeUpAll effs).
Proof.
  intros Hd.
  destruct e as [sts|status rx sts|status tx_status sts|sts|on sts|value sts];
    cbn [step].
  - unfold applespi_notify. destruct (negb (sts =? 0)); state_simpl;
      split; intros; congruence.
  - unfold applespi_async_read_complete.
    destruct (status <? 0); [split; intros; congruence|].
    pose proof (got_data_shape a rx sts) as Hshape.
    destruct (applespi_verify_crc
                (firstn (Z.to_nat APPLESPI_PACKET_SIZE) rx)).
    + destruct Hshape as [(a1 & -> & Hsame)|(a0 & v & handled & -> & _ & _
                                             & Hsame & Hh)];
        apply same_but_reassembly_fields in Hsame;
        destruct Hsame as (Hd' & Hr' & Hw' & _).
      * split; intros; congruence.
      * unfold got_data_cleanup.
        destruct (pkt_flags rx =? PACKET_TYPE_WRITE).
        -- rewrite msg_complete_write. cbv zeta.
           rewrite send_cmd_msg_blocked by (right; exact (eq_trans Hd' Hd)).
           rewrite Hd', Hd.
           assert (Hin : In WakeUpAll
                           ((handled ++ [WakeUpAll] ++ []) ++ [AcpiFinishGpe])).
           { apply in_or_app. left. apply in_or_app. right. left.
             reflexivity. }
           split; intros; exact Hin.
        -- rewrite msg_complete_read. state_simpl. rewrite Hd', Hd.
           split; [intros; congruence|]. intros _ _ Hwa. rewrite Hwa.
           apply in_or_app. left. apply in_or_app. right. left. reflexivity.
    + rewrite Hshape, Hd. split; intros; left; reflexivity.
  - unfold applespi_async_write_complete.
    destruct (negb (applespi_check_write_status tx_status status));
      [|split; intros; congruence].
    rewrite msg_complete_write. cbv zeta.
    rewrite send_cmd_msg_blocked by (right; exact Hd). rewrite Hd.
    split; intros; left; reflexivity.
  - unfold applespi_init.
    rewrite send_cmd_msg_blocked by (right; exact Hd).
    state_simpl. split; intros; congruence.
  - unfold applespi_set_capsl_led.
    rewrite send_cmd_msg_blocked by (right; exact Hd).
    state_simpl. split; intros; congruence.
  - unfold applespi_set_bl_level.
    rewrite send_cmd_msg_blocked by (right; exact Hd).
    state_simpl. split; intros; congruence.
Qed.

Lemma drain_wakes_waiters_witness :
  let a := set_write_active true (set_cmd_msg_queued true
             (set_drain true applespi_zero)) in
  drain a = true /\ write_active a = true /\
  let '(a', effs) := step a (WriteComplete (-5) [] 0) in
  write_active a' = false /\ In WakeUpAll effs.
Proof.
  cbv zeta. split; [reflexivity|]. split; [reflexivity|].
  pose proof (drain_wakes_waiters
                (set_write_active true (set_cmd_msg_queued true
                   (set_drain true applespi_zero)))
                (WriteComplete (-5) [] 0) eq_refl) as H.
  destruct (step _ (WriteComplete (-5) [] 0)) as [a' effs] eqn:E.
  assert (Hw : write_active a' = false).
  { vm_compute in E. injection E as <- _. reflexivity. }
  split; [exact Hw|]. destruct H as [H _].
  apply H; [reflexivity | exact Hw].
Defined.

(** ** Requests *)

Lemma send_cmd_msg_nothing_pending (a : applespi_data) (sts : Z) :
  spec_next_kind a = None ->
  let '(_, ret, effs) := applespi_send_cmd_msg a sts in
  ret = 0 /\ effs = [].
Proof.
  intros Hk.
  destruct (drain a) eqn:Hd; [rewrite send_cmd_msg_blocked by auto; auto|].
  destruct (cmd_msg_queued a) eqn:Hq;
    [rewrite send_cmd_msg_blocked by auto; auto|].
  rewrite send_cmd_msg_served by assumption. rewrite Hk. auto.
Qed.

(** A request for what the device already has causes no traffic: with no
    command pending, asking for the caps lock state the device has, or for a
    brightness that maps to the level the device has, submits nothing. *)
Theorem redundant_requests_send_nothing (a : applespi_data) (sts : Z) :
  want_init_cmd a = false -> want_cl_led_on a = have_cl_led_on a ->
  want_bl_level a = have_bl_level a ->
  (let '(_, ret, effs) := applespi_set_capsl_led a (have_cl_led_on a) sts in
   ret = 0 /\ effs = []) /\
  (forall value,
     device_level value = have_bl_level a ->
     snd (applespi_set_bl_level a value sts) = []).
Proof.
  intros Hi Hcl Hbl. split.
  - unfold applespi_set_capsl_led.
    apply send_cmd_msg_nothing_pending.
    unfold spec_next_kind. state_simpl.
    rewrite Hi, Hbl, eqb_reflx, Z.eqb_refl. reflexivity.
  - intros value Hv. unfold applespi_set_bl_level.
    pose proof (send_cmd_msg_nothing_pending
                  (set_want_bl_level (device_level value) a) sts) as H.
    destruct (applespi_send_cmd_msg _ sts) as [[a1 ret] effs].
    cbn [snd]. apply H.
    unfold spec_next_kind. state_simpl.
    rewrite Hi, Hcl, Hv, eqb_reflx, Z.eqb_refl. reflexivity.
Qed.

Lemma redundant_requests_send_nothing_witness :
  let a := set_have_bl_level 254 (set_want_bl_level 254 applespi_zero) in
  want_init_cmd a = false /\ want_cl_led_on a = have_cl_led_on a /\
  want_bl_level a = have_bl_level a /\
  device_level 255 = have_bl_level a /\
  snd (applespi_set_bl_level a 255 0) = [].
Proof.
  cbv zeta. split; [reflexivity|]. split; [reflexivity|].
  split; [reflexivity|]. split; [reflexivity|].
  destruct (redundant_requests_send_nothing
              (set_have_bl_level 254 (set_want_bl_level 254 applespi_zero))
              0 eq_refl eq_refl eq_refl) as [_ H].
  apply H. reflexivity.
Defined.

Lemma device_level_range (value : Z) : 0 <= device_level value < 65536.
Proof.
  unfold device_level, u32.
  destruct (Z.eqb_spec value 0) as [->|_]; [lia|].
  change KBD_BL_LEVEL_SCALE with 1000000.
  change MIN_KBD_BL_LEVEL with 32.
  pose proof (Z.mod_pos_bound (value * KBD_BL_LEVEL_ADJ) 4294967296
                ltac:(lia)) as Hm.
  assert (0 <= (value * KBD_BL_LEVEL_ADJ) mod 4294967296 / 1000000 < 4295).
  { split; [apply Z.div_pos; lia|].
    apply Z.div_lt_upper_bound; lia. }
  rewrite Z.mod_small by lia. lia.
Qed.

Lemma le16_of_cpu_to_le16 (x : Z) :
  0 <= x < 65536 -> x mod 256 + 256 * ((x / 256) mod 256) = x.
Proof.
  intros Hx.
  assert (0 <= x / 256 < 256)
    by (split; [apply Z.div_pos; lia | apply Z.div_lt_upper_bound; lia]).
  rewrite (Z.mod_small (x / 256)) by lia.
  pose proof (Z.div_mod x 256 ltac:(lia)). lia.
Qed.

(** Requests made while a command is queued are only recorded, and the last
    one wins: two brightness requests in a row submit nothing, and when the
    exchange of the queued command ends, one backlight command goes out,
    carrying the level of the second request, or nothing if that is the
    level the device has. *)
Theorem last_backlight_request_wins (a : applespi_data)
    (v1 v2 sts1 sts2 sts3 : Z) :
  cmd_msg_queued a = true -> drain a = false ->
  want_init_cmd a = false -> want_cl_led_on a = have_cl_led_on a ->
  let '(a1, effs1) := applespi_set_bl_level a v1 sts1 in
  let '(a2, effs2) := applespi_set_bl_level a1 v2 sts2 in
  effs1 = [] /\ effs2 = [] /\
  let '(_, effs3) := applespi_msg_complete a2 true true sts3 in
  if device_level v2 =? have_bl_level a then effs3 = []
  else exists p, effs3 = [SpiAsyncWrite p sts3] /\
                 packet_kind p = Some CmdBl /\
                 pkt_bl_level p = device_level v2.
Proof.
  intros Hq Hd Hi Hcl. unfold applespi_set_bl_level.
  rewrite send_cmd_msg_blocked by (left; exact Hq).
  rewrite send_cmd_msg_blocked by (left; exact Hq).
  split; [reflexivity|]. split; [reflexivity|].
  rewrite msg_complete_write. cbv zeta.
  rewrite send_cmd_msg_served by (first [exact Hd | reflexivity]).
  unfold spec_next_kind. state_simpl.
  rewrite Hi, Hcl, Hd, eqb_reflx. cbn [negb app].
  destruct (device_level v2 =? have_bl_level a); cbn [negb]; cbv zeta;
    [reflexivity|].
  eexists. split; [reflexivity|]. split; [apply packet_kind_command_of|].
  unfold pkt_bl_level.
  transitivity (device_level v2 mod 256
                + 256 * ((device_level v2 / 256) mod 256));
    [reflexivity|].
  apply le16_of_cpu_to_le16, device_level_range.
Qed.

Lemma last_backlight_request_wins_witness :
  let a := set_cmd_msg_queued true applespi_zero in
  cmd_msg_queued a = true /\ drain a = false /\
  want_init_cmd a = false /\ want_cl_led_on a = have_cl_led_on a /\
  let '(a1, effs1) := applespi_set_bl_level a 10 0 in
  let '(a2, effs2) := applespi_set_bl_level a1 200 0 in
  effs1 = [] /\ effs2 = [] /\
  let '(_, effs3) := applespi_msg_complete a2 true true 0 in
  if device_level 200 =? have_bl_level a then effs3 = []
  else exists p, effs3 = [SpiAsyncWrite p 0] /\
                 packet_kind p = Some CmdBl /\
                 pkt_bl_level p = device_level 200.
Proof.
  cbv zeta. split; [reflexivity|]. split; [reflexivity|].
  split; [reflexivity|]. split; [reflexivity|].
  apply (last_backlight_request_wins (set_cmd_msg_queued true applespi_zero)
           10 200 0 0 0); reflexivity.
Defined.

(** ** Commands over a run *)

Lemma attempted_counters_app (l1 l2 : list effect) :
  attempted_counters (l1 ++ l2)
  = attempted_counters l1 ++ attempted_counters l2.
Proof. apply flat_map_app. Qed.

Lemma attempted_counters_handlers (l : list effect) :
  forallb is_handler_effect l = true -> attempted_counters l = [].
Proof.
  induction l as [|e l IH]; [reflexivity|].
  cbn [forallb]. intros H. apply andb_true_iff in H. destruct H as [He Hl].
  destruct e; try discriminate; cbn; auto.
Qed.

Lemma pending_count_served (k : cmd_kind) (a : applespi_data) :
  spec_next_kind a = Some k ->
  S (pending_count (mark_served k a)) = pending_count a.
Proof.
  unfold spec_next_kind, pending_count. intros Hk.
  destruct (want_init_cmd a) eqn:Hi.
  { injection Hk as <-. cbn [mark_served]. state_simpl. reflexivity. }
  destruct (negb (Bool.eqb (want_cl_led_on a) (have_cl_led_on a))) eqn:Hcl.
  { injection Hk as <-. cbn [mark_served]. state_simpl.
    rewrite Hi, eqb_reflx. reflexivity. }
  destruct (negb (want_bl_level a =? have_bl_level a)) eqn:Hbl;
    [|discriminate].
  injection Hk as <-. cbn [mark_served]. state_simpl.
  rewrite Hi, Hcl, Z.eqb_refl. reflexivity.
Qed.

(** One call of [applespi_send_cmd_msg]: nothing is built, or one command
    is, with the low byte of [cmd_msg_cntr] as its counter, and one request
    less is pending. *)
Lemma send_cmd_msg_attempt (a : applespi_data) (sts : Z) :
  let '(a', _, effs) := applespi_send_cmd_msg a sts in
  (effs = [] /\ cmd_msg_cntr a' = cmd_msg_cntr a /\
   pending_count a' = pending_count a) \/
  (exists p, effs = [SpiAsyncWrite p sts] /\
             pkt_msg_counter p = Z.land (cmd_msg_cntr a) 0xff /\
             cmd_msg_cntr a' = u32 (cmd_msg_cntr a + 1) /\
             S (pending_count a') = pending_count a).
Proof.
  destruct (drain a) eqn:Hd; [rewrite send_cmd_msg_blocked by auto; auto|].
  destruct (cmd_msg_queued a) eqn:Hq;
    [rewrite send_cmd_msg_blocked by auto; auto|].
  rewrite send_cmd_msg_served by assumption.
  destruct (spec_next_kind a) as [k|] eqn:Hk; [|left; auto].
  cbv zeta. right. eexists. split; [reflexivity|].
  split; [destruct k; reflexivity|].
  pose proof (pending_count_served k a Hk) as Hp.
  destruct (sts =? 0); split; try reflexivity; exact Hp.
Qed.

Lemma msg_complete_attempt (a : applespi_data) (w r : bool) (sts : Z) :
  let '(a', effs) := applespi_msg_complete a w r sts in
  (attempted_counters effs = [] /\ cmd_msg_cntr a' = cmd_msg_cntr a /\
   pending_count a' = pending_count a) \/
  (attempted_counters effs = [Z.land (cmd_msg_cntr a) 0xff] /\
   cmd_msg_cntr a' = u32 (cmd_msg_cntr a + 1) /\
   S (pending_count a') = pending_count a).
Proof.
  destruct w.
  - rewrite msg_complete_write. cbv zeta.
    match goal with
    | |- context [applespi_send_cmd_msg ?b sts] =>
        pose proof (send_cmd_msg_attempt b sts) as Hs;
        assert (Hc : cmd_msg_cntr b = cmd_msg_cntr a)
          by (destruct r; reflexivity);
        assert (Hp : pending_count b = pending_count a)
          by (destruct r; reflexivity);
        destruct (applespi_send_cmd_msg b sts) as [[a3 ret] effs]
    end.
    rewrite attempted_counters_app.
    replace (attempted_counters (if drain a then [WakeUpAll] else []))
      with (@nil Z) by (destruct (drain a); reflexivity).
    cbn [app]. rewrite Hc, Hp in Hs.
    destruct Hs as [(-> & H1 & H2)|(p & -> & H1 & H2 & H3)].
    + left. auto.
    + right. cbn [attempted_counters flat_map app]. rewrite H1. auto.
  - unfold applespi_msg_complete. cbv zeta. left.
    split; [destruct (_ && _); reflexivity|].
    destruct r; split; reflexivity.
Qed.

(** One step: no command is built, or one is, as in
    [send_cmd_msg_attempt]; the number of pending requests goes up only by a
    request. *)
Lemma step_attempt (a : applespi_data) (e : event) :
  let '(a', effs) := step a e in
  (attempted_counters effs = [] /\ cmd_msg_cntr a' = cmd_msg_cntr a /\
   (is_request e = false -> pending_count a' = pending_count a)) \/
  (attempted_counters effs = [Z.land (cmd_msg_cntr a) 0xff] /\
   cmd_msg_cntr a' = u32 (cmd_msg_cntr a + 1) /\
   (is_request e = false -> S (pending_count a') = pending_count a)).
Proof.
  destruct e as [sts|status rx sts|status tx_status sts|sts|on sts|value sts];
    cbn [step is_request].
  - unfold applespi_notify.
    destruct (negb (sts =? 0)); left; repeat split.
  - unfold applespi_async_read_complete.
    destruct (status <? 0); [left; repeat split|].
    pose proof (got_data_shape a rx sts) as Hshape.
    destruct (applespi_verify_crc
                (firstn (Z.to_nat APPLESPI_PACKET_SIZE) rx)).
    + destruct Hshape as [(a1 & Hg & Hsame)|(a0 & v & handled & Hg & _ & _
                                             & Hsame & Hh)]; rewrite Hg.
      * left. unfold same_but_reassembly in Hsame. rewrite Hsame.
        repeat split.
      * unfold got_data_cleanup.
        pose proof (msg_complete_attempt a0
                      (pkt_flags rx =? PACKET_TYPE_WRITE) true sts) as Hm.
        destruct (applespi_msg_complete a0 _ true sts) as [a1 effs].
        assert (Hc : cmd_msg_cntr a0 = cmd_msg_cntr a)
          by (unfold same_but_reassembly in Hsame; rewrite Hsame;
              reflexivity).
        assert (Hp : pending_count a0 = pending_count a)
          by (unfold same_but_reassembly in Hsame; rewrite Hsame;
              reflexivity).
        rewrite Hc, Hp in Hm.
        rewrite !attempted_counters_app,
          attempted_counters_handlers by assumption.
        cbn [attempted_counters flat_map app]. rewrite app_nil_r.
        destruct Hm as [(-> & H1 & H2)|(-> & H1 & H2)]; [left|right]; auto.
    + rewrite Hshape. destruct (drain a); left; repeat split.
  - unfold applespi_async_write_complete.
    destruct (negb (applespi_check_write_status tx_status status));
      [|left; repeat split].
    pose proof (msg_complete_attempt a true false sts) as Hm.
    destruct (applespi_msg_complete a true false sts) as [a1 effs].
    destruct Hm as [(-> & H1 & H2)|(-> & H1 & H2)]; [left|right]; auto.
  - unfold applespi_init.
    pose proof (send_cmd_msg_attempt (set_want_init_cmd true a) sts) as Hs.
    destruct (applespi_send_cmd_msg _ sts) as [[a1 ret] effs].
    destruct Hs as [(-> & H1 & _)|(p & -> & H0 & H1 & _)]; [left|right];
      cbn [attempted_counters flat_map app]; rewrite ?H0;
      repeat split; try exact H1; discriminate.
  - unfold applespi_set_capsl_led.
    pose proof (send_cmd_msg_attempt (set_want_cl_led_on on a) sts) as Hs.
    destruct (applespi_send_cmd_msg _ sts) as [[a1 ret] effs].
    destruct Hs as [(-> & H1 & _)|(p & -> & H0 & H1 & _)]; [left|right];
      cbn [attempted_counters flat_map app]; rewrite ?H0;
      repeat split; try exact H1; discriminate.
  - unfold applespi_set_bl_level.
    pose proof (send_cmd_msg_attempt
                  (set_want_bl_level (device_level value) a) sts) as Hs.
    destruct (applespi_send_cmd_msg _ sts) as [[a1 ret] effs].
    destruct Hs as [(-> & H1 & _)|(p & -> & H0 & H1 & _)]; [left|right];
      cbn [attempted_counters flat_map app]; rewrite ?H0;
      repeat split; try exact H1; discriminate.
Qed.

Lemma counter_after_increment (c : Z) (i : nat) :
  (u32 (c + 1) + Z.of_nat i) mod 256 = (c + Z.of_nat (S i)) mod 256.
Proof.
  unfold u32. rewrite Z.add_mod by lia.
  rewrite (Z.mod_mod_divide (c + 1) 4294967296 256) by
    (exists 16777216; reflexivity).
  rewrite <- Z.add_mod by lia. f_equal. lia.
Qed.

(** The command messages handed to the bus during a run carry consecutive
    counters modulo 256, starting at the low byte of [cmd_msg_cntr]: each
    message built takes the next one, whatever its kind and whether or not
    [spi_async] accepted it (line 950). *)
Theorem counters_are_consecutive (es : list event) (a : applespi_data) :
  let '(_, effs) := run a es in
  attempted_counters effs
  = map (fun i => (cmd_msg_cntr a + Z.of_nat i) mod 256)
      (seq 0 (length (attempted_counters effs))).
Proof.
  revert a. induction es as [|e es IH]; intros a; [reflexivity|].
  cbn [run]. pose proof (step_attempt a e) as Hs.
  destruct (step a e) as [a1 effs1]. specialize (IH a1).
  destruct (run a1 es) as [a2 effs2]. rewrite attempted_counters_app.
  destruct Hs as [(-> & Hc & _)|(-> & Hc & _)]; cbn [app].
  - rewrite <- Hc. exact IH.
  - cbn [length seq map]. f_equal.
    + change 255 with (Z.ones 8). rewrite Z.land_ones by lia.
      f_equal. lia.
    + rewrite <- seq_shift, map_map. etransitivity; [exact IH|].
      apply map_ext. intros i. rewrite Hc. apply counter_after_increment.
Qed.

(** With no new request, every command message built takes one pending
    request away: a run of completions and notifications builds exactly as
    many messages as requests stop being pending, so at most three (init,
    caps lock, backlight). *)
Theorem commands_bounded_by_pending (es : list event) (a : applespi_data) :
  Forall (fun e => is_request e = false) es ->
  let '(a', effs) := run a es in
  (length (attempted_counters effs) + pending_count a' = pending_count a)%nat
  /\ (length (attempted_counters effs) <= 3)%nat.
Proof.
  intros Hes.
  assert (H3 : forall b, (pending_count b <= 3)%nat).
  { intros b. unfold pending_count.
    destruct (want_init_cmd b), (negb (Bool.eqb _ _)), (negb (_ =? _));
      cbn; lia. }
  enough (Hsum : let '(a', effs) := run a es in
                 (length (attempted_counters effs) + pending_count a'
                  = pending_count a)%nat).
  { destruct (run a es) as [a' effs]. split; [exact Hsum|].
    specialize (H3 a). lia. }
  clear H3. revert a. induction Hes as [|e es He Hes IH]; intros a;
    [reflexivity|].
  cbn [run]. pose proof (step_attempt a e) as Hs.
  destruct (step a e) as [a1 effs1]. specialize (IH a1).
  destruct (run a1 es) as [a2 effs2]. rewrite attempted_counters_app.
  rewrite length_app.
  destruct Hs as [(-> & _ & Hp)|(-> & _ & Hp)]; specialize (Hp He);
    cbn [length]; lia.
Qed.

Lemma commands_bounded_by_pending_witness :
  let es := [WriteComplete (-5) [] 0; WriteComplete (-5) [] 0;
             Notify 0; WriteComplete (-5) [] 0; WriteComplete (-5) [] 0] in
  Forall (fun e => is_request e = false) es /\
  let '(a', effs) := run all_pending es in
  (length (attempted_counters effs) + pending_count a'
   = pending_count all_pending)%nat
  /\ (length (attempted_counters effs) <= 3)%nat.
Proof.
  cbv zeta. split; [repeat constructor|].
  apply (commands_bounded_by_pending _ all_pending). repeat constructor.
Defined.

(** ** Key translation *)

(** [applespi_find_translation] finds the first entry for the key, and only
    before the terminator: the entry found is in the table with no entry for
    the key and no terminator before it, and the key 0, the terminator's, is
    never found; when nothing is found, no entry before the first terminator
    is for the key. *)
Theorem find_translation_first_match
    (table : list applespi_key_translation) (key : Z) :
  match applespi_find_translation table key with
  | Some trans =>
      key <> 0 /\ from trans = key /\
      exists pre post,
        table = pre ++ trans :: post /\
        Forall (fun e => from e <> 0 /\ from e <> key) pre
  | None =>
      forall pre e post,
        table = pre ++ e :: post ->
        Forall (fun e' => from e' <> 0) pre ->
        from e = key -> key = 0
  end.
Proof.
  induction table as [|t table IH]; cbn [applespi_find_translation].
  - intros pre e post H. destruct pre; discriminate.
  - destruct (from t =? 0) eqn:H0.
    { apply Z.eqb_eq in H0. intros pre e post H Hpre Hk.
      destruct pre as [|p pre]; cbn in H; injection H as <- _.
      - congruence.
      - inversion Hpre; subst. contradiction. }
    apply Z.eqb_neq in H0.
    destruct (from t =? key) eqn:Hk.
    { apply Z.eqb_eq in Hk. split; [congruence|]. split; [exact Hk|].
      exists [], table. split; [reflexivity | constructor]. }
    apply Z.eqb_neq in Hk.
    destruct (applespi_find_translation table key) as [trans|].
    + destruct IH as (Hkey & Hfrom & pre & post & -> & Hpre).
      split; [exact Hkey|]. split; [exact Hfrom|].
      exists (t :: pre), post. split; [reflexivity|].
      constructor; [split; assumption | exact Hpre].
    + intros pre e post H Hpre He.
      destruct pre as [|p pre]; cbn in H; injection H as <- Htab.
      * contradiction.
      * inversion Hpre; subst. eapply IH; eauto.
Qed.

(** ** The keyboard handler *)

Lemma code_to_key_in_table (kt : key_tables) (fnmode iso_layout : Z)
    (code fn : Z) :
  0 <= code < Z.of_nat (length (applespi_scancodes kt)) ->
  exists key, applespi_code_to_key kt fnmode iso_layout code fn = Some key.
Proof.
  intros Hc. unfold applespi_code_to_key.
  destruct (nth_error (applespi_scancodes kt) (Z.to_nat code)) eqn:Hn.
  - eexists. reflexivity.
  - apply nth_error_None in Hn. lia.
Qed.

Lemma code_to_key_outside_table (kt : key_tables) (fnmode iso_layout : Z)
    (code fn : Z) :
  Z.of_nat (length (applespi_scancodes kt)) <= code ->
  applespi_code_to_key kt fnmode iso_layout code fn = None.
Proof.
  intros Hc. unfold applespi_code_to_key.
  destruct (nth_error (applespi_scancodes kt) (Z.to_nat code)) eqn:Hn;
    [|reflexivity].
  assert (nth_error (applespi_scancodes kt) (Z.to_nat code) <> None)
    by congruence.
  apply nth_error_Some in H. lia.
Qed.

Lemma nth_set_byte (l : list Z) (i j : nat) (v : Z) :
  (i < length l)%nat ->
  nth j (memcpy_at l i [v]) 0 = if Nat.eqb j i then v else nth j l 0.
Proof.
  intros Hi. unfold memcpy_at. cbn [length app].
  destruct (Nat.eqb j i) eqn:E.
  - apply Nat.eqb_eq in E. subst j.
    rewrite app_nth2 by (rewrite length_firstn; lia).
    rewrite length_firstn, Nat.min_l by lia.
    rewrite Nat.sub_diag. reflexivity.
  - apply Nat.eqb_neq in E.
    destruct (Nat.lt_ge_cases j i) as [Hlt|Hge].
    + rewrite app_nth1 by (rewrite length_firstn; lia).
      apply nth_firstn_lt. exact Hlt.
    + rewrite app_nth2 by (rewrite length_firstn; lia).
      rewrite length_firstn, Nat.min_l by lia.
      destruct (j - i)%nat as [|k] eqn:Hk; [lia|]. cbn [nth].
      rewrite nth_skipn. f_equal. lia.
Qed.

Lemma length_set_byte (l : list Z) (i : nat) (v : Z) :
  (i < length l)%nat -> length (memcpy_at l i [v]) = length l.
Proof. intros Hi. apply length_memcpy_at. cbn [length]. lia. Qed.

Lemma indices_set_byte (l : list Z) (idx : list nat) (i : nat) (v : Z) :
  (i < length l)%nat ->
  Forall (fun j => (j < length l)%nat) idx ->
  Forall (fun j => (j < length (memcpy_at l i [v]))%nat) idx.
Proof. intros Hi H. rewrite length_set_byte by exact Hi. exact H. Qed.

Section KeyboardLoops.

Variable kt : key_tables.
Variables fnmode iso_layout : Z.
Variable kp : keyboard_protocol.

Lemma release_fold_none (last : list Z) (l : list nat) :
  fold_left (release_key kt fnmode iso_layout kp last) l None = None.
Proof. induction l as [|i l IH]; [reflexivity | exact IH]. Qed.

Lemma press_fold_none (l : list nat) :
  fold_left (press_key kt fnmode iso_layout kp) l None = None.
Proof. induction l as [|i l IH]; [reflexivity | exact IH]. Qed.

Lemma modifier_fold_none (l : list nat) :
  fold_left (report_modifier kt kp) l None = None.
Proof. induction l as [|i l IH]; [reflexivity | exact IH]. Qed.

(** What the loop over the released keys leaves: the array keeps its
    length, an entry whose index the loop did not visit is as before, and
    the requests made before are still there. *)
Lemma release_fold_frame (last : list Z) (l : list nat)
    (fn_flags fn_flags' : list Z) (reqs reqs' : list input_request) :
  Forall (fun i => (i < length fn_flags)%nat) l ->
  fold_left (release_key kt fnmode iso_layout kp last) l
    (Some (fn_flags, reqs)) = Some (fn_flags', reqs') ->
  length fn_flags' = length fn_flags /\
  (forall j, ~ In j l -> nth j fn_flags' 0 = nth j fn_flags 0) /\
  exists more, reqs' = reqs ++ more.
Proof.
  revert fn_flags reqs.
  induction l as [|i l IH]; intros fn_flags reqs Hl H; cbn [fold_left] in H.
  - injection H as <- <-. repeat split. exists []. symmetry. apply app_nil_r.
  - inversion Hl as [|? ? Hi Hl']; subst. cbn [release_key] in H.
    destruct (still_pressed kp (nth i last 0)).
    + destruct (IH _ _ Hl' H) as (Hlen & Hnth & Hmore).
      split; [exact Hlen|]. split; [|exact Hmore].
      intros j Hj. apply Hnth. intros Hin. apply Hj. right. exact Hin.
    + destruct (applespi_code_to_key kt fnmode iso_layout _ _) as [key|];
        [|rewrite release_fold_none in H; discriminate].
      pose proof (indices_set_byte fn_flags l i 0 Hi Hl') as Hl''.
      destruct (IH _ _ Hl'' H) as (Hlen & Hnth & more & ->).
      rewrite length_set_byte in Hlen by exact Hi.
      split; [exact Hlen|]. split.
      * intros j Hj. rewrite Hnth by (intros Hin; apply Hj; right; exact Hin).
        rewrite nth_set_byte by exact Hi.
        destruct (Nat.eqb j i) eqn:E; [|reflexivity].
        apply Nat.eqb_eq in E. subst j. exfalso. apply Hj. left. reflexivity.
      * exists ([InputReportKey key 0] ++ more). rewrite app_assoc.
        reflexivity.
Qed.

Lemma press_fold_frame (l : list nat)
    (fn_flags fn_flags' : list Z) (reqs reqs' : list input_request) :
  Forall (fun i => (i < length fn_flags)%nat) l ->
  fold_left (press_key kt fnmode iso_layout kp) l
    (Some (fn_flags, reqs)) = Some (fn_flags', reqs') ->
  length fn_flags' = length fn_flags /\
  (forall j, ~ In j l -> nth j fn_flags' 0 = nth j fn_flags 0) /\
  exists more, reqs' = reqs ++ more.
Proof.
  revert fn_flags reqs.
  induction l as [|i l IH]; intros fn_flags reqs Hl H; cbn [fold_left] in H.
  - injection H as <- <-. repeat split. exists []. symmetry. apply app_nil_r.
  - inversion Hl as [|? ? Hi Hl']; subst. cbn [press_key] in H.
    destruct (_ && _).
    + destruct (applespi_code_to_key kt fnmode iso_layout _ _) as [key|];
        [|rewrite press_fold_none in H; discriminate].
      pose proof (indices_set_byte fn_flags l i (fn_pressed kp) Hi Hl') as Hl''.
      destruct (IH _ _ Hl'' H) as (Hlen & Hnth & more & ->).
      rewrite length_set_byte in Hlen by exact Hi.
      split; [exact Hlen|]. split.
      * intros j Hj. rewrite Hnth by (intros Hin; apply Hj; right; exact Hin).
        rewrite nth_set_byte by exact Hi.
        destruct (Nat.eqb j i) eqn:E; [|reflexivity].
        apply Nat.eqb_eq in E. subst j. exfalso. apply Hj. left. reflexivity.
      * exists ([InputReportKey key 1] ++ more). rewrite app_assoc.
        reflexivity.
    + destruct (IH _ _ Hl' H) as (Hlen & Hnth & Hmore).
      split; [exact Hlen|]. split; [|exact Hmore].
      intros j Hj. apply Hnth. intros Hin. apply Hj. right. exact Hin.
Qed.

Lemma modifier_fold_frame (l : list nat) (reqs reqs' : list input_request) :
  fold_left (report_modifier kt kp) l (Some reqs) = Some reqs' ->
  exists more, reqs' = reqs ++ more.
Proof.
  revert reqs. induction l as [|i l IH]; intros reqs H; cbn [fold_left] in H.
  - injection H as <-. exists []. symmetry. apply app_nil_r.
  - cbn [report_modifier] in H.
    destruct (nth_error (applespi_controlcodes kt) i) as [code|];
      [|rewrite modifier_fold_none in H; discriminate].
    destruct (IH _ H) as (more & ->). eexists. rewrite <- app_assoc.
    reflexivity.
Qed.

(** The turn of a key that is no longer pressed: its release is requested,
    with the fn state recorded for it. *)
Lemma release_fold_visit (last : list Z) (l : list nat) (i : nat)
    (fn_flags fn_flags' : list Z) (reqs reqs' : list input_request) :
  Forall (fun i => (i < length fn_flags)%nat) l -> NoDup l -> In i l ->
  still_pressed kp (nth i last 0) = false ->
  fold_left (release_key kt fnmode iso_layout kp last) l
    (Some (fn_flags, reqs)) = Some (fn_flags', reqs') ->
  exists key,
    applespi_code_to_key kt fnmode iso_layout (nth i last 0)
      (nth i fn_flags 0) = Some key /\
    In (InputReportKey key 0) reqs'.
Proof.
  revert fn_flags reqs.
  induction l as [|k l IH]; intros fn_flags reqs Hl Hnd Hin Hsp H;
    [destruct Hin|].
  inversion Hl as [|? ? Hk Hl']; subst.
  inversion Hnd as [|? ? Hnotin Hnd']; subst.
  cbn [fold_left release_key] in H.
  destruct Hin as [->|Hin].
  - rewrite Hsp in H.
    destruct (applespi_code_to_key kt fnmode iso_layout _ _) as [key|];
      [|rewrite release_fold_none in H; discriminate].
    exists key. split; [reflexivity|].
    pose proof (indices_set_byte fn_flags l i 0 Hk Hl') as Hl''.
    destruct (release_fold_frame _ _ _ _ _ _ Hl'' H) as (_ & _ & more & ->).
    apply in_or_app. left. apply in_or_app. right. left. reflexivity.
  - destruct (still_pressed kp (nth k last 0)).
    + exact (IH _ _ Hl' Hnd' Hin Hsp H).
    + destruct (applespi_code_to_key kt fnmode iso_layout (nth k last 0) _)
        as [key|]; [|rewrite release_fold_none in H; discriminate].
      pose proof (indices_set_byte fn_flags l k 0 Hk Hl') as Hl''.
      destruct (IH _ _ Hl'' Hnd' Hin Hsp H) as (key' & Hkey & Hreq).
      exists key'. split; [|exact Hreq].
      rewrite nth_set_byte in Hkey by exact Hk.
      destruct (Nat.eqb i k) eqn:E; [|exact Hkey].
      apply Nat.eqb_eq in E. subst. contradiction.
Qed.

(** The turn of a key that is pressed and lies in the table: its press is
    requested and the fn state of the report is recorded for it. *)
Lemma press_fold_visit (l : list nat) (i : nat)
    (fn_flags fn_flags' : list Z) (reqs reqs' : list input_request) :
  Forall (fun i => (i < length fn_flags)%nat) l -> NoDup l -> In i l ->
  0 < nth i (keys_pressed kp) 0
    < Z.of_nat (length (applespi_scancodes kt)) ->
  fold_left (press_key kt fnmode iso_layout kp) l
    (Some (fn_flags, reqs)) = Some (fn_flags', reqs') ->
  exists key,
    applespi_code_to_key kt fnmode iso_layout (nth i (keys_pressed kp) 0)
      (fn_pressed kp) = Some key /\
    In (InputReportKey key 1) reqs' /\
    nth i fn_flags' 0 = fn_pressed kp.
Proof.
  revert fn_flags reqs.
  induction l as [|k l IH]; intros fn_flags reqs Hl Hnd Hin Hc H;
    [destruct Hin|].
  inversion Hl as [|? ? Hk Hl']; subst.
  inversion Hnd as [|? ? Hnotin Hnd']; subst.
  cbn [fold_left press_key] in H.
  destruct Hin as [->|Hin].
  - replace (_ && _) with true in H
      by (symmetry; apply andb_true_iff; split; lia).
    destruct (applespi_code_to_key kt fnmode iso_layout _ _) as [key|];
      [|rewrite press_fold_none in H; discriminate].
    exists key. split; [reflexivity|].
    pose proof (indices_set_byte fn_flags l i (fn_pressed kp) Hk Hl') as Hl''.
    destruct (press_fold_frame _ _ _ _ _ Hl'' H) as (_ & Hnth & more & ->).
    split.
    + apply in_or_app. left. apply in_or_app. right. left. reflexivity.
    + rewrite Hnth by exact Hnotin. rewrite nth_set_byte by exact Hk.
      rewrite Nat.eqb_refl. reflexivity.
  - destruct (_ && _).
    + destruct (applespi_code_to_key kt fnmode iso_layout
                  (nth k (keys_pressed kp) 0) _) as [key|];
        [|rewrite press_fold_none in H; discriminate].
      pose proof (indices_set_byte fn_flags l k (fn_pressed kp) Hk Hl') as Hl''.
      exact (IH _ _ Hl'' Hnd' Hin Hc H).
    + exact (IH _ _ Hl' Hnd' Hin Hc H).
Qed.

(** A key that is no longer pressed and lies outside the table stops the
    loop over the released keys. *)
Lemma release_fold_outside (last : list Z) (l : list nat) (i : nat)
    (acc : option (list Z * list input_request)) :
  In i l -> still_pressed kp (nth i last 0) = false ->
  Z.of_nat (length (applespi_scancodes kt)) <= nth i last 0 ->
  fold_left (release_key kt fnmode iso_layout kp last) l acc = None.
Proof.
  revert acc. induction l as [|k l IH]; intros acc Hin Hsp Hc;
    [destruct Hin|].
  cbn [fold_left]. destruct Hin as [->|Hin]; [|apply IH; assumption].
  destruct acc as [[fn_flags reqs]|]; cbn [release_key];
    [|apply release_fold_none].
  rewrite Hsp, code_to_key_outside_table by exact Hc.
  apply release_fold_none.
Qed.

(** With every code within the table the loops run to their end. *)
Lemma release_fold_in_table (last : list Z) (l : list nat)
    (fn_flags : list Z) (reqs : list input_request) :
  (forall i, In i l ->
             0 <= nth i last 0 < Z.of_nat (length (applespi_scancodes kt))) ->
  exists fn_flags' reqs',
    fold_left (release_key kt fnmode iso_layout kp last) l
      (Some (fn_flags, reqs)) = Some (fn_flags', reqs').
Proof.
  revert fn_flags reqs. induction l as [|k l IH]; intros fn_flags reqs Hc.
  - do 2 eexists. reflexivity.
  - cbn [fold_left release_key].
    assert (Hl : forall i, In i l ->
                 0 <= nth i last 0 < Z.of_nat (length (applespi_scancodes kt)))
      by (intros i Hi; apply Hc; right; exact Hi).
    destruct (still_pressed kp (nth k last 0)); [apply IH; exact Hl|].
    destruct (code_to_key_in_table kt fnmode iso_layout (nth k last 0)
                (nth k fn_flags 0) (Hc k (or_introl eq_refl))) as (key & ->).
    apply IH. exact Hl.
Qed.

Lemma press_fold_in_table (l : list nat)
    (fn_flags : list Z) (reqs : list input_request) :
  exists fn_flags' reqs',
    fold_left (press_key kt fnmode iso_layout kp) l
      (Some (fn_flags, reqs)) = Some (fn_flags', reqs').
Proof.
  revert fn_flags reqs. induction l as [|k l IH]; intros fn_flags reqs.
  - do 2 eexists. reflexivity.
  - cbn [fold_left press_key].
    destruct (_ && _) eqn:Hg; [|apply IH].
    apply andb_true_iff in Hg. destruct Hg as [Hlt Hgt].
    apply Z.ltb_lt in Hlt. apply Z.gtb_lt in Hgt.
    destruct (code_to_key_in_table kt fnmode iso_layout
                (nth k (keys_pressed kp) 0) (fn_pressed kp)
                ltac:(lia)) as (key & ->).
    apply IH.
Qed.

Lemma modifier_fold_in_table (l : list nat) (reqs : list input_request) :
  (forall i, In i l -> (i < length (applespi_controlcodes kt))%nat) ->
  exists reqs', fold_left (report_modifier kt kp) l (Some reqs) = Some reqs'.
Proof.
  revert reqs. induction l as [|k l IH]; intros reqs Hc.
  - eexists. reflexivity.
  - cbn [fold_left report_modifier].
    destruct (nth_error (applespi_controlcodes kt) k) eqn:Hn.
    + apply IH. intros i Hi. apply Hc. right. exact Hi.
    + apply nth_error_None in Hn.
      specialize (Hc k (or_introl eq_refl)). lia.
Qed.

End KeyboardLoops.

(** The three loops of the handler, one after the other. *)
Lemma handle_keyboard_event_loops (kt : key_tables) (fnmode iso_layout : Z)
    (s s' : keyboard_state) (kp : keyboard_protocol)
    (reqs : list input_request) :
  applespi_handle_keyboard_event kt fnmode iso_layout s kp = Some (s', reqs) ->
  exists fn_flags1 reqs1 reqs2 reqs3,
    fold_left (release_key kt fnmode iso_layout kp (last_keys_pressed s))
      (seq 0 (Z.to_nat MAX_ROLLOVER)) (Some (last_keys_fn_pressed s, []))
    = Some (fn_flags1, reqs1) /\
    fold_left (press_key kt fnmode iso_layout kp)
      (seq 0 (Z.to_nat MAX_ROLLOVER)) (Some (fn_flags1, reqs1))
    = Some (last_keys_fn_pressed s', reqs2) /\
    fold_left (report_modifier kt kp) (seq 0 (Z.to_nat MAX_MODIFIERS))
      (Some reqs2) = Some reqs3 /\
    last_keys_pressed s' = firstn (Z.to_nat MAX_ROLLOVER) (keys_pressed kp) /\
    last_fn_pressed s' = fn_pressed kp /\
    reqs = reqs3 ++ report_fn kt s kp ++ [InputSync].
Proof.
  unfold applespi_handle_keyboard_event. intros H.
  destruct (fold_left (release_key _ _ _ _ _) _ _) as [[fn1 r1]|];
    [|discriminate].
  destruct (fold_left (press_key _ _ _ _) _ _) as [[fn2 r2]|] eqn:Hp;
    [|discriminate].
  destruct (fold_left (report_modifier _ _) _ _) as [r3|] eqn:Hm;
    [|discriminate].
  injection H as <- <-. exists fn1, r1, r2, r3. repeat split; assumption.
Qed.

Lemma rollover_indices (n : nat) :
  Forall (fun i => (i < n)%nat) (seq 0 n).
Proof. apply Forall_forall. intros i Hi. apply in_seq in Hi. lia. Qed.

(** The handler does not leave the tables when the codes of the previous
    report lie in the scancode table: with those codes in range (and the
    control code table of [MAX_MODIFIERS] entries) it runs to its end,
    whatever the new report holds, and records the keys and the fn state of
    the new report. *)
Theorem keyboard_event_within_tables (kt : key_tables)
    (fnmode iso_layout : Z) (s : keyboard_state) (kp : keyboard_protocol) :
  (forall i, (i < Z.to_nat MAX_ROLLOVER)%nat ->
             0 <= nth i (last_keys_pressed s) 0
             < Z.of_nat (length (applespi_scancodes kt))) ->
  (Z.to_nat MAX_MODIFIERS <= length (applespi_controlcodes kt))%nat ->
  exists s' reqs,
    applespi_handle_keyboard_event kt fnmode iso_layout s kp
    = Some (s', reqs) /\
    last_keys_pressed s' = firstn (Z.to_nat MAX_ROLLOVER) (keys_pressed kp) /\
    last_fn_pressed s' = fn_pressed kp.
Proof.
  intros Hlast Hctl. unfold applespi_handle_keyboard_event.
  destruct (release_fold_in_table kt fnmode iso_layout kp
              (last_keys_pressed s) (seq 0 (Z.to_nat MAX_ROLLOVER))
              (last_keys_fn_pressed s) [])
    as (fn1 & r1 & ->).
  { intros i Hi. apply Hlast. apply in_seq in Hi. lia. }
  destruct (press_fold_in_table kt fnmode iso_layout kp
              (seq 0 (Z.to_nat MAX_ROLLOVER)) fn1 r1) as (fn2 & r2 & ->).
  destruct (modifier_fold_in_table kt kp (seq 0 (Z.to_nat MAX_MODIFIERS)) r2)
    as (r3 & ->).
  { intros i Hi. apply in_seq in Hi. lia. }
  do 2 eexists. repeat split.
Qed.

Lemma keyboard_event_within_tables_witness :
  exists s' reqs,
    applespi_handle_keyboard_event example_tables 1 0 keyboard_zero
      report_key4_fn = Some (s', reqs) /\
    last_keys_pressed s' = [4; 0; 0; 0; 0; 0] /\
    last_fn_pressed s' = 1.
Proof.
  apply (keyboard_event_within_tables example_tables 1 0 keyboard_zero
           report_key4_fn).
  - intros i Hi. change (Z.to_nat MAX_ROLLOVER) with 6%nat in Hi.
    do 6 (destruct i as [|i]; [split; vm_compute; congruence|]). lia.
  - vm_compute. lia.
Defined.

(** The loop over the released keys lacks the bounds check of the loop over
    the pressed keys.  A code at or beyond the end of [applespi_scancodes]
    in a report is skipped by the press loop but kept in
    [last_keys_pressed]; when a later report no longer holds it, the release
    loop indexes the table with it, out of range. *)
Theorem keyboard_release_outside_table (kt : key_tables)
    (fnmode iso_layout : Z) (s0 s1 : keyboard_state)
    (kp1 kp2 : keyboard_protocol) (reqs1 : list input_request) (i : nat) :
  (i < Z.to_nat MAX_ROLLOVER)%nat ->
  Z.of_nat (length (applespi_scancodes kt)) <= nth i (keys_pressed kp1) 0 ->
  still_pressed kp2 (nth i (keys_pressed kp1) 0) = false ->
  applespi_handle_keyboard_event kt fnmode iso_layout s0 kp1
  = Some (s1, reqs1) ->
  applespi_handle_keyboard_event kt fnmode iso_layout s1 kp2 = None.
Proof.
  intros Hi Hc Hsp H1.
  destruct (handle_keyboard_event_loops _ _ _ _ _ _ _ H1)
    as (_ & _ & _ & _ & _ & _ & _ & Hkeys & _).
  unfold applespi_handle_keyboard_event.
  rewrite (release_fold_outside kt fnmode iso_layout kp2
             (last_keys_pressed s1) _ i); [reflexivity| | |].
  - apply in_seq. lia.
  - rewrite Hkeys, nth_firstn_lt by exact Hi. exact Hsp.
  - rewrite Hkeys, nth_firstn_lt by exact Hi. exact Hc.
Qed.

Lemma keyboard_release_outside_table_witness :
  exists s1 reqs1,
    applespi_handle_keyboard_event example_tables 1 0 keyboard_zero
      report_key200 = Some (s1, reqs1) /\
    applespi_handle_keyboard_event example_tables 1 0 s1 report_nothing
    = None.
Proof.
  eassert (H1 : applespi_handle_keyboard_event example_tables 1 0
                  keyboard_zero report_key200 = Some (_, _))
    by (vm_compute; reflexivity).
  do 2 eexists. split; [exact H1|].
  refine (keyboard_release_outside_table example_tables 1 0 keyboard_zero _
            report_key200 report_nothing _ 0%nat _ _ _ H1);
    [vm_compute; lia | vm_compute; congruence | reflexivity].
Defined.

(** The key that is released is the key that was pressed.  When a report
    holds a code of the table and the next report no longer holds it, the
    second report's requests release the very key the first one's pressed,
    also when the state of fn has changed in between: the release is
    translated with the fn state recorded at the press. *)
Theorem key_release_matches_press (kt : key_tables) (fnmode iso_layout : Z)
    (s0 s1 s2 : keyboard_state) (kp1 kp2 : keyboard_protocol)
    (reqs1 reqs2 : list input_request) (i : nat) :
  (i < Z.to_nat MAX_ROLLOVER)%nat ->
  length (last_keys_fn_pressed s0) = Z.to_nat MAX_ROLLOVER ->
  0 < nth i (keys_pressed kp1) 0
    < Z.of_nat (length (applespi_scancodes kt)) ->
  still_pressed kp2 (nth i (keys_pressed kp1) 0) = false ->
  applespi_handle_keyboard_event kt fnmode iso_layout s0 kp1
  = Some (s1, reqs1) ->
  applespi_handle_keyboard_event kt fnmode iso_layout s1 kp2
  = Some (s2, reqs2) ->
  exists key,
    applespi_code_to_key kt fnmode iso_layout (nth i (keys_pressed kp1) 0)
      (fn_pressed kp1) = Some key /\
    In (InputReportKey key 1) reqs1 /\
    In (InputReportKey key 0) reqs2.
Proof.
  intros Hi Hlen Hc Hsp H1 H2.
  destruct (handle_keyboard_event_loops _ _ _ _ _ _ _ H1)
    as (fn1 & r1 & r2 & r3 & Hrel1 & Hpress1 & Hmod1 & Hkeys1 & _ & ->).
  destruct (handle_keyboard_event_loops _ _ _ _ _ _ _ H2)
    as (fn1' & r1' & r2' & r3' & Hrel2 & Hpress2 & Hmod2 & _ & _ & ->).
  pose proof (rollover_indices (Z.to_nat MAX_ROLLOVER)) as Hidx.
  assert (Hin : In i (seq 0 (Z.to_nat MAX_ROLLOVER))) by (apply in_seq; lia).
  pose proof (seq_NoDup (Z.to_nat MAX_ROLLOVER) 0) as Hnd.
  (* the first report *)
  destruct (release_fold_frame _ _ _ _ _ _ _ _ _ _
              ltac:(rewrite Hlen; exact Hidx) Hrel1) as (Hlen1 & _ & _).
  destruct (press_fold_visit _ _ _ _ _ i _ _ _ _
              ltac:(rewrite Hlen1, Hlen; exact Hidx) Hnd Hin Hc Hpress1)
    as (key & Hkey & Hreq1 & Hfn).
  destruct (press_fold_frame _ _ _ _ _ _ _ _ _
              ltac:(rewrite Hlen1, Hlen; exact Hidx) Hpress1)
    as (Hlen2 & _ & _).
  destruct (modifier_fold_frame _ _ _ _ _ Hmod1) as (more1 & ->).
  (* the second report *)
  assert (Hlast : nth i (last_keys_pressed s1) 0 = nth i (keys_pressed kp1) 0)
    by (rewrite Hkeys1; apply nth_firstn_lt; exact Hi).
  destruct (release_fold_visit _ _ _ _ _ _ i _ _ _ _
              ltac:(rewrite Hlen2, Hlen1, Hlen; exact Hidx) Hnd Hin
              ltac:(rewrite Hlast; exact Hsp) Hrel2)
    as (key' & Hkey' & Hreq2).
  rewrite Hlast, Hfn, Hkey in Hkey'. injection Hkey' as <-.
  destruct (release_fold_frame _ _ _ _ _ _ _ _ _ _
              ltac:(rewrite Hlen2, Hlen1, Hlen; exact Hidx) Hrel2)
    as (Hlen1' & _ & _).
  destruct (press_fold_frame _ _ _ _ _ _ _ _ _
              ltac:(rewrite Hlen1', Hlen2, Hlen1, Hlen; exact Hidx) Hpress2)
    as (_ & _ & more2 & ->).
  destruct (modifier_fold_frame _ _ _ _ _ Hmod2) as (more3 & ->).
  exists key. split; [exact Hkey|]. split.
  - apply in_or_app. left. apply in_or_app. left. exact Hreq1.
  - apply in_or_app. left. apply in_or_app. left.
    apply in_or_app. left. exact Hreq2.
Qed.

Lemma key_release_matches_press_witness :
  exists s1 reqs1 s2 reqs2 key,
    applespi_handle_keyboard_event example_tables 1 0 keyboard_zero
      report_key4_fn = Some (s1, reqs1) /\
    applespi_handle_keyboard_event example_tables 1 0 s1 report_nothing
    = Some (s2, reqs2) /\
    applespi_code_to_key example_tables 1 0 4 1 = Some key /\
    In (InputReportKey key 1) reqs1 /\
    In (InputReportKey key 0) reqs2.
Proof.
  eassert (H1 : applespi_handle_keyboard_event example_tables 1 0
                  keyboard_zero report_key4_fn = Some (_, _))
    by (vm_compute; reflexivity).
  match type of H1 with
  | _ = Some (?s1, _) =>
      eassert (H2 : applespi_handle_keyboard_event example_tables 1 0 s1
                      report_nothing = Some (_, _))
        by (vm_compute; reflexivity)
  end.
  destruct (key_release_matches_press example_tables 1 0 keyboard_zero _ _
              report_key4_fn report_nothing _ _ 0%nat
              ltac:(vm_compute; lia) ltac:(reflexivity)
              ltac:(split; vm_compute; congruence)
              ltac:(reflexivity) H1 H2) as (key & Hkey & Hr1 & Hr2).
  do 4 eexists. exists key.
  split; [exact H1|]. split; [exact H2|]. auto.
Defined.

(** ** The touchpad handler *)

Lemma s16_small (v : Z) : -32768 <= v < 32768 -> s16 v = v.
Proof. intros H. unfold s16. rewrite Z.mod_small by lia. lia. Qed.

Lemma s32_small (v : Z) : -2147483648 <= v < 2147483648 -> s32 v = v.
Proof. intros H. unfold s32. rewrite Z.mod_small by lia. lia. Qed.

Lemma s16_range (x : Z) : -32768 <= s16 x < 32768.
Proof.
  unfold s16. pose proof (Z.mod_pos_bound (x + 32768) 65536 ltac:(lia)). lia.
Qed.

(** [raw2int] reads a [__le16] as two's complement. *)
Lemma raw2int_signed (v : Z) :
  -32768 <= v < 32768 -> raw2int (v mod 65536) = v.
Proof.
  intros H. unfold raw2int, s16.
  rewrite Zplus_mod_idemp_l. rewrite Z.mod_small by lia. lia.
Qed.

Lemma tp_positions_touching (tp_info : applespi_tp_info)
    (fs : list tp_finger) :
  tp_positions tp_info fs = map (finger_pos tp_info) (filter touching fs).
Proof.
  induction fs as [|f fs IH]; [reflexivity|].
  cbn [tp_positions filter]. unfold touching at 1.
  destruct (raw2int (touch_major f) =? 0); cbn [negb map]; congruence.
Qed.

Lemma length_filter_le {A : Type} (p : A -> bool) (l : list A) :
  (length (filter p l) <= length l)%nat.
Proof.
  induction l as [|x l IH]; [reflexivity|].
  cbn [filter]. destruct (p x); cbn [length]; lia.
Qed.

Lemma flat_map_ext_in {A B : Type} (f g : A -> list B) (l : list A) :
  (forall x, In x l -> f x = g x) -> flat_map f l = flat_map g l.
Proof.
  induction l as [|x l IH]; intros H; [reflexivity|].
  cbn [flat_map]. rewrite (H x (or_introl eq_refl)), IH; [reflexivity|].
  intros y Hy. apply H. right. exact Hy.
Qed.

(** [report_tp_state] stays within [fingers] and [pos] for the messages
    [applespi_got_data] passes on.  For a message that announces at most
    [MAX_FINGERS] fingers whose records lie within it (which is what the
    checks of lines 1406-1420 leave), the handler runs to its end, and it
    reports at most as many contacts as fingers were announced. *)
Theorem tp_state_within_arrays (kt : key_tables)
    (tp_info : applespi_tp_info) (slots : list Z) (m : list Z) :
  0 <= tp_number_of_fingers m <= MAX_FINGERS ->
  MSG_HEADER_SIZE + TOUCHPAD_PROTOCOL_SIZE
  + tp_number_of_fingers m * TP_FINGER_SIZE <= Z.of_nat (length m) ->
  exists pos reqs,
    report_tp_state kt tp_info slots (message_touchpad m)
    = Some (InputMtAssignSlots pos :: reqs) /\
    Z.of_nat (length pos) <= tp_number_of_fingers m.
Proof.
  unfold MAX_FINGERS, MSG_HEADER_SIZE, TOUCHPAD_PROTOCOL_SIZE, TP_FINGER_SIZE.
  intros Hn Hlen. unfold report_tp_state, message_touchpad.
  cbn [fingers number_of_fingers clicked]. cbv zeta.
  set (nf := Z.to_nat (tp_number_of_fingers m)).
  assert (Hnf : (nf <= (length m - 56) / 30)%nat).
  { apply Nat.div_le_lower_bound; lia. }
  rewrite length_map, length_seq.
  destruct (Nat.ltb_spec ((length m - 56) / 30) nf) as [Hlt|_]; [lia|].
  assert (Hpos : (length (tp_positions tp_info
                            (firstn nf (map (tp_finger_at m)
                               (seq 0 ((length m - 56) / 30))))) <= nf)%nat).
  { rewrite tp_positions_touching, length_map.
    etransitivity; [apply length_filter_le|].
    rewrite length_firstn. lia. }
  change (Z.to_nat MAX_FINGERS) with 11%nat.
  destruct (Nat.ltb_spec 11 (length (tp_positions tp_info
                            (firstn nf (map (tp_finger_at m)
                               (seq 0 ((length m - 56) / 30)))))))
    as [Hlt|_]; [lia|].
  do 2 eexists. split; [reflexivity|]. lia.
Qed.

Lemma tp_state_within_arrays_witness :
  exists pos reqs,
    report_tp_state example_tables applespi_default_info [0; 1]
      (message_touchpad tp_message_two)
    = Some (InputMtAssignSlots pos :: reqs) /\
    Z.of_nat (length pos) <= tp_number_of_fingers tp_message_two.
Proof.
  apply (tp_state_within_arrays example_tables applespi_default_info [0; 1]
           tp_message_two).
  - vm_compute. split; congruence.
  - vm_compute. congruence.
Defined.

(** Which finger a contact is reported from.  The contacts are the fingers
    that touch (nonzero [touch_major]) among the announced ones; contact [i]
    is given the position of the [i]-th finger that touches, but the sizes
    and the orientation of [fingers[i]], the [i]-th finger of the report:
    the two are the same finger only while no lifted finger comes before. *)
Theorem tp_contacts_by_index (kt : key_tables) (tp_info : applespi_tp_info)
    (slots : list Z) (t : touchpad_protocol) (reqs : list input_request) :
  report_tp_state kt tp_info slots t = Some reqs ->
  let contacts :=
    filter touching (firstn (Z.to_nat (number_of_fingers t)) (fingers t)) in
  reqs
  = [InputMtAssignSlots (map (finger_pos tp_info) contacts)]
    ++ flat_map
         (fun i => report_finger_data (nth i slots 0)
                     (finger_pos tp_info (nth i contacts null_finger))
                     (nth i (fingers t) null_finger))
         (seq 0 (length contacts))
    ++ [InputMtSyncFrame; InputReportKey (BTN_LEFT kt) (clicked t);
        InputSync].
Proof.
  unfold report_tp_state. cbv zeta.
  destruct (_ <? _)%nat; [discriminate|].
  destruct (_ <? _)%nat; [discriminate|].
  intros H. injection H as <-.
  rewrite tp_positions_touching, length_map.
  cbn [app]. f_equal. f_equal. apply flat_map_ext_in. intros i Hi.
  apply in_seq in Hi. f_equal.
  rewrite (nth_indep _ _ (finger_pos tp_info null_finger))
    by (rewrite length_map; lia).
  apply map_nth.
Qed.

Lemma tp_contacts_by_index_witness :
  report_tp_state example_tables applespi_default_info [3; 0] two_finger_report
  = Some
      ([InputMtAssignSlots [finger_pos applespi_default_info touching_finger]]
       ++ report_finger_data 3
            (finger_pos applespi_default_info touching_finger) lifted_finger
       ++ [InputMtSyncFrame; InputReportKey 272 1; InputSync]).
Proof.
  eassert (H : report_tp_state example_tables applespi_default_info [3; 0]
                 two_finger_report = Some _) by (vm_compute; reflexivity).
  exact (eq_trans H
           (f_equal Some
              (tp_contacts_by_index example_tables applespi_default_info
                 [3; 0] two_finger_report _ H))).
Defined.

(** The position reported for a finger: x is the finger's signed [abs_x],
    and y is [abs_y] mirrored within the touchpad, [y_min + y_max - abs_y],
    as long as that fits the [s16] of [struct input_mt_pos]; so y lies
    between [y_min] and [y_max] exactly when [abs_y] does. *)
Theorem finger_pos_mirrors_y (tp_info : applespi_tp_info) (f : tp_finger)
    (x y : Z) :
  -32768 <= x < 32768 -> abs_x f = x mod 65536 ->
  -32768 <= y < 32768 -> abs_y f = y mod 65536 ->
  -32768 <= y_min tp_info + y_max tp_info - y < 32768 ->
  pos_x (finger_pos tp_info f) = x /\
  pos_y (finger_pos tp_info f) = y_min tp_info + y_max tp_info - y /\
  (y_min tp_info <= pos_y (finger_pos tp_info f) <= y_max tp_info <->
   y_min tp_info <= y <= y_max tp_info).
Proof.
  intros Hx Hfx Hy Hfy Hm. unfold finger_pos. cbn [pos_x pos_y].
  rewrite Hfx, Hfy, !raw2int_signed by assumption.
  rewrite s32_small by lia. rewrite !s16_small by lia.
  split; [reflexivity|]. split; [reflexivity|]. lia.
Qed.

Lemma finger_pos_mirrors_y_witness :
  pos_x (finger_pos applespi_default_info touching_finger) = 100 /\
  pos_y (finger_pos applespi_default_info touching_finger)
  = y_min applespi_default_info + y_max applespi_default_info - 200 /\
  (y_min applespi_default_info
   <= pos_y (finger_pos applespi_default_info touching_finger)
   <= y_max applespi_default_info <->
   y_min applespi_default_info <= 200 <= y_max applespi_default_info).
Proof.
  apply (finger_pos_mirrors_y applespi_default_info touching_finger 100 200);
    vm_compute; try reflexivity; split; congruence.
Defined.
